(** * s3transfer.processpool: a shallow embedding and its verified properties

    The development follows [s3transfer/processpool.py]: the per-transfer
    state kept by the [TransferMonitor], the [GetObjectSubmitter] that cuts a
    download request into [GetObjectJob]s, the [GetObjectWorker] that
    performs them, and the caller-facing [ProcessPoolDownloader] and
    [ProcessPoolTransferFuture].

    Python objects that live in several processes are threaded through one
    [World] value; every call that acts on a collaborator (a notification of
    the monitor, a put on a queue, a request to the client, an operation on
    a file) is also appended to [calls], the way the unit tests record them
    with mocks, so that orderings can be stated. *)

From Stdlib Require Import ZArith List Strings.Byte.
From stdpp Require Import gmap strings list fin_maps pretty.

Local Open Scope string_scope.
Local Open Scope list_scope.
Local Open Scope Z_scope.

(** ** Python values *)

(** Modelled from the spec: the classes of [s3transfer.exceptions] are not in
    this file; the spec has a distinguished cancelled failure and a
    retries-exceeded failure that wraps the last underlying error.
    [RetriesExceededError(last_exception)] keeps the value it was built
    from, which is [None] or an exception.  The other constructors are
    instances of Python's own [Exception] classes, and [ClientException]
    stands for what the botocore client raises, by class name. *)
#[warnings="-register-all"]
Inductive exn : Type :=
| ValueError (msg : string)
| ZeroDivisionError
| FileNotFoundError (path : string)
| OSError (strerror : string)
| CancelledError
| RetriesExceededError (last_exception : option exn)
| ClientException (class_name : string) (msg : string).

(** What a [raise] in the caller's thread can carry: an [Exception], or the
    [KeyboardInterrupt] delivered while the caller waits. *)
Inductive base_exn : Type :=
| Exc (e : exn)
| KeyboardInterrupt.

Inductive result (E A : Type) : Type :=
| Return (a : A)
| Raise (e : E).
Arguments Return {E A} a.
Arguments Raise {E A} e.

(** How a call that may wait ends for the caller. *)
Inductive outcome (A : Type) : Type :=
| Returns (a : A)
| Raises (e : base_exn)
| Blocks.
Arguments Returns {A} a.
Arguments Raises {A} e.
Arguments Blocks {A}.

(** A [dict] with [str] keys and values, in insertion order. *)
Module PyDict.
Definition t : Type := list (string * string).

Fixpoint get (d : t) (k : string) : option string :=
  match d with
  | [] => None
  | (k', v) :: d' => if String.eqb k' k then Some v else get d' k
  end.

(** [d[k] = v]: an existing key keeps its place, a new one goes last. *)
Fixpoint set (d : t) (k v : string) : t :=
  match d with
  | [] => [(k, v)]
  | (k', v') :: d' =>
      if String.eqb k' k then (k', v) :: d' else (k', v') :: set d' k v
  end.

(** [d.update(other)] *)
Definition update (d other : t) : t :=
  fold_left (fun acc kv => set acc (fst kv) (snd kv)) other d.

Definition keys (d : t) : list string := map fst d.
End PyDict.

(** [str in list_of_str] *)
Definition str_in (k : string) (l : list string) : bool :=
  existsb (String.eqb k) l.

(** [sep.join(l)] *)
Fixpoint join (sep : string) (l : list string) : string :=
  match l with
  | [] => ""
  | [x] => x
  | x :: l' => x +:+ sep +:+ join sep l'
  end.

(** ** Module-level names *)

(** Modelled from the spec: [s3transfer.constants.MB] is not in this file;
    the spec gives the defaults as 8 MiB. *)
Definition MB : Z := 1024 * 1024.

Inductive queue_item (A : Type) : Type :=
| Item (a : A)
| SHUTDOWN_SIGNAL.
Arguments Item {A} a.
Arguments SHUTDOWN_SIGNAL {A}.

Module DownloadFileRequest.
Record t : Type := {
  transfer_id : nat;
  bucket : string;
  key : string;
  filename : string;
  extra_args : PyDict.t;
  expected_size : option Z;
}.
End DownloadFileRequest.

Record GetObjectJob : Type := {
  transfer_id : nat;
  bucket : string;
  key : string;
  temp_filename : string;
  extra_args : PyDict.t;
  offset : Z;
  filename : string;
}.

Record ProcessTransferConfig : Type := {
  multipart_threshold : Z;
  multipart_chunksize : Z;
  max_request_processes : nat;
}.

Definition default_config : ProcessTransferConfig :=
  {| multipart_threshold := 8 * MB;
     multipart_chunksize := 8 * MB;
     max_request_processes := 10 |}.

(** ** TransferState *)

Module TransferState.
(** [_done_event] is a [threading.Event], kept as its flag; [_job_lock]
    makes [decrement_jobs_to_complete] one indivisible step, which is how
    the function below is used. *)
Record t : Type := {
  _exception : option exn;
  _done_event : bool;
  _jobs_to_complete : Z;
}.

Definition __init__ : t :=
  {| _exception := None; _done_event := false; _jobs_to_complete := 0 |}.

Definition done (self : t) : bool := _done_event self.

Definition set_done (self : t) : t :=
  {| _exception := _exception self;
     _done_event := true;
     _jobs_to_complete := _jobs_to_complete self |}.

Definition exception (self : t) : option exn := _exception self.

Definition exception_setter (self : t) (val : option exn) : t :=
  {| _exception := val;
     _done_event := _done_event self;
     _jobs_to_complete := _jobs_to_complete self |}.

Definition jobs_to_complete (self : t) : Z := _jobs_to_complete self.

Definition jobs_to_complete_setter (self : t) (val : Z) : t :=
  {| _exception := _exception self;
     _done_event := _done_event self;
     _jobs_to_complete := val |}.

Definition decrement_jobs_to_complete (self : t) : Z * t :=
  let self' := jobs_to_complete_setter self (_jobs_to_complete self - 1) in
  (_jobs_to_complete self', self').

(** [self._done_event.wait(MAXINT)] as the waiting caller sees it: it
    returns at once when the event is set; otherwise the caller stays
    blocked until another process sets the event, unless a
    [KeyboardInterrupt] reaches it first ([interrupted]).  The ceiling
    [MAXINT] of the wait is a matter of real time and is left out. *)
Definition wait_till_done (self : t) (interrupted : bool) : outcome unit :=
  if done self then Returns tt
  else if interrupted then Raises KeyboardInterrupt
  else Blocks.
End TransferState.

#[global] Instance TransferState_inhabited : Inhabited TransferState.t :=
  populate TransferState.__init__.

(** ** TransferMonitor *)

Module TransferMonitor.
(** [self._transfer_states], a [defaultdict(TransferState)]. *)
Abbreviation t := (gmap nat TransferState.t).

Definition __init__ : t := ∅.

(** [self._transfer_states[transfer_id]]: a missing key is first bound to a
    fresh [TransferState()]. *)
Definition getitem (self : t) (transfer_id : nat) : TransferState.t * t :=
  match self !! transfer_id with
  | Some st => (st, self)
  | None => (TransferState.__init__,
             <[transfer_id := TransferState.__init__]> self)
  end.

Definition is_done (self : t) (transfer_id : nat) : bool * t :=
  let '(st, self) := getitem self transfer_id in
  (TransferState.done st, self).

Definition notify_done (self : t) (transfer_id : nat) : t :=
  let '(st, self) := getitem self transfer_id in
  <[transfer_id := TransferState.set_done st]> self.

Definition notify_exception (self : t) (transfer_id : nat) (exception : exn)
  : t :=
  let '(st, self) := getitem self transfer_id in
  <[transfer_id := TransferState.exception_setter st (Some exception)]> self.

Definition get_exception (self : t) (transfer_id : nat) : option exn * t :=
  let '(st, self) := getitem self transfer_id in
  (TransferState.exception st, self).

Definition notify_expected_jobs_to_complete
    (self : t) (transfer_id : nat) (num_jobs : Z) : t :=
  let '(st, self) := getitem self transfer_id in
  <[transfer_id := TransferState.jobs_to_complete_setter st num_jobs]> self.

Definition notify_job_complete (self : t) (transfer_id : nat) : Z * t :=
  let '(st, self) := getitem self transfer_id in
  let '(remaining, st') := TransferState.decrement_jobs_to_complete st in
  (remaining, <[transfer_id := st']> self).

(** The monitor passed in is the one the caller finds when its wait
    ends. *)
Definition poll_for_result (self : t) (transfer_id : nat) (interrupted : bool)
  : outcome unit * t :=
  let '(st, self) := getitem self transfer_id in
  match TransferState.wait_till_done st interrupted with
  | Returns _ =>
      let '(st, self) := getitem self transfer_id in
      match TransferState.exception st with
      | Some exception => (Raises (Exc exception), self)
      | None => (Returns tt, self)
      end
  | Raises e => (Raises e, self)
  | Blocks => (Blocks, self)
  end.
End TransferMonitor.

(** ** The world shared by the processes *)

(** The body of a [get_object] response: what the successive calls
    [body.read(_IO_CHUNKSIZE)] return, and how the stream ends once they are
    used up (end of data, or an error raised by the read). *)
Record StreamingBody : Type := {
  reads : list (list byte);
  read_error : option exn;
}.

(** The botocore client, a collaborator: [head_object] answers with the
    ['ContentLength'] of its response or raises; the answer of [get_object]
    may differ from one call to the next, so it also takes the number of
    calls made before. *)
Record S3Client : Type := {
  head_object : string -> string -> PyDict.t -> result exn Z;
  get_object : nat -> string -> string -> PyDict.t -> result exn StreamingBody;
}.

Inductive call : Type :=
| Call_notify_expected_jobs_to_complete (transfer_id : nat) (num_jobs : Z)
| Call_notify_exception (transfer_id : nat) (exception : exn)
| Call_notify_done (transfer_id : nat)
| Call_notify_job_complete (transfer_id : nat) (remaining : Z)
| Call_worker_queue_put (item : queue_item GetObjectJob)
| Call_download_request_queue_put (item : queue_item DownloadFileRequest.t)
| Call_head_object (bucket key : string) (extra_args : PyDict.t)
| Call_get_object (bucket key : string) (extra_args : PyDict.t)
| Call_allocate (filename : string) (size : Z)
| Call_remove_file (filename : string)
| Call_rename_file (current_filename new_filename : string).

Record World : Type := {
  monitor : gmap nat TransferState.t;
  files : gmap string (list byte);
  download_request_queue : list (queue_item DownloadFileRequest.t);
  worker_queue : list (queue_item GetObjectJob);
  get_object_count : nat;
  calls : list call;
}.

Definition with_monitor (m : gmap nat TransferState.t) (w : World) : World :=
  {| monitor := m; files := files w;
     download_request_queue := download_request_queue w;
     worker_queue := worker_queue w;
     get_object_count := get_object_count w; calls := calls w |}.

Definition with_files (f : gmap string (list byte)) (w : World) : World :=
  {| monitor := monitor w; files := f;
     download_request_queue := download_request_queue w;
     worker_queue := worker_queue w;
     get_object_count := get_object_count w; calls := calls w |}.

Definition with_download_request_queue
    (q : list (queue_item DownloadFileRequest.t)) (w : World) : World :=
  {| monitor := monitor w; files := files w;
     download_request_queue := q;
     worker_queue := worker_queue w;
     get_object_count := get_object_count w; calls := calls w |}.

Definition with_worker_queue (q : list (queue_item GetObjectJob)) (w : World)
  : World :=
  {| monitor := monitor w; files := files w;
     download_request_queue := download_request_queue w;
     worker_queue := q;
     get_object_count := get_object_count w; calls := calls w |}.

Definition with_get_object_count (n : nat) (w : World) : World :=
  {| monitor := monitor w; files := files w;
     download_request_queue := download_request_queue w;
     worker_queue := worker_queue w;
     get_object_count := n; calls := calls w |}.

Definition record_call (c : call) (w : World) : World :=
  {| monitor := monitor w; files := files w;
     download_request_queue := download_request_queue w;
     worker_queue := worker_queue w;
     get_object_count := get_object_count w; calls := calls w ++ [c] |}.

Definition empty_world : World :=
  {| monitor := TransferMonitor.__init__; files := ∅;
     download_request_queue := []; worker_queue := [];
     get_object_count := 0; calls := [] |}.

(** ** Statements that may raise *)

Definition M (A : Type) : Type := World -> result exn A * World.

Definition ret {A} (a : A) : M A := fun w => (Return a, w).

Definition raise {A} (e : exn) : M A := fun w => (Raise e, w).

Definition bind {A B} (m : M A) (k : A -> M B) : M B :=
  fun w =>
    match m w with
    | (Return a, w') => k a w'
    | (Raise e, w') => (Raise e, w')
    end.

(** [try: m except Exception as e: handler e] *)
Definition try_except {A} (m : M A) (handler : exn -> M A) : M A :=
  fun w =>
    match m w with
    | (Return a, w') => (Return a, w')
    | (Raise e, w') => handler e w'
    end.

Notation "x <- m ;; k" := (bind m (fun x => k))
  (at level 100, m at next level, right associativity).
Notation "m ;; k" := (bind m (fun _ => k))
  (at level 100, right associativity).

(** [for x in l: body x] *)
Fixpoint for_each {A} (l : list A) (body : A -> M unit) : M unit :=
  match l with
  | [] => ret tt
  | x :: l' => body x ;; for_each l' body
  end.

(** Calls through the monitor's proxy. *)
Module Monitor.
Definition is_done (transfer_id : nat) : M bool := fun w =>
  let '(b, m) := TransferMonitor.is_done (monitor w) transfer_id in
  (Return b, with_monitor m w).

Definition notify_done (transfer_id : nat) : M unit := fun w =>
  (Return tt,
   record_call (Call_notify_done transfer_id)
     (with_monitor (TransferMonitor.notify_done (monitor w) transfer_id) w)).

Definition notify_exception (transfer_id : nat) (exception : exn) : M unit :=
  fun w =>
    (Return tt,
     record_call (Call_notify_exception transfer_id exception)
       (with_monitor
          (TransferMonitor.notify_exception (monitor w) transfer_id exception)
          w)).

Definition get_exception (transfer_id : nat) : M (option exn) := fun w =>
  let '(e, m) := TransferMonitor.get_exception (monitor w) transfer_id in
  (Return e, with_monitor m w).

Definition notify_expected_jobs_to_complete (transfer_id : nat) (num_jobs : Z)
  : M unit := fun w =>
  (Return tt,
   record_call (Call_notify_expected_jobs_to_complete transfer_id num_jobs)
     (with_monitor
        (TransferMonitor.notify_expected_jobs_to_complete
           (monitor w) transfer_id num_jobs) w)).

Definition notify_job_complete (transfer_id : nat) : M Z := fun w =>
  let '(remaining, m) :=
    TransferMonitor.notify_job_complete (monitor w) transfer_id in
  (Return remaining,
   record_call (Call_notify_job_complete transfer_id remaining)
     (with_monitor m w)).
End Monitor.

(** [multiprocessing.Queue.put]: the item goes to the back.  A full queue
    makes the producer wait; that delays the call and neither drops nor
    reorders it, so the bound of 1000 is not kept here. *)
Definition worker_queue_put (item : queue_item GetObjectJob) : M unit :=
  fun w =>
    (Return tt,
     record_call (Call_worker_queue_put item)
       (with_worker_queue (worker_queue w ++ [item]) w)).

Definition download_request_queue_put (item : queue_item DownloadFileRequest.t)
  : M unit :=
  fun w =>
    (Return tt,
     record_call (Call_download_request_queue_put item)
       (with_download_request_queue (download_request_queue w ++ [item]) w)).

Definition download_request_queue_get
  : M (option (queue_item DownloadFileRequest.t)) :=
  fun w =>
    match download_request_queue w with
    | [] => (Return None, w)
    | item :: q => (Return (Some item), with_download_request_queue q w)
    end.

(** [get] on the worker queue; [None] stands for a consumer that finds the
    queue empty and waits. *)
Definition worker_queue_get : M (option (queue_item GetObjectJob)) :=
  fun w =>
    match worker_queue w with
    | [] => (Return None, w)
    | item :: q => (Return (Some item), with_worker_queue q w)
    end.

(** [client.head_object(Bucket=.., Key=.., **extra_args)['ContentLength']] *)
Definition client_head_object (client : S3Client)
    (bucket key : string) (extra_args : PyDict.t) : M Z :=
  fun w =>
    (head_object client bucket key extra_args,
     record_call (Call_head_object bucket key extra_args) w).

(** [client.get_object(Bucket=.., Key=.., **extra_args)['Body']] *)
Definition client_get_object (client : S3Client)
    (bucket key : string) (extra_args : PyDict.t) : M StreamingBody :=
  fun w =>
    (get_object client (get_object_count w) bucket key extra_args,
     record_call (Call_get_object bucket key extra_args)
       (with_get_object_count (S (get_object_count w)) w)).

(** ** s3transfer.utils *)

Module utils.
(** Modelled from the spec: [s3transfer.utils.calculate_num_parts] is not
    in this file; the spec has [num_parts = ceil(size / chunksize)].  A
    zero divisor raises, as every Python division does. *)
Definition calculate_num_parts (size part_size : Z) : result exn Z :=
  if part_size =? 0 then Raise ZeroDivisionError
  else Return (- ((- size) / part_size)).

(** Modelled from the spec: [s3transfer.utils.calculate_range_parameter] is
    not in this file.  The spec asks for an inclusive byte range that
    starts at [index * chunksize] and, for the last part, does not reach
    beyond the object.  The caller hands over the part size, the index and
    the number of parts, and not the size: the last part's range is left
    open, ['bytes=START-'], and the others are
    ['bytes=START-END'] with [END = START + part_size - 1]. *)
Definition calculate_range_parameter (part_size part_index num_parts : Z)
  : string :=
  let start_range := part_index * part_size in
  let end_range :=
    if part_index =? num_parts - 1 then ""
    else pretty (start_range + part_size - 1) in
  "bytes=" +:+ pretty start_range +:+ "-" +:+ end_range.

(** Modelled from the spec: [s3transfer.utils.OSUtils] is not in this
    file.  The spec lists its operations: a temp-file path derived from
    the destination path, pre-allocation of a file to an exact byte
    length, atomic rename, and file deletion.  Failures that the files
    alone do not determine (permissions, a full disk) are given by the
    [_fault] fields; deleting a file that is not there does nothing. *)
Module OSUtils.
Record t : Type := {
  get_temp_filename : string -> string;
  allocate_fault : string -> Z -> option exn;
  rename_fault : string -> string -> option exn;
}.

Definition allocate (self : t) (filename : string) (size : Z) : M unit :=
  fun w =>
    let w := record_call (Call_allocate filename size) w in
    match allocate_fault self filename size with
    | Some e => (Raise e, w)
    | None =>
        if size <? 0 then (Raise (OSError "Invalid argument"), w)
        else (Return tt,
              with_files
                (<[filename := replicate (Z.to_nat size) x00]> (files w))
                w)
    end.

Definition remove_file (self : t) (filename : string) : M unit :=
  fun w =>
    (Return tt,
     with_files (delete filename (files w))
       (record_call (Call_remove_file filename) w)).

Definition rename_file (self : t) (current_filename new_filename : string)
  : M unit :=
  fun w =>
    let w := record_call (Call_rename_file current_filename new_filename) w in
    match rename_fault self current_filename new_filename with
    | Some e => (Raise e, w)
    | None =>
        match files w !! current_filename with
        | None => (Raise (FileNotFoundError current_filename), w)
        | Some content =>
            (Return tt,
             with_files
               (<[new_filename := content]>
                  (delete current_filename (files w))) w)
        end
    end.
End OSUtils.
End utils.

(** How the sequential reading of a [while True] loop over a queue stops:
    the shutdown signal was read, the queue is empty and the process waits in
    [get], or the iterations granted were used up. *)
Inductive loop_end : Type :=
| Returned
| Waiting_in_get
| More_iterations.

(** ** GetObjectSubmitter *)

Module GetObjectSubmitter.
Record t : Type := {
  _transfer_config : ProcessTransferConfig;
  _client : S3Client;
  _osutil : utils.OSUtils.t;
}.

Section Imports.
(** [from s3transfer.utils import calculate_range_parameter] *)
Variable calculate_range_parameter : Z -> Z -> Z -> string.

Definition _submit_get_object_job (self : t) (job : GetObjectJob) : M unit :=
  worker_queue_put (Item job).

Definition _get_size (self : t) (download_file_request : DownloadFileRequest.t)
  : M Z :=
  match DownloadFileRequest.expected_size download_file_request with
  | Some expected_size => ret expected_size
  | None =>
      client_head_object (_client self)
        (DownloadFileRequest.bucket download_file_request)
        (DownloadFileRequest.key download_file_request)
        (DownloadFileRequest.extra_args download_file_request)
  end.

Definition _allocate_temp_file (self : t)
    (download_file_request : DownloadFileRequest.t) (size : Z) : M string :=
  let temp_filename :=
    utils.OSUtils.get_temp_filename (_osutil self)
      (DownloadFileRequest.filename download_file_request) in
  utils.OSUtils.allocate (_osutil self) temp_filename size ;;
  ret temp_filename.

Definition _submit_single_get_object_job (self : t)
    (download_file_request : DownloadFileRequest.t) (temp_filename : string)
  : M unit :=
  Monitor.notify_expected_jobs_to_complete
    (DownloadFileRequest.transfer_id download_file_request) 1 ;;
  _submit_get_object_job self
    {| transfer_id := DownloadFileRequest.transfer_id download_file_request;
       bucket := DownloadFileRequest.bucket download_file_request;
       key := DownloadFileRequest.key download_file_request;
       temp_filename := temp_filename;
       offset := 0;
       extra_args := DownloadFileRequest.extra_args download_file_request;
       filename := DownloadFileRequest.filename download_file_request |}.

(** The job built by one turn of the loop over [range(num_parts)]. *)
Definition ranged_job (download_file_request : DownloadFileRequest.t)
    (temp_filename : string) (part_size num_parts i : Z) : GetObjectJob :=
  let offset := i * part_size in
  let range_parameter := calculate_range_parameter part_size i num_parts in
  let get_object_kwargs := [("Range", range_parameter)] in
  let get_object_kwargs :=
    PyDict.update get_object_kwargs
      (DownloadFileRequest.extra_args download_file_request) in
  {| transfer_id := DownloadFileRequest.transfer_id download_file_request;
     bucket := DownloadFileRequest.bucket download_file_request;
     key := DownloadFileRequest.key download_file_request;
     temp_filename := temp_filename;
     offset := offset;
     extra_args := get_object_kwargs;
     filename := DownloadFileRequest.filename download_file_request |}.

Definition _submit_ranged_get_object_jobs (self : t)
    (download_file_request : DownloadFileRequest.t) (temp_filename : string)
    (size : Z) : M unit :=
  let part_size := multipart_chunksize (_transfer_config self) in
  match utils.calculate_num_parts size part_size with
  | Raise e => raise e
  | Return num_parts =>
      Monitor.notify_expected_jobs_to_complete
        (DownloadFileRequest.transfer_id download_file_request) num_parts ;;
      for_each (seqZ 0 num_parts)
        (fun i =>
           _submit_get_object_job self
             (ranged_job download_file_request temp_filename
                part_size num_parts i))
  end.

Definition _submit_get_object_jobs (self : t)
    (download_file_request : DownloadFileRequest.t) : M unit :=
  size <- _get_size self download_file_request ;;
  temp_filename <- _allocate_temp_file self download_file_request size ;;
  if size <? multipart_threshold (_transfer_config self)
  then _submit_single_get_object_job self download_file_request
         temp_filename
  else _submit_ranged_get_object_jobs self download_file_request
         temp_filename size.

(** The [try] statement in the body of the loop of [run]. *)
Definition run_request (self : t)
    (download_file_request : DownloadFileRequest.t) : M unit :=
  try_except
    (_submit_get_object_jobs self download_file_request)
    (fun e =>
       Monitor.notify_exception
         (DownloadFileRequest.transfer_id download_file_request) e ;;
       Monitor.notify_done
         (DownloadFileRequest.transfer_id download_file_request)).

(** [run], for at most [iterations] turns of its loop. *)
Fixpoint run (iterations : nat) (self : t) : M loop_end :=
  match iterations with
  | O => ret More_iterations
  | S iterations' =>
      download_file_request <- download_request_queue_get ;;
      match download_file_request with
      | None => ret Waiting_in_get
      | Some SHUTDOWN_SIGNAL => ret Returned
      | Some (Item download_file_request) =>
          run_request self download_file_request ;;
          run iterations' self
      end
  end.
End Imports.
End GetObjectSubmitter.

(** ** GetObjectWorker *)

(** A file object opened with ['rb+']: [f.write(chunk)] at position [pos]
    replaces the bytes it covers and keeps the others; past the end of the
    file the gap is filled with zero bytes. *)
Definition file_write (content : list byte) (pos : nat) (chunk : list byte)
  : list byte :=
  match chunk with
  | [] => content
  | _ =>
      take pos content ++ replicate (pos - length content) x00 ++ chunk
        ++ drop (pos + length chunk) content
  end.

Module GetObjectWorker.
Definition _MAX_ATTEMPTS : nat := 5.
Definition _IO_CHUNKSIZE : Z := 2 * MB.

Record t : Type := {
  _client : S3Client;
  _osutil : utils.OSUtils.t;
}.

(** [for chunk in iter(lambda: body.read(self._IO_CHUNKSIZE), b''):
       f.write(chunk)]
    over what the reads return: an empty read is the sentinel, and when the
    stream is used up the next read is empty or raises.  The result also
    carries the content of the file as the loop leaves it. *)
Fixpoint write_chunks (reads : list (list byte)) (read_error : option exn)
    (content : list byte) (pos : nat) : result exn unit * list byte :=
  match reads with
  | [] =>
      match read_error with
      | Some e => (Raise e, content)
      | None => (Return tt, content)
      end
  | [] :: _ => (Return tt, content)
  | chunk :: reads' =>
      write_chunks reads' read_error
        (file_write content pos chunk) (pos + length chunk)%nat
  end.

(** [open(filename, 'rb+')] fails on a missing file and [f.seek] on a
    negative offset; leaving the [with] block, also by an exception, closes
    the file with what was written. *)
Definition _write_to_file (self : t) (filename : string) (offset : Z)
    (body : StreamingBody) : M unit :=
  fun w =>
    match files w !! filename with
    | None => (Raise (FileNotFoundError filename), w)
    | Some content =>
        if offset <? 0 then (Raise (OSError "Invalid argument"), w)
        else
          let '(r, content') :=
            write_chunks (reads body) (read_error body) content
              (Z.to_nat offset) in
          (r, with_files (<[filename := content']> (files w)) w)
    end.

Section Imports.
(** [isinstance(e, S3_RETRYABLE_DOWNLOAD_ERRORS)], a tuple of exception
    classes imported from [s3transfer.utils]. *)
Variable S3_RETRYABLE_DOWNLOAD_ERRORS : exn -> bool.

(** The [try] statement in the loop of [_do_get_object]: [None] when the
    function returns from inside it, the exception caught otherwise; an
    exception of another class passes through. *)
Definition attempt (self : t) (bucket key : string) (extra_args : PyDict.t)
    (temp_filename : string) (offset : Z) : M (option exn) :=
  fun w =>
    match (body <- client_get_object (_client self) bucket key extra_args ;;
           _write_to_file self temp_filename offset body) w with
    | (Return _, w') => (Return None, w')
    | (Raise e, w') =>
        if S3_RETRYABLE_DOWNLOAD_ERRORS e then (Return (Some e), w')
        else (Raise e, w')
    end.

(** The loop of [_do_get_object] with [attempts] turns left, and the
    [raise] that follows it. *)
Fixpoint attempts_loop (attempts : nat) (last_exception : option exn)
    (self : t) (bucket key : string) (extra_args : PyDict.t)
    (temp_filename : string) (offset : Z) : M unit :=
  match attempts with
  | O => raise (RetriesExceededError last_exception)
  | S attempts' =>
      caught <- attempt self bucket key extra_args temp_filename offset ;;
      match caught with
      | None => ret tt
      | Some e =>
          attempts_loop attempts' (Some e) self bucket key extra_args
            temp_filename offset
      end
  end.

Definition _do_get_object (self : t) (bucket key : string)
    (extra_args : PyDict.t) (temp_filename : string) (offset : Z) : M unit :=
  attempts_loop _MAX_ATTEMPTS None self bucket key extra_args
    temp_filename offset.

Definition _run_get_object_job (self : t) (job : GetObjectJob) : M unit :=
  try_except
    (_do_get_object self (bucket job) (key job) (extra_args job)
       (temp_filename job) (offset job))
    (fun e => Monitor.notify_exception (transfer_id job) e).

Definition _do_file_rename (self : t) (transfer_id : nat)
    (temp_filename filename : string) : M unit :=
  try_except
    (utils.OSUtils.rename_file (_osutil self) temp_filename filename)
    (fun e =>
       Monitor.notify_exception transfer_id e ;;
       utils.OSUtils.remove_file (_osutil self) temp_filename).

Definition _finalize_download (self : t) (transfer_id : nat)
    (temp_filename filename : string) : M unit :=
  exception <- Monitor.get_exception transfer_id ;;
  (match exception with
   | Some _ => utils.OSUtils.remove_file (_osutil self) temp_filename
   | None => _do_file_rename self transfer_id temp_filename filename
   end) ;;
  Monitor.notify_done transfer_id.

(** The body of the loop of [run] once a job was read. *)
Definition run_job (self : t) (job : GetObjectJob) : M unit :=
  exception <- Monitor.get_exception (transfer_id job) ;;
  (match exception with
   | None => _run_get_object_job self job
   | Some _ => ret tt
   end) ;;
  remaining <- Monitor.notify_job_complete (transfer_id job) ;;
  if remaining =? 0
  then _finalize_download self (transfer_id job) (temp_filename job)
         (filename job)
  else ret tt.

(** [run], for at most [iterations] turns of its loop. *)
Fixpoint run (iterations : nat) (self : t) : M loop_end :=
  match iterations with
  | O => ret More_iterations
  | S iterations' =>
      job <- worker_queue_get ;;
      match job with
      | None => ret Waiting_in_get
      | Some SHUTDOWN_SIGNAL => ret Returned
      | Some (Item job) => run_job self job ;; run iterations' self
      end
  end.
End Imports.
End GetObjectWorker.

(** ** ProcessPoolTransferMeta, ProcessPoolTransferFuture *)

(** Modelled from the spec: [s3transfer.utils.CallArgs] is not in this file;
    the spec has the future's meta keep the original request parameters. *)
Module CallArgs.
Record t : Type := {
  bucket : string;
  key : string;
  filename : string;
  extra_args : PyDict.t;
  expected_size : option Z;
}.
End CallArgs.

Module ProcessPoolTransferMeta.
Record t : Type := {
  _transfer_id : nat;
  _call_args : CallArgs.t;
  _user_context : PyDict.t;
}.

Definition __init__ (transfer_id : nat) (call_args : CallArgs.t) : t :=
  {| _transfer_id := transfer_id; _call_args := call_args;
     _user_context := [] |}.

Definition transfer_id (self : t) : nat := _transfer_id self.
End ProcessPoolTransferMeta.

Module ProcessPoolTransferFuture.
(** [_monitor] is the proxy of the one monitor, which lives in the
    [World]. *)
Record t : Type := {
  _meta : ProcessPoolTransferMeta.t;
}.

Definition meta (self : t) : ProcessPoolTransferMeta.t := _meta self.

Definition done (self : t) : M bool :=
  Monitor.is_done (ProcessPoolTransferMeta.transfer_id (_meta self)).

Definition cancel (self : t) : M unit :=
  Monitor.notify_exception
    (ProcessPoolTransferMeta.transfer_id (_meta self)) CancelledError.

(** [interrupted]: a [KeyboardInterrupt] reaches the caller while it is
    blocked in the wait. *)
Definition result (self : t) (interrupted : bool) (w : World)
  : outcome unit * World :=
  let '(o, m) :=
    TransferMonitor.poll_for_result (monitor w)
      (ProcessPoolTransferMeta.transfer_id (_meta self)) interrupted in
  let w := with_monitor m w in
  match o with
  | Raises KeyboardInterrupt =>
      let '(_, w) := cancel self w in
      (Raises KeyboardInterrupt, w)
  | _ => (o, w)
  end.
End ProcessPoolTransferFuture.

(** ** ProcessPoolDownloader *)

Module ProcessPoolDownloader.
(** The processes started by [_start] are not objects of this model; of
    [_start] the flag remains. *)
Record t : Type := {
  _transfer_config : ProcessTransferConfig;
  _id_counter : nat;
  _started : bool;
}.

Definition __init__ (config : option ProcessTransferConfig) : t :=
  {| _transfer_config :=
       match config with Some c => c | None => default_config end;
     _id_counter := 0;
     _started := false |}.

Definition _start (self : t) : t :=
  {| _transfer_config := _transfer_config self;
     _id_counter := _id_counter self;
     _started := true |}.

Definition _start_if_needed (self : t) : t :=
  if negb (_started self) then _start self else self.

Definition _get_transfer_future (self : t) (call_args : CallArgs.t)
  : ProcessPoolTransferFuture.t * t :=
  let transfer_id := _id_counter self in
  let meta := ProcessPoolTransferMeta.__init__ transfer_id call_args in
  let future := {| ProcessPoolTransferFuture._meta := meta |} in
  (future,
   {| _transfer_config := _transfer_config self;
      _id_counter := _id_counter self + 1;
      _started := _started self |}).

Section Imports.
(** [from s3transfer.constants import ALLOWED_DOWNLOAD_ARGS] *)
Variable ALLOWED_DOWNLOAD_ARGS : list string.

(** [for kwarg in provided: if kwarg not in ALLOWED_DOWNLOAD_ARGS: raise] *)
Fixpoint validate_keys (kwargs : list string) : result exn unit :=
  match kwargs with
  | [] => Return tt
  | kwarg :: kwargs' =>
      if negb (str_in kwarg ALLOWED_DOWNLOAD_ARGS)
      then Raise (ValueError
                    ("Invalid extra_args key '" +:+ kwarg +:+
                     "', must be one of: " +:+
                     join ", " ALLOWED_DOWNLOAD_ARGS))
      else validate_keys kwargs'
  end.

Definition _validate_all_known_args (self : t) (provided : PyDict.t)
  : result exn unit :=
  validate_keys (PyDict.keys provided).

Definition download_file (self : t) (bucket key filename : string)
    (extra_args : option PyDict.t) (expected_size : option Z) (w : World)
  : result exn ProcessPoolTransferFuture.t * t * World :=
  let self := _start_if_needed self in
  let extra_args :=
    match extra_args with None => [] | Some d => d end in
  match _validate_all_known_args self extra_args with
  | Raise e => (Raise e, self, w)
  | Return _ =>
      let '(_, w) :=
        download_request_queue_put
          (Item {| DownloadFileRequest.transfer_id := _id_counter self;
                   DownloadFileRequest.bucket := bucket;
                   DownloadFileRequest.key := key;
                   DownloadFileRequest.filename := filename;
                   DownloadFileRequest.extra_args := extra_args;
                   DownloadFileRequest.expected_size := expected_size |}) w in
      let call_args :=
        {| CallArgs.bucket := bucket; CallArgs.key := key;
           CallArgs.filename := filename; CallArgs.extra_args := extra_args;
           CallArgs.expected_size := expected_size |} in
      let '(future, self) := _get_transfer_future self call_args in
      (Return future, self, w)
  end.
End Imports.
End ProcessPoolDownloader.

(** ** Several workers on one queue

    The processes of the pool run the loop of [GetObjectWorker.run] side by
    side.  The loop is cut into the steps that other processes can tell
    apart through the queue and the monitor: the [get] of a job, the look at
    the recorded failure, the download of the job (whose one call on the
    monitor, if any, is the [notify_exception] at its end), the decrement,
    and the finalize.  A schedule says who moves next: a worker, the
    submitter, which puts the jobs it has registered one at a time, or a
    caller, who may [cancel] a transfer at any moment. *)

Module Pool.
(** Where a worker stands in the loop of [run]. *)
Inductive position : Type :=
| At_get
| At_get_exception (job : GetObjectJob)
| At_run_get_object_job (job : GetObjectJob)
| At_notify_job_complete (job : GetObjectJob)
| At_finalize_download (job : GetObjectJob)
| Exited
| Died (e : exn).

Inductive event : Type :=
| Got (worker : nat) (job : GetObjectJob)
| Got_shutdown (worker : nat)
| Checked (worker : nat) (job : GetObjectJob) (failed : bool)
| Ran (worker : nat) (job : GetObjectJob)
| Decremented (worker : nat) (job : GetObjectJob) (remaining : Z)
| Finalized (worker : nat) (job : GetObjectJob)
| Crashed (worker : nat) (e : exn)
| Put (job : GetObjectJob)
| Cancelled (transfer_id : nat).

Inductive action : Type :=
| Worker_step (worker : nat)
| Submitter_put
| Caller_cancel (transfer_id : nat).

Record state : Type := {
  world : World;
  workers : list position;
  to_put : list GetObjectJob;
  trace : list event;
}.

Section Workers.
Variable S3_RETRYABLE_DOWNLOAD_ERRORS : exn -> bool.
Variable self : GetObjectWorker.t.

(** The worker at [pos] runs up to its next call on the queue or the
    monitor: its new position, the world it leaves and what happened;
    [None] when it waits in [get] or has left the loop. *)
Definition worker_step (worker : nat) (pos : position) (w : World)
  : option (position * World * event) :=
  match pos with
  | At_get =>
      match worker_queue_get w with
      | (Return (Some (Item job)), w') =>
          Some (At_get_exception job, w', Got worker job)
      | (Return (Some SHUTDOWN_SIGNAL), w') =>
          Some (Exited, w', Got_shutdown worker)
      | (Return None, _) => None
      | (Raise e, w') => Some (Died e, w', Crashed worker e)
      end
  | At_get_exception job =>
      match Monitor.get_exception (transfer_id job) w with
      | (Return None, w') =>
          Some (At_run_get_object_job job, w', Checked worker job false)
      | (Return (Some _), w') =>
          Some (At_notify_job_complete job, w', Checked worker job true)
      | (Raise e, w') => Some (Died e, w', Crashed worker e)
      end
  | At_run_get_object_job job =>
      match GetObjectWorker._run_get_object_job
              S3_RETRYABLE_DOWNLOAD_ERRORS self job w with
      | (Return _, w') =>
          Some (At_notify_job_complete job, w', Ran worker job)
      | (Raise e, w') => Some (Died e, w', Crashed worker e)
      end
  | At_notify_job_complete job =>
      match Monitor.notify_job_complete (transfer_id job) w with
      | (Return remaining, w') =>
          Some (if remaining =? 0 then At_finalize_download job
                else At_get,
                w', Decremented worker job remaining)
      | (Raise e, w') => Some (Died e, w', Crashed worker e)
      end
  | At_finalize_download job =>
      match GetObjectWorker._finalize_download self (transfer_id job)
              (temp_filename job) (filename job) w with
      | (Return _, w') => Some (At_get, w', Finalized worker job)
      | (Raise e, w') => Some (Died e, w', Crashed worker e)
      end
  | Exited | Died _ => None
  end.

Definition step (a : action) (s : state) : option state :=
  match a with
  | Worker_step i =>
      match workers s !! i with
      | None => None
      | Some pos =>
          match worker_step i pos (world s) with
          | None => None
          | Some (pos', w', ev) =>
              Some {| world := w'; workers := <[i := pos']> (workers s);
                      to_put := to_put s; trace := trace s ++ [ev] |}
          end
      end
  | Submitter_put =>
      match to_put s with
      | [] => None
      | job :: rest =>
          Some {| world := snd (worker_queue_put (Item job) (world s));
                  workers := workers s;
                  to_put := rest; trace := trace s ++ [Put job] |}
      end
  | Caller_cancel transfer_id =>
      Some {| world :=
                snd (Monitor.notify_exception transfer_id CancelledError
                       (world s));
              workers := workers s;
              to_put := to_put s;
              trace := trace s ++ [Cancelled transfer_id] |}
  end.

(** A schedule, run from [s]; [None] when it asks for a step that cannot
    be taken. *)
Fixpoint run (schedule : list action) (s : state) : option state :=
  match schedule with
  | [] => Some s
  | a :: schedule' =>
      match step a s with
      | None => None
      | Some s' => run schedule' s'
      end
  end.
End Workers.

(** *** What is counted, per transfer *)

Definition count {A} (f : A -> nat) (l : list A) : nat :=
  foldr (fun x n => (f x + n)%nat) 0%nat l.

Definition of_transfer (t : nat) (job : GetObjectJob) : nat :=
  if decide (transfer_id job = t) then 1%nat else 0%nat.

Definition item_of_transfer (t : nat) (item : queue_item GetObjectJob) : nat :=
  match item with
  | Item job => of_transfer t job
  | SHUTDOWN_SIGNAL => 0%nat
  end.

(** A worker that holds a job of [t] and has not yet called
    [notify_job_complete] for it. *)
Definition before_decrement (t : nat) (pos : position) : nat :=
  match pos with
  | At_get_exception job | At_run_get_object_job job
  | At_notify_job_complete job => of_transfer t job
  | _ => 0%nat
  end.

Definition about_to_finalize (t : nat) (pos : position) : nat :=
  match pos with
  | At_finalize_download job => of_transfer t job
  | _ => 0%nat
  end.

Definition is_got (t : nat) (ev : event) : nat :=
  match ev with Got _ job => of_transfer t job | _ => 0%nat end.

Definition is_decrement (t : nat) (ev : event) : nat :=
  match ev with Decremented _ job _ => of_transfer t job | _ => 0%nat end.

Definition is_decrement_to_zero (t : nat) (ev : event) : nat :=
  match ev with
  | Decremented _ job remaining =>
      if remaining =? 0 then of_transfer t job else 0%nat
  | _ => 0%nat
  end.

Definition is_finalize (t : nat) (ev : event) : nat :=
  match ev with Finalized _ job => of_transfer t job | _ => 0%nat end.

Definition is_died (pos : position) : bool :=
  match pos with Died _ => true | _ => false end.

Definition holds_job (pos : position) : bool :=
  match pos with
  | At_get_exception _ | At_run_get_object_job _
  | At_notify_job_complete _ | At_finalize_download _ => true
  | _ => false
  end.

(** The jobs of [t] that are still to be counted down: registered and not
    yet put, waiting in the queue, or held by a worker that has not yet
    decremented. *)
Definition outstanding (t : nat) (s : state) : nat :=
  (count (of_transfer t) (to_put s)
   + count (item_of_transfer t) (worker_queue (world s))
   + count (before_decrement t) (workers s))%nat.

Definition jobs_remaining (t : nat) (s : state) : Z :=
  TransferState.jobs_to_complete (monitor (world s) !!! t).

(** The state the submitter leaves behind when the workers start on its
    jobs: every transfer's count is registered as the number of its jobs,
    put or still to put, and no worker holds a job. *)
Definition initial (s : state) : Prop :=
  Forall (fun pos => pos = At_get) (workers s)
  /\ trace s = []
  /\ forall t, jobs_remaining t s = Z.of_nat (outstanding t s).
End Pool.

(** ** Vocabulary of the statements *)

Definition is_worker_queue_put (c : call) : bool :=
  match c with Call_worker_queue_put _ => true | _ => false end.

(** Calls on the client and on the file system: neither queue nor monitor. *)
Definition is_io_call (c : call) : bool :=
  match c with
  | Call_head_object _ _ _ | Call_get_object _ _ _ | Call_allocate _ _
  | Call_remove_file _ | Call_rename_file _ _ => true
  | _ => false
  end.

(** [w'] comes from [w] by calls on the client and the file system only. *)
Definition io_only (w w' : World) : Prop :=
  monitor w' = monitor w
  /\ worker_queue w' = worker_queue w
  /\ download_request_queue w' = download_request_queue w
  /\ exists d,
       calls w' = calls w ++ d /\ Forall (fun c => is_io_call c = true) d.

(** The job of the single branch and the jobs of the ranged branch, in the
    order they are put. *)
Definition single_job (request : DownloadFileRequest.t) (temp_filename : string)
  : GetObjectJob :=
  {| transfer_id := DownloadFileRequest.transfer_id request;
     bucket := DownloadFileRequest.bucket request;
     key := DownloadFileRequest.key request;
     temp_filename := temp_filename;
     offset := 0;
     extra_args := DownloadFileRequest.extra_args request;
     filename := DownloadFileRequest.filename request |}.

Definition ranged_jobs (calculate_range_parameter : Z -> Z -> Z -> string)
    (request : DownloadFileRequest.t) (temp_filename : string)
    (part_size num_parts : Z) : list GetObjectJob :=
  GetObjectSubmitter.ranged_job calculate_range_parameter request
    temp_filename part_size num_parts <$> seqZ 0 num_parts.

(** The world after a count was registered for [t] and the jobs were put. *)
Definition submitted (t : nat) (num_jobs : Z) (jobs : list GetObjectJob)
    (w : World) : World :=
  {| monitor :=
       TransferMonitor.notify_expected_jobs_to_complete (monitor w) t num_jobs;
     files := files w;
     download_request_queue := download_request_queue w;
     worker_queue := worker_queue w ++ (Item <$> jobs);
     get_object_count := get_object_count w;
     calls :=
       calls w ++
       Call_notify_expected_jobs_to_complete t num_jobs
         :: ((fun job => Call_worker_queue_put (Item job)) <$> jobs) |}.

(** The ['Range'] that the last job put for [request] carries. *)
Definition last_range (calculate_range_parameter : Z -> Z -> Z -> string)
    (self : GetObjectSubmitter.t) (request : DownloadFileRequest.t) (w : World)
  : option string :=
  match last (worker_queue
                (GetObjectSubmitter._submit_get_object_jobs
                   calculate_range_parameter self request w).2) with
  | Some (Item job) => PyDict.get (extra_args job) "Range"
  | _ => None
  end.

(** ['bytes=%s-%s' % (start, end)], the inclusive range from [start] to
    [end]. *)
Definition bytes_range (start_range end_range : Z) : string :=
  "bytes=" +:+ pretty start_range +:+ "-" +:+ pretty end_range.

(** Modelled from the spec: the object store client is an external
    collaborator, and the spec speaks of an inclusive byte-range expression
    and of its effective end.  A range names its first byte and, unless it
    is left open, its last; ['bytes=FIRST-LAST'] and ['bytes=FIRST-'] are
    the expressions.  The store answers with the bytes of the object that
    the range covers: the effective end of an open range is the last byte of
    the object, and that of a closed range is its own last byte, or the
    object's when that comes first. *)
Record ByteRange : Type := {
  first_byte : Z;
  last_byte : option Z;
}.

Definition range_expression (r : ByteRange) : string :=
  "bytes=" +:+ pretty (first_byte r) +:+ "-" +:+
  match last_byte r with
  | Some last => pretty last
  | None => ""
  end.

Definition effective_end (size : Z) (r : ByteRange) : Z :=
  match last_byte r with
  | Some last => Z.min last (size - 1)
  | None => size - 1
  end.

(** The range that [calculate_range_parameter part_size part_index
    num_parts] expresses. *)
Definition part_range (part_size part_index num_parts : Z) : ByteRange :=
  let start_range := part_index * part_size in
  {| first_byte := start_range;
     last_byte :=
       if part_index =? num_parts - 1 then None
       else Some (start_range + part_size - 1) |}.

(** The bytes that the loop of [_write_to_file] gets from the reads of a
    body: all of them up to the first empty one. *)
Fixpoint read_until_empty (reads : list (list byte)) : list byte :=
  match reads with
  | [] => []
  | [] :: _ => []
  | chunk :: reads' => chunk ++ read_until_empty reads'
  end.

(** The first [n] attempts of [_do_get_object] from [w], when each of them
    ends in an exception that the [except] clause catches: the exception
    caught last and the world they leave; [None] when one of them ends
    otherwise. *)
Fixpoint caught_attempts (S3_RETRYABLE_DOWNLOAD_ERRORS : exn -> bool)
    (self : GetObjectWorker.t) (job : GetObjectJob)
    (n : nat) (last_exception : option exn) (w : World)
  : option (option exn * World) :=
  match n with
  | O => Some (last_exception, w)
  | S n' =>
      match GetObjectWorker.attempt S3_RETRYABLE_DOWNLOAD_ERRORS self
              (bucket job) (key job) (extra_args job) (temp_filename job)
              (offset job) w with
      | (Return (Some e), w') =>
          caught_attempts S3_RETRYABLE_DOWNLOAD_ERRORS self job n' (Some e) w'
      | _ => None
      end
  end.

(** [w'] has the queue of [w] and, for every transfer, its count. *)
Definition keeps_counts (w w' : World) : Prop :=
  worker_queue w' = worker_queue w
  /\ forall t : nat,
       TransferState.jobs_to_complete (monitor w' !!! t)
       = TransferState.jobs_to_complete (monitor w !!! t).

(** What holds of the pool at every moment, for the number [n t] of jobs
    each transfer [t] started with: the monitor's count is the number of jobs
    still to be counted down; every job is still to be put, in the queue, or
    was got by a worker; every job got was decremented once, or is with a
    worker on its way there; every decrement that returned zero was followed
    by finalize, or its worker is about to; and a decrement returned zero
    exactly if the transfer had jobs and none is left. *)
Definition pool_invariant (n : nat -> nat) (s : Pool.state) : Prop :=
  Forall (fun pos => Pool.is_died pos = false) (Pool.workers s)
  /\ forall t : nat,
       Pool.jobs_remaining t s = Z.of_nat (Pool.outstanding t s)
       /\ (Pool.count (Pool.is_got t) (Pool.trace s)
           + Pool.count (Pool.of_transfer t) (Pool.to_put s)
           + Pool.count (Pool.item_of_transfer t)
               (worker_queue (Pool.world s))
           = n t)%nat
       /\ (Pool.count (Pool.is_decrement t) (Pool.trace s)
           + Pool.count (Pool.before_decrement t) (Pool.workers s)
           = Pool.count (Pool.is_got t) (Pool.trace s))%nat
       /\ (Pool.count (Pool.is_finalize t) (Pool.trace s)
           + Pool.count (Pool.about_to_finalize t) (Pool.workers s)
           = Pool.count (Pool.is_decrement_to_zero t) (Pool.trace s))%nat
       /\ Pool.count (Pool.is_decrement_to_zero t) (Pool.trace s)
          = (if decide ((1 <= n t)%nat /\ Pool.outstanding t s = 0%nat)
             then 1%nat else 0%nat).

(** The count the monitor holds for transfer [t]. *)
Definition count_of (t : nat) (w : World) : Z :=
  TransferState.jobs_to_complete (monitor w !!! t).

(** Unfolds the statements of the monad and the calls on the collaborators. *)
Ltac open_world :=
  unfold GetObjectSubmitter._submit_get_object_job, worker_queue_put,
    download_request_queue_put, download_request_queue_get, worker_queue_get,
    Monitor.notify_expected_jobs_to_complete, Monitor.notify_done,
    Monitor.notify_exception, Monitor.get_exception,
    Monitor.notify_job_complete, Monitor.is_done,
    client_head_object, client_get_object,
    utils.OSUtils.allocate, utils.OSUtils.remove_file,
    utils.OSUtils.rename_file,
    try_except, bind, ret, raise,
    record_call, with_monitor, with_worker_queue, with_files,
    with_download_request_queue, with_get_object_count in *;
  simpl in *.

(** ** Fixtures *)

Module Fixture.
Definition client : S3Client :=
  {| head_object := fun _ _ _ => Return 20;
     get_object := fun _ _ _ _ =>
       Return {| reads := [[x01; x02]; [x03]]; read_error := None |} |}.

Definition osutil : utils.OSUtils.t :=
  {| utils.OSUtils.get_temp_filename := fun f => f +:+ ".tmp";
     utils.OSUtils.allocate_fault := fun _ _ => None;
     utils.OSUtils.rename_fault := fun _ _ => None |}.

Definition config : ProcessTransferConfig :=
  {| multipart_threshold := 8; multipart_chunksize := 8;
     max_request_processes := 2 |}.

Definition submitter : GetObjectSubmitter.t :=
  {| GetObjectSubmitter._transfer_config := config;
     GetObjectSubmitter._client := client;
     GetObjectSubmitter._osutil := osutil |}.

Definition worker : GetObjectWorker.t :=
  {| GetObjectWorker._client := client;
     GetObjectWorker._osutil := osutil |}.

Definition request (expected_size : option Z) : DownloadFileRequest.t :=
  {| DownloadFileRequest.transfer_id := 0;
     DownloadFileRequest.bucket := "bucket";
     DownloadFileRequest.key := "key";
     DownloadFileRequest.filename := "file";
     DownloadFileRequest.extra_args := [("VersionId", "1")];
     DownloadFileRequest.expected_size := expected_size |}.

Definition job : GetObjectJob :=
  {| transfer_id := 0; bucket := "bucket"; key := "key";
     temp_filename := "file.tmp"; extra_args := [("VersionId", "1")];
     offset := 0; filename := "file" |}.

(** A world in which the temp file of [job] is allocated. *)
Definition allocated : World :=
  with_files {[ "file.tmp" := [x00; x00; x00; x00] ]} empty_world.

Definition retryable (e : exn) : bool :=
  match e with
  | ClientException "ReadTimeoutError" _ => true
  | _ => false
  end.

Definition timeout : exn := ClientException "ReadTimeoutError" "timed out".
Definition denied : exn := ClientException "ClientError" "AccessDenied".

(** A client whose first [failures] calls of [get_object] time out, and a
    client whose call number [failures] is refused. *)
Definition flaky_client (failures : nat) : S3Client :=
  {| head_object := fun _ _ _ => Raise denied;
     get_object := fun n _ _ _ =>
       if (n <? failures)%nat then Raise timeout
       else Return {| reads := [[x01; x02]; [x03]]; read_error := None |} |}.

Definition refusing_client (failures : nat) : S3Client :=
  {| head_object := fun _ _ _ => Raise denied;
     get_object := fun n _ _ _ =>
       if (n <? failures)%nat then Raise timeout else Raise denied |}.

Definition worker_with (client : S3Client) : GetObjectWorker.t :=
  {| GetObjectWorker._client := client;
     GetObjectWorker._osutil := osutil |}.

Definition submitter_with (client : S3Client) : GetObjectSubmitter.t :=
  {| GetObjectSubmitter._transfer_config := config;
     GetObjectSubmitter._client := client;
     GetObjectSubmitter._osutil := osutil |}.

(** Two idle workers, and the three jobs of a 20-byte object registered
    with the monitor and still to be put. *)
Definition jobs : list GetObjectJob :=
  ranged_jobs utils.calculate_range_parameter (request (Some 20))
    "file.tmp" 8 3.

Definition pool : Pool.state :=
  {| Pool.world :=
       (Monitor.notify_expected_jobs_to_complete 0 3
          (with_files {[ "file.tmp" := replicate 20 x00 ]} empty_world)).2;
     Pool.workers := [Pool.At_get; Pool.At_get];
     Pool.to_put := jobs;
     Pool.trace := [] |}.

(** The workers race: both hold a job when the last one is put, the
    caller cancels meanwhile, and worker 1 makes the last decrement. *)
Definition schedule : list Pool.action :=
  [Pool.Submitter_put; Pool.Worker_step 0; Pool.Submitter_put;
   Pool.Worker_step 1; Pool.Worker_step 0; Pool.Worker_step 1;
   Pool.Worker_step 1; Pool.Worker_step 0; Pool.Submitter_put;
   Pool.Worker_step 1; Pool.Worker_step 1; Pool.Worker_step 0;
   Pool.Caller_cancel 0; Pool.Worker_step 1; Pool.Worker_step 1;
   Pool.Worker_step 1].

(** A file system utility whose rename is refused. *)
Definition failing_rename : utils.OSUtils.t :=
  {| utils.OSUtils.get_temp_filename := fun f => f +:+ ".tmp";
     utils.OSUtils.allocate_fault := fun _ _ => None;
     utils.OSUtils.rename_fault :=
       fun _ _ => Some (OSError "Permission denied") |}.
End Fixture.

(** ** Vocabulary of the further statements *)

Definition is_head_object (c : call) : bool :=
  match c with Call_head_object _ _ _ => true | _ => false end.

(** The calls by which the submitter answers for a request of transfer [t]:
    it registers the count of its jobs, or it marks the transfer done. *)
Definition is_handled (t : nat) (c : call) : bool :=
  match c with
  | Call_notify_expected_jobs_to_complete t' _ | Call_notify_done t' =>
      Nat.eqb t' t
  | _ => false
  end.

(** What [k] calls of [notify_job_complete] in a row return, and the table
    they leave. *)
Fixpoint notify_job_complete_times (k : nat)
    (self : gmap nat TransferState.t) (transfer_id : nat)
  : list Z * gmap nat TransferState.t :=
  match k with
  | O => ([], self)
  | S k' =>
      let '(remaining, self) :=
        TransferMonitor.notify_job_complete self transfer_id in
      let '(rest, self) := notify_job_complete_times k' self transfer_id in
      (remaining :: rest, self)
  end.

(** A worker that has left its loop. *)
Definition is_exited (pos : Pool.position) : nat :=
  match pos with Pool.Exited => 1%nat | _ => 0%nat end.

(** [w'] has the done flag of [w] for every transfer. *)
Definition keeps_done (w w' : World) : Prop :=
  forall t : nat,
    TransferState.done (monitor w' !!! t) = TransferState.done (monitor w !!! t).

(** What a job put for [request] has in common with every other: the
    transfer, the object and the two paths. *)
Definition job_of_request (osutil : utils.OSUtils.t)
    (request : DownloadFileRequest.t) (item : queue_item GetObjectJob) : Prop :=
  exists job,
    item = Item job
    /\ transfer_id job = DownloadFileRequest.transfer_id request
    /\ bucket job = DownloadFileRequest.bucket request
    /\ key job = DownloadFileRequest.key request
    /\ filename job = DownloadFileRequest.filename request
    /\ temp_filename job
       = utils.OSUtils.get_temp_filename osutil
           (DownloadFileRequest.filename request).

(** A caller that calls [download_file] once for each of [requests], in
    order: what the calls return, and the downloader and the world they
    leave. *)
Fixpoint download_files (ALLOWED_DOWNLOAD_ARGS : list string)
    (self : ProcessPoolDownloader.t) (requests : list CallArgs.t) (w : World)
  : list (result exn ProcessPoolTransferFuture.t)
    * ProcessPoolDownloader.t * World :=
  match requests with
  | [] => ([], self, w)
  | call_args :: requests' =>
      let '(r, self, w) :=
        ProcessPoolDownloader.download_file ALLOWED_DOWNLOAD_ARGS self
          (CallArgs.bucket call_args) (CallArgs.key call_args)
          (CallArgs.filename call_args) (Some (CallArgs.extra_args call_args))
          (CallArgs.expected_size call_args) w in
      let '(rs, self, w) :=
        download_files ALLOWED_DOWNLOAD_ARGS self requests' w in
      (r :: rs, self, w)
  end.

(** The transfer ids of the futures among the results of a caller, and of the
    requests in a queue. *)
Fixpoint future_ids (results : list (result exn ProcessPoolTransferFuture.t))
  : list nat :=
  match results with
  | [] => []
  | Return future :: results' =>
      ProcessPoolTransferMeta.transfer_id
        (ProcessPoolTransferFuture.meta future) :: future_ids results'
  | Raise _ :: results' => future_ids results'
  end.

Fixpoint request_ids (queue : list (queue_item DownloadFileRequest.t))
  : list nat :=
  match queue with
  | [] => []
  | Item request :: queue' =>
      DownloadFileRequest.transfer_id request :: request_ids queue'
  | SHUTDOWN_SIGNAL :: queue' => request_ids queue'
  end.

(** [w'] differs from [w] at most in the files [paths] and in the state of
    transfer [t]: the queues are the same, and so are every other file and
    the state of every other transfer. *)
Definition touches_only (t : nat) (paths : list string) (w w' : World)
  : Prop :=
  worker_queue w' = worker_queue w
  /\ download_request_queue w' = download_request_queue w
  /\ (forall other : string,
        other ∉ paths -> files w' !! other = files w !! other)
  /\ (forall t' : nat, t' <> t -> monitor w' !!! t' = monitor w !!! t').

(** [w'] comes from [w] by the handling of [requests]: the request queue
    is the same, the worker queue has grown at its back by jobs of these
    requests, and only their temp files and the state of their transfers
    may differ. *)
Definition submits_for (osutil : utils.OSUtils.t)
    (requests : list DownloadFileRequest.t) (w w' : World) : Prop :=
  download_request_queue w' = download_request_queue w
  /\ (exists new,
        worker_queue w' = worker_queue w ++ new
        /\ Forall (fun item =>
                     exists request,
                       request ∈ requests
                       /\ job_of_request osutil request item) new)
  /\ (forall other : string,
        Forall (fun request =>
                  other <> utils.OSUtils.get_temp_filename osutil
                             (DownloadFileRequest.filename request))
          requests ->
        files w' !! other = files w !! other)
  /\ (forall t' : nat,
        Forall (fun request => t' <> DownloadFileRequest.transfer_id request)
          requests ->
        monitor w' !!! t' = monitor w !!! t').

(** [w'] comes from [w] by calls among which there is no [head_object]. *)
Definition no_head_object (w w' : World) : Prop :=
  exists d,
    calls w' = calls w ++ d /\ Forall (fun c => is_head_object c = false) d.

(** ** Shutdown

    [ProcessPoolDownloader.shutdown] first puts the shutdown signal on the
    request queue and joins the submitter; when [_shutdown_get_object_workers]
    starts, the submitter has put all its jobs.  Its first loop puts one
    signal per worker on the worker queue, while the workers go on; its
    second loop joins the workers and returns once every one of them has
    left its loop. *)

Module Shutdown.
(** [_shutdown_submitter]: the put; the [join] that follows returns when
    the submitter's [run] has returned. *)
Definition _shutdown_submitter : M unit :=
  download_request_queue_put SHUTDOWN_SIGNAL.

(** [_shutdown_get_object_workers], as the pool sees it: a turn of the loop
    that puts the signals, or a step of the pool. *)
Inductive action : Type :=
| Pool_action (a : Pool.action)
| Put_shutdown_signal.

(** The pool, and the turns that the loop over [self._workers] that puts
    the signals still has to make. *)
Record state : Type := {
  pool : Pool.state;
  signals_to_put : nat;
}.

Section Workers.
Variable S3_RETRYABLE_DOWNLOAD_ERRORS : exn -> bool.
Variable self : GetObjectWorker.t.

Definition step (a : action) (s : state) : option state :=
  match a with
  | Pool_action a =>
      match Pool.step S3_RETRYABLE_DOWNLOAD_ERRORS self a (pool s) with
      | None => None
      | Some pool' =>
          Some {| pool := pool'; signals_to_put := signals_to_put s |}
      end
  | Put_shutdown_signal =>
      match signals_to_put s with
      | O => None
      | S signals =>
          Some {| pool :=
                    {| Pool.world :=
                         snd (worker_queue_put SHUTDOWN_SIGNAL
                                (Pool.world (pool s)));
                       Pool.workers := Pool.workers (pool s);
                       Pool.to_put := Pool.to_put (pool s);
                       Pool.trace := Pool.trace (pool s) |};
                  signals_to_put := signals |}
      end
  end.

Fixpoint run (schedule : list action) (s : state) : option state :=
  match schedule with
  | [] => Some s
  | a :: schedule' =>
      match step a s with
      | None => None
      | Some s' => run schedule' s'
      end
  end.
End Workers.

(** [_shutdown_get_object_workers] is entered with the pool at [pool]. *)
Definition start (pool : Pool.state) : state :=
  {| pool := pool; signals_to_put := length (Pool.workers pool) |}.

(** Every [worker.join()] has returned. *)
Definition joined (s : state) : Prop :=
  Forall (fun pos => pos = Pool.Exited) (Pool.workers (pool s)).
End Shutdown.

(** During shutdown: the jobs are in front of the signals, no job is added,
    every signal is still to be put, in the queue, or was taken by a worker
    that left; and a worker has left only once the jobs were all taken. *)
Definition shutdown_invariant (s : Shutdown.state) : Prop :=
  Pool.to_put (Shutdown.pool s) = []
  /\ exists (jobs : list GetObjectJob) (signals : nat),
       worker_queue (Pool.world (Shutdown.pool s))
       = (Item <$> jobs) ++ replicate signals SHUTDOWN_SIGNAL
       /\ (Pool.count is_exited (Pool.workers (Shutdown.pool s)) + signals
           + Shutdown.signals_to_put s
           = length (Pool.workers (Shutdown.pool s)))%nat
       /\ (jobs <> [] ->
           Pool.count is_exited (Pool.workers (Shutdown.pool s)) = 0%nat).

(** * Properties *)

(** ** The monitor's table, read through its default *)

#[global] Arguments TransferMonitor.getitem : simpl never.
#[global] Arguments TransferMonitor.is_done : simpl never.
#[global] Arguments TransferMonitor.notify_done : simpl never.
#[global] Arguments TransferMonitor.notify_exception : simpl never.
#[global] Arguments TransferMonitor.get_exception : simpl never.
#[global] Arguments TransferMonitor.notify_expected_jobs_to_complete
  : simpl never.
#[global] Arguments TransferMonitor.notify_job_complete : simpl never.
#[global] Arguments TransferMonitor.poll_for_result : simpl never.

Section MonitorFacts.
Implicit Types (m : gmap nat TransferState.t) (t : nat).

Lemma getitem_state m t : (TransferMonitor.getitem m t).1 = m !!! t.
Proof.
  unfold TransferMonitor.getitem. rewrite lookup_total_alt.
  destruct (m !! t); reflexivity.
Qed.

Lemma getitem_monitor m t t' :
  (TransferMonitor.getitem m t).2 !!! t' = m !!! t'.
Proof.
  unfold TransferMonitor.getitem.
  destruct (m !! t) eqn:E; simpl; [reflexivity|].
  destruct (decide (t = t')) as [->|Hne].
  - rewrite lookup_total_insert_eq, lookup_total_alt, E. reflexivity.
  - rewrite lookup_total_insert_ne; done.
Qed.

Lemma getitem_pair m t st m' :
  TransferMonitor.getitem m t = (st, m') ->
  st = m !!! t /\ forall t', m' !!! t' = m !!! t'.
Proof.
  intros E. split.
  - rewrite <- getitem_state, E. reflexivity.
  - intros t'. rewrite <- (getitem_monitor m t t'), E. reflexivity.
Qed.

Lemma notify_done_lookup m t t' :
  TransferMonitor.notify_done m t !!! t' =
  if decide (t = t') then TransferState.set_done (m !!! t) else m !!! t'.
Proof.
  unfold TransferMonitor.notify_done.
  destruct (TransferMonitor.getitem m t) as [st m'] eqn:E.
  apply getitem_pair in E as [-> Hm'].
  rewrite lookup_total_insert. case_decide; [reflexivity | apply Hm'].
Qed.

Lemma notify_exception_lookup m t e t' :
  TransferMonitor.notify_exception m t e !!! t' =
  if decide (t = t')
  then TransferState.exception_setter (m !!! t) (Some e)
  else m !!! t'.
Proof.
  unfold TransferMonitor.notify_exception.
  destruct (TransferMonitor.getitem m t) as [st m'] eqn:E.
  apply getitem_pair in E as [-> Hm'].
  rewrite lookup_total_insert. case_decide; [reflexivity | apply Hm'].
Qed.

Lemma notify_expected_lookup m t n t' :
  TransferMonitor.notify_expected_jobs_to_complete m t n !!! t' =
  if decide (t = t')
  then TransferState.jobs_to_complete_setter (m !!! t) n
  else m !!! t'.
Proof.
  unfold TransferMonitor.notify_expected_jobs_to_complete.
  destruct (TransferMonitor.getitem m t) as [st m'] eqn:E.
  apply getitem_pair in E as [-> Hm'].
  rewrite lookup_total_insert. case_decide; [reflexivity | apply Hm'].
Qed.

Lemma get_exception_value m t :
  (TransferMonitor.get_exception m t).1 = TransferState.exception (m !!! t).
Proof.
  unfold TransferMonitor.get_exception.
  destruct (TransferMonitor.getitem m t) as [st m'] eqn:E.
  apply getitem_pair in E as [-> _]. reflexivity.
Qed.

Lemma get_exception_lookup m t t' :
  (TransferMonitor.get_exception m t).2 !!! t' = m !!! t'.
Proof.
  unfold TransferMonitor.get_exception.
  destruct (TransferMonitor.getitem m t) as [st m'] eqn:E.
  apply getitem_pair in E as [_ Hm']. apply Hm'.
Qed.

Lemma notify_job_complete_value m t :
  (TransferMonitor.notify_job_complete m t).1 =
  TransferState.jobs_to_complete (m !!! t) - 1.
Proof.
  unfold TransferMonitor.notify_job_complete.
  destruct (TransferMonitor.getitem m t) as [st m'] eqn:E.
  apply getitem_pair in E as [-> _]. reflexivity.
Qed.

Lemma notify_job_complete_lookup m t t' :
  (TransferMonitor.notify_job_complete m t).2 !!! t' =
  if decide (t = t')
  then TransferState.jobs_to_complete_setter (m !!! t)
         (TransferState.jobs_to_complete (m !!! t) - 1)
  else m !!! t'.
Proof.
  unfold TransferMonitor.notify_job_complete.
  destruct (TransferMonitor.getitem m t) as [st m'] eqn:E.
  apply getitem_pair in E as [-> Hm']. simpl.
  rewrite lookup_total_insert. case_decide; [reflexivity | apply Hm'].
Qed.

Lemma poll_for_result_outcome m t interrupted :
  (TransferMonitor.poll_for_result m t interrupted).1 =
  if TransferState.done (m !!! t)
  then match TransferState.exception (m !!! t) with
       | Some e => Raises (Exc e)
       | None => Returns tt
       end
  else if interrupted then Raises KeyboardInterrupt else Blocks.
Proof.
  unfold TransferMonitor.poll_for_result.
  destruct (TransferMonitor.getitem m t) as [st m'] eqn:E.
  apply getitem_pair in E as [-> Hm'].
  unfold TransferState.wait_till_done.
  destruct (TransferState.done (m !!! t)).
  - destruct (TransferMonitor.getitem m' t) as [st2 m2] eqn:E2.
    apply getitem_pair in E2 as [-> _]. rewrite Hm'.
    destruct (TransferState.exception (m !!! t)); reflexivity.
  - destruct interrupted; reflexivity.
Qed.

Lemma poll_for_result_lookup m t interrupted t' :
  (TransferMonitor.poll_for_result m t interrupted).2 !!! t' = m !!! t'.
Proof.
  unfold TransferMonitor.poll_for_result.
  destruct (TransferMonitor.getitem m t) as [st m'] eqn:E.
  apply getitem_pair in E as [-> Hm'].
  destruct (TransferState.wait_till_done (m !!! t) interrupted);
    simpl; try apply Hm'.
  destruct (TransferMonitor.getitem m' t) as [st2 m2] eqn:E2.
  apply getitem_pair in E2 as [-> Hm2].
  destruct (TransferState.exception (m' !!! t)); simpl;
    rewrite Hm2; apply Hm'.
Qed.
End MonitorFacts.

(** C9: [result()] ends the way [poll_for_result] does: as long as the
    transfer is not done the caller stays blocked; once done is observed it
    raises the recorded failure, or returns when there is none; and a
    [KeyboardInterrupt] that reaches the blocked caller makes [result()] call
    [cancel()], which records [CancelledError] through [notify_exception],
    before the interrupt goes on to the caller. *)
Theorem result_follows_poll_for_result
    (future : ProcessPoolTransferFuture.t) (interrupted : bool) (w : World) :
  let t := ProcessPoolTransferMeta.transfer_id
             (ProcessPoolTransferFuture.meta future) in
  let st := monitor w !!! t in
  let r := ProcessPoolTransferFuture.result future interrupted w in
  r.1 = (TransferMonitor.poll_for_result (monitor w) t interrupted).1
  /\ r.1 = (if TransferState.done st
            then match TransferState.exception st with
                 | Some e => Raises (Exc e)
                 | None => Returns tt
                 end
            else if interrupted then Raises KeyboardInterrupt else Blocks)
  /\ monitor r.2 !!! t =
       (if TransferState.done st || negb interrupted then st
        else TransferState.exception_setter st (Some CancelledError))
  /\ calls r.2 =
       (if TransferState.done st || negb interrupted then calls w
        else calls w ++ [Call_notify_exception t CancelledError]).
Proof.
  unfold ProcessPoolTransferFuture.result, ProcessPoolTransferFuture.cancel,
    ProcessPoolTransferFuture.meta, ProcessPoolTransferMeta.transfer_id.
  set (t := ProcessPoolTransferMeta._transfer_id _).
  pose proof (poll_for_result_outcome (monitor w) t interrupted) as Ho.
  pose proof (poll_for_result_lookup (monitor w) t interrupted t) as Hm.
  destruct (TransferMonitor.poll_for_result (monitor w) t interrupted)
    as [o m'] eqn:E.
  simpl in Ho, Hm. cbv zeta.
  destruct (TransferState.done (monitor w !!! t)) eqn:Hd; simpl.
  - destruct (TransferState.exception (monitor w !!! t)); subst o; simpl; auto.
  - destruct interrupted; subst o; simpl; [|auto].
    rewrite notify_exception_lookup, decide_True by reflexivity.
    rewrite Hm. auto.
Qed.

(** ** The facade *)

Lemma validate_keys_rejects (ALLOWED kwargs : list string) (k : string) :
  In k kwargs -> str_in k ALLOWED = false ->
  exists msg, ProcessPoolDownloader.validate_keys ALLOWED kwargs
              = Raise (ValueError msg).
Proof.
  induction kwargs as [|k' kwargs IH]; intros Hin Hk; [destruct Hin|].
  simpl. destruct (str_in k' ALLOWED) eqn:Hk'; simpl; [|eauto].
  destruct Hin as [->|Hin]; [congruence|auto].
Qed.

Lemma validate_keys_accepts (ALLOWED kwargs : list string) :
  Forall (fun k => str_in k ALLOWED = true) kwargs ->
  ProcessPoolDownloader.validate_keys ALLOWED kwargs = Return tt.
Proof.
  induction 1 as [|k kwargs Hk _ IH]; simpl; [reflexivity|].
  rewrite Hk. exact IH.
Qed.

(** C8: when [extra_args] has a key outside [ALLOWED_DOWNLOAD_ARGS],
    [download_file] raises a [ValueError] in the caller and leaves the world
    as it was: nothing is put on the request queue, so the submitter never
    sees such a request, and no future is returned. *)
Theorem download_file_rejects_unknown_key
    (ALLOWED_DOWNLOAD_ARGS : list string) (self : ProcessPoolDownloader.t)
    (bucket key filename : string) (extra_args : PyDict.t)
    (expected_size : option Z) (w : World) (kwarg : string) :
  In kwarg (PyDict.keys extra_args) ->
  str_in kwarg ALLOWED_DOWNLOAD_ARGS = false ->
  exists msg,
    ProcessPoolDownloader.download_file ALLOWED_DOWNLOAD_ARGS self
      bucket key filename (Some extra_args) expected_size w
    = (Raise (ValueError msg), ProcessPoolDownloader._start_if_needed self, w).
Proof.
  intros Hin Hk. unfold ProcessPoolDownloader.download_file,
    ProcessPoolDownloader._validate_all_known_args.
  destruct (validate_keys_rejects _ _ _ Hin Hk) as [msg ->]. eauto.
Qed.

Lemma download_file_rejects_unknown_key_witness :
  exists msg,
    ProcessPoolDownloader.download_file ["VersionId"; "RequestPayer"]
      (ProcessPoolDownloader.__init__ None)
      "bucket" "key" "file" (Some [("VersionId", "3"); ("Range", "bytes=0-9")])
      None empty_world
    = (Raise (ValueError msg),
       ProcessPoolDownloader._start_if_needed
         (ProcessPoolDownloader.__init__ None),
       empty_world).
Proof.
  apply (download_file_rejects_unknown_key _ _ _ _ _ _ _ _ "Range").
  - simpl. auto.
  - reflexivity.
Defined.

(** What [download_file] does with keys that are all allowed: the request is
    queued under the current id, and the id moves on. *)
Lemma download_file_accepts
    (ALLOWED_DOWNLOAD_ARGS : list string) (self : ProcessPoolDownloader.t)
    (bucket key filename : string) (extra_args : PyDict.t)
    (expected_size : option Z) (w : World) :
  Forall (fun k => str_in k ALLOWED_DOWNLOAD_ARGS = true)
    (PyDict.keys extra_args) ->
  let '(r, self', w') :=
    ProcessPoolDownloader.download_file ALLOWED_DOWNLOAD_ARGS self
      bucket key filename (Some extra_args) expected_size w in
  let request :=
    {| DownloadFileRequest.transfer_id :=
         ProcessPoolDownloader._id_counter self;
       DownloadFileRequest.bucket := bucket;
       DownloadFileRequest.key := key;
       DownloadFileRequest.filename := filename;
       DownloadFileRequest.extra_args := extra_args;
       DownloadFileRequest.expected_size := expected_size |} in
  download_request_queue w' = download_request_queue w ++ [Item request]
  /\ ProcessPoolDownloader._id_counter self'
     = S (ProcessPoolDownloader._id_counter self)
  /\ exists future,
       r = Return future
       /\ ProcessPoolTransferMeta.transfer_id
            (ProcessPoolTransferFuture.meta future)
          = ProcessPoolDownloader._id_counter self.
Proof.
  intros Hall. unfold ProcessPoolDownloader.download_file,
    ProcessPoolDownloader._validate_all_known_args.
  rewrite (validate_keys_accepts _ _ Hall). simpl.
  assert (Hid : ProcessPoolDownloader._id_counter
                  (ProcessPoolDownloader._start_if_needed self)
                = ProcessPoolDownloader._id_counter self).
  { unfold ProcessPoolDownloader._start_if_needed.
    destruct (ProcessPoolDownloader._started self); reflexivity. }
  rewrite Hid. repeat split; [lia | eauto].
Qed.

(** ** The submitter *)

Lemma io_only_refl w : io_only w w.
Proof.
  repeat split. exists []. rewrite app_nil_r. auto.
Qed.

Lemma io_only_trans w1 w2 w3 : io_only w1 w2 -> io_only w2 w3 -> io_only w1 w3.
Proof.
  intros (Hm & Hq & Hr & d & Hc & Hd) (Hm' & Hq' & Hr' & d' & Hc' & Hd').
  unfold io_only. rewrite Hm', Hq', Hr', Hc', Hc, <- app_assoc.
  repeat split; auto. exists (d ++ d'). split; [reflexivity|].
  apply Forall_app; auto.
Qed.

Section SubmitterFacts.
Variable calculate_range_parameter : Z -> Z -> Z -> string.
Variable self : GetObjectSubmitter.t.
Variable request : DownloadFileRequest.t.

Local Abbreviation t := (DownloadFileRequest.transfer_id request).
Local Abbreviation part_size :=
  (multipart_chunksize (GetObjectSubmitter._transfer_config self)).

Lemma get_size_io_only w :
  io_only w (GetObjectSubmitter._get_size self request w).2.
Proof.
  unfold GetObjectSubmitter._get_size.
  destruct (DownloadFileRequest.expected_size request); simpl;
    [apply io_only_refl|].
  repeat split. eexists [_]. split; [reflexivity|]. repeat constructor.
Qed.

Lemma allocate_temp_file_io_only size w :
  io_only w (GetObjectSubmitter._allocate_temp_file self request size w).2.
Proof.
  unfold GetObjectSubmitter._allocate_temp_file, bind, utils.OSUtils.allocate.
  destruct (utils.OSUtils.allocate_fault _ _ _); simpl.
  - repeat split. eexists [_]. split; [reflexivity|]. repeat constructor.
  - destruct (size <? 0); simpl;
      (repeat split; eexists [_]; split; [reflexivity|]; repeat constructor).
Qed.

Lemma for_each_put {A} (f : A -> GetObjectJob) (l : list A) (w : World) :
  for_each l (fun i => GetObjectSubmitter._submit_get_object_job self (f i)) w
  = (Return tt,
     {| monitor := monitor w;
        files := files w;
        download_request_queue := download_request_queue w;
        worker_queue := worker_queue w ++ (Item <$> (f <$> l));
        get_object_count := get_object_count w;
        calls :=
          calls w ++
          ((fun job => Call_worker_queue_put (Item job)) <$> (f <$> l)) |}).
Proof.
  revert w. induction l as [|x l IH]; intros w; simpl.
  - rewrite !app_nil_r. destruct w; reflexivity.
  - open_world. rewrite IH. simpl. rewrite <- !app_assoc. reflexivity.
Qed.

Lemma submit_single_spec temp_filename w :
  GetObjectSubmitter._submit_single_get_object_job self request
    temp_filename w
  = (Return tt, submitted t 1 [single_job request temp_filename] w).
Proof.
  unfold GetObjectSubmitter._submit_single_get_object_job, submitted.
  open_world. rewrite <- app_assoc. reflexivity.
Qed.

Lemma submit_ranged_spec temp_filename size w :
  GetObjectSubmitter._submit_ranged_get_object_jobs
    calculate_range_parameter self request temp_filename size w
  = if part_size =? 0 then (Raise ZeroDivisionError, w)
    else let num_parts := - (- size / part_size) in
         (Return tt,
          submitted t num_parts
            (ranged_jobs calculate_range_parameter request temp_filename
               part_size num_parts) w).
Proof.
  unfold GetObjectSubmitter._submit_ranged_get_object_jobs,
    utils.calculate_num_parts.
  destruct (part_size =? 0); [reflexivity|].
  unfold bind, Monitor.notify_expected_jobs_to_complete.
  rewrite for_each_put. simpl.
  unfold submitted, ranged_jobs. rewrite <- app_assoc. reflexivity.
Qed.

(** Every way [_submit_get_object_jobs] can go: it raises before anything
    reached the monitor or the queue, or it registers a count and then puts
    jobs of this transfer. *)
Lemma submit_get_object_jobs_cases w :
  let r := GetObjectSubmitter._submit_get_object_jobs
             calculate_range_parameter self request w in
  (exists e, r.1 = Raise e /\ io_only w r.2)
  \/ (exists w2 num_jobs jobs,
        r = (Return tt, submitted t num_jobs jobs w2)
        /\ io_only w w2
        /\ Forall (fun job => transfer_id job = t) jobs).
Proof.
  unfold GetObjectSubmitter._submit_get_object_jobs, bind.
  pose proof (get_size_io_only w) as H1.
  destruct (GetObjectSubmitter._get_size self request w) as [[size|e] w1];
    simpl in *; [|left; eauto].
  pose proof (allocate_temp_file_io_only size w1) as H2.
  destruct (GetObjectSubmitter._allocate_temp_file self request size w1)
    as [[temp|e] w2]; simpl in *.
  2:{ left. eexists. split; [reflexivity|]. eapply io_only_trans; eauto. }
  pose proof (io_only_trans _ _ _ H1 H2) as H12.
  destruct (size <? _).
  - right. rewrite submit_single_spec. do 3 eexists.
    split; [reflexivity|]. split; [assumption|]. repeat constructor.
  - rewrite submit_ranged_spec. destruct (part_size =? 0).
    + left. eauto.
    + right. do 3 eexists. split; [reflexivity|]. split; [assumption|].
      unfold ranged_jobs. apply Forall_fmap, Forall_forall. reflexivity.
Qed.
End SubmitterFacts.

Lemma io_only_fields w w' :
  io_only w w' ->
  monitor w' = monitor w /\ worker_queue w' = worker_queue w.
Proof. intros (? & ? & _). auto. Qed.

(** C3: for a size below the multipart threshold the submitter registers a
    count of 1 and puts exactly one job, at offset 0, whose [extra_args] are
    the caller's own: no ['Range'] is computed for it. *)
Theorem one_job_below_threshold
    (calculate_range_parameter : Z -> Z -> Z -> string)
    (self : GetObjectSubmitter.t) (request : DownloadFileRequest.t)
    (w w1 w2 : World) (size : Z) (temp_filename : string) :
  GetObjectSubmitter._get_size self request w = (Return size, w1) ->
  GetObjectSubmitter._allocate_temp_file self request size w1
    = (Return temp_filename, w2) ->
  size < multipart_threshold (GetObjectSubmitter._transfer_config self) ->
  let t := DownloadFileRequest.transfer_id request in
  let job := single_job request temp_filename in
  let r := GetObjectSubmitter._submit_get_object_jobs
             calculate_range_parameter self request w in
  r.1 = Return tt
  /\ worker_queue r.2 = worker_queue w ++ [Item job]
  /\ calls r.2 =
       calls w2 ++ [Call_notify_expected_jobs_to_complete t 1;
                    Call_worker_queue_put (Item job)]
  /\ TransferState.jobs_to_complete (monitor r.2 !!! t) = 1
  /\ offset job = 0
  /\ extra_args job = DownloadFileRequest.extra_args request.
Proof.
  intros Hsize Halloc Hlt t job r.
  pose proof (get_size_io_only self request w) as H1.
  pose proof (allocate_temp_file_io_only self request size w1) as H2.
  rewrite Hsize in H1. rewrite Halloc in H2. simpl in H1, H2.
  destruct (io_only_fields _ _ (io_only_trans _ _ _ H1 H2)) as [Hm Hq].
  subst r. unfold GetObjectSubmitter._submit_get_object_jobs, bind.
  rewrite Hsize, Halloc.
  apply Z.ltb_lt in Hlt. rewrite Hlt, submit_single_spec. simpl.
  rewrite Hq, notify_expected_lookup, decide_True by reflexivity.
  repeat split.
Qed.

Lemma one_job_below_threshold_witness :
  let request := Fixture.request (Some 5) in
  let r := GetObjectSubmitter._submit_get_object_jobs
             utils.calculate_range_parameter Fixture.submitter request
             empty_world in
  r.1 = Return tt
  /\ worker_queue r.2 = [Item (single_job request "file.tmp")]
  /\ TransferState.jobs_to_complete (monitor r.2 !!! 0%nat) = 1.
Proof.
  pose proof (one_job_below_threshold utils.calculate_range_parameter
                Fixture.submitter (Fixture.request (Some 5))
                empty_world _ _ 5 "file.tmp" eq_refl eq_refl) as H.
  destruct H as (H1 & H2 & _ & H4 & _); [reflexivity|].
  repeat split; assumption.
Defined.

(** ** Dictionaries *)

Lemma PyDict_get_set (d : PyDict.t) (k v k' : string) :
  PyDict.get (PyDict.set d k v) k' =
  if String.eqb k k' then Some v else PyDict.get d k'.
Proof.
  induction d as [|[k0 v0] d IH]; simpl.
  - reflexivity.
  - destruct (String.eqb_spec k0 k) as [->|Hne]; simpl.
    + destruct (String.eqb k k'); reflexivity.
    + rewrite IH. destruct (String.eqb_spec k0 k') as [->|Hne'].
      * destruct (String.eqb_spec k k'); [congruence|reflexivity].
      * reflexivity.
Qed.

(** A key that [other] does not have keeps its value through
    [d.update(other)]. *)
Lemma PyDict_get_update_other (d other : PyDict.t) (k : string) :
  PyDict.get other k = None ->
  PyDict.get (PyDict.update d other) k = PyDict.get d k.
Proof.
  unfold PyDict.update. revert d.
  induction other as [|[k0 v0] other IH]; intros d Hk; simpl in *.
  - reflexivity.
  - destruct (String.eqb k0 k) eqn:E; [discriminate|].
    rewrite IH by assumption. rewrite PyDict_get_set, E. reflexivity.
Qed.

(** A key of [other] takes the value [other] has for it. *)
Lemma PyDict_get_update_key (d other : PyDict.t) (k v : string) :
  NoDup (PyDict.keys other) ->
  PyDict.get other k = Some v ->
  PyDict.get (PyDict.update d other) k = Some v.
Proof.
  unfold PyDict.update. revert d.
  induction other as [|[k0 v0] other IH]; intros d Hnd Hk; simpl in *.
  - discriminate.
  - apply NoDup_cons in Hnd as [Hk0 Hnd].
    destruct (String.eqb_spec k0 k) as [->|Hne].
    + injection Hk as ->.
      fold (PyDict.update (PyDict.set d k v) other).
      rewrite PyDict_get_update_other.
      * rewrite PyDict_get_set, String.eqb_refl. reflexivity.
      * clear -Hk0. induction other as [|[k1 v1] other IH]; simpl;
          [reflexivity|].
        destruct (String.eqb_spec k1 k) as [->|_].
        -- exfalso. apply Hk0. simpl. left.
        -- apply IH. intros Hin. apply Hk0. simpl. right. exact Hin.
    + apply IH; assumption.
Qed.

Lemma ceil_division (size part_size : Z) :
  0 < part_size ->
  let num_parts := - (- size / part_size) in
  (num_parts - 1) * part_size < size <= num_parts * part_size.
Proof.
  intros Hpos. simpl.
  pose proof (Z.div_mod (- size) part_size ltac:(lia)) as Hdm.
  pose proof (Z.mod_pos_bound (- size) part_size Hpos) as Hb.
  nia.
Qed.

(** What the ranged branch does, whatever [calculate_range_parameter] is. *)
Lemma ranged_branch
    (calculate_range_parameter : Z -> Z -> Z -> string)
    (self : GetObjectSubmitter.t) (request : DownloadFileRequest.t)
    (w w1 w2 : World) (size : Z) (temp_filename : string) :
  GetObjectSubmitter._get_size self request w = (Return size, w1) ->
  GetObjectSubmitter._allocate_temp_file self request size w1
    = (Return temp_filename, w2) ->
  multipart_threshold (GetObjectSubmitter._transfer_config self) <= size ->
  multipart_chunksize (GetObjectSubmitter._transfer_config self) <> 0 ->
  let part_size :=
    multipart_chunksize (GetObjectSubmitter._transfer_config self) in
  let num_parts := - (- size / part_size) in
  GetObjectSubmitter._submit_get_object_jobs
    calculate_range_parameter self request w
  = (Return tt,
     submitted (DownloadFileRequest.transfer_id request) num_parts
       (ranged_jobs calculate_range_parameter request temp_filename
          part_size num_parts) w2).
Proof.
  intros Hsize Halloc Hge Hne part_size num_parts.
  unfold GetObjectSubmitter._submit_get_object_jobs, bind.
  rewrite Hsize, Halloc.
  apply Z.ltb_ge in Hge. rewrite Hge, submit_ranged_spec.
  apply Z.eqb_neq in Hne. rewrite Hne. reflexivity.
Qed.

Lemma calculate_range_parameter_expresses (part_size part_index num_parts : Z) :
  utils.calculate_range_parameter part_size part_index num_parts
  = range_expression (part_range part_size part_index num_parts).
Proof.
  unfold utils.calculate_range_parameter, range_expression, part_range.
  simpl. destruct (part_index =? num_parts - 1); reflexivity.
Qed.

(** C2: for a size at or above the threshold and a chunk size [C > 0] the
    submitter registers [num_parts = ceil(size / C)] and puts that many
    jobs, part [i] at offset [i * C].  Unless the caller gave a ['Range'] of
    its own, the ['Range'] of part [i] expresses the range that starts at
    its offset; every part but the last names its last byte,
    [i * C + C - 1], which lies inside the object, and the last part leaves
    its range open, ['bytes=START-'], from a start inside the object and
    less than [C] bytes before its end.  So the effective end of the final
    part's range is [size - 1], and no part's range reaches beyond the
    object. *)
Theorem ranged_jobs_at_or_above_threshold
    (self : GetObjectSubmitter.t) (request : DownloadFileRequest.t)
    (w w1 w2 : World) (size : Z) (temp_filename : string) :
  GetObjectSubmitter._get_size self request w = (Return size, w1) ->
  GetObjectSubmitter._allocate_temp_file self request size w1
    = (Return temp_filename, w2) ->
  multipart_threshold (GetObjectSubmitter._transfer_config self) <= size ->
  0 < multipart_chunksize (GetObjectSubmitter._transfer_config self) ->
  0 <= size ->
  let t := DownloadFileRequest.transfer_id request in
  let part_size :=
    multipart_chunksize (GetObjectSubmitter._transfer_config self) in
  let r := GetObjectSubmitter._submit_get_object_jobs
             utils.calculate_range_parameter self request w in
  exists (num_parts : Z) (jobs : list GetObjectJob),
    utils.calculate_num_parts size part_size = Return num_parts
    /\ (num_parts - 1) * part_size < size <= num_parts * part_size
    /\ r.1 = Return tt
    /\ worker_queue r.2 = worker_queue w ++ (Item <$> jobs)
    /\ Z.of_nat (length jobs) = num_parts
    /\ TransferState.jobs_to_complete (monitor r.2 !!! t) = num_parts
    /\ forall i : nat,
         Z.of_nat i < num_parts ->
         let range := part_range part_size (Z.of_nat i) num_parts in
         exists job,
           jobs !! i = Some job
           /\ transfer_id job = t
           /\ offset job = Z.of_nat i * part_size
           /\ (PyDict.get (DownloadFileRequest.extra_args request) "Range"
               = None ->
               PyDict.get (extra_args job) "Range"
               = Some (range_expression range)
               /\ PyDict.get (extra_args job) "Range" =
                  Some (if Z.of_nat i =? num_parts - 1
                        then "bytes=" +:+ pretty (offset job) +:+ "-"
                        else bytes_range (offset job)
                               (offset job + part_size - 1)))
           /\ first_byte range = offset job
           /\ offset job <= effective_end size range <= size - 1
           /\ (Z.of_nat i < num_parts - 1 ->
               offset job + part_size - 1 <= size - 1
               /\ effective_end size range = offset job + part_size - 1)
           /\ (Z.of_nat i = num_parts - 1 ->
               offset job <= size - 1 < offset job + part_size
               /\ last_byte range = None
               /\ effective_end size range = size - 1).
Proof.
  intros Hsize Halloc Hge Hpos Hnn t part_size r.
  pose proof (ceil_division size part_size Hpos) as Hceil. simpl in Hceil.
  set (num_parts := - (- size / part_size)) in *.
  exists num_parts,
    (ranged_jobs utils.calculate_range_parameter request temp_filename
       part_size num_parts).
  pose proof (get_size_io_only self request w) as H1.
  pose proof (allocate_temp_file_io_only self request size w1) as H2.
  rewrite Hsize in H1. rewrite Halloc in H2. simpl in H1, H2.
  destruct (io_only_fields _ _ (io_only_trans _ _ _ H1 H2)) as [Hm Hq].
  subst r.
  rewrite (ranged_branch _ self request w w1 w2 size temp_filename)
    by (try assumption; fold part_size; lia).
  fold part_size num_parts. simpl.
  assert (Hn0 : 0 <= num_parts) by nia.
  split.
  { unfold utils.calculate_num_parts.
    destruct (Z.eqb_spec part_size 0); [lia|reflexivity]. }
  split; [exact Hceil|]. split; [reflexivity|].
  split; [rewrite Hq; reflexivity|].
  split.
  { unfold ranged_jobs. rewrite length_fmap, length_seqZ. lia. }
  split.
  { rewrite notify_expected_lookup, decide_True by reflexivity. reflexivity. }
  intros i Hi.
  exists (GetObjectSubmitter.ranged_job utils.calculate_range_parameter
            request temp_filename part_size num_parts (Z.of_nat i)).
  split.
  { unfold ranged_jobs. rewrite list_lookup_fmap, lookup_seqZ_lt by lia.
    reflexivity. }
  simpl. split; [reflexivity|]. split; [reflexivity|].
  split.
  { intros Hnone. rewrite PyDict_get_update_other by assumption. simpl.
    split; [rewrite calculate_range_parameter_expresses; reflexivity|].
    unfold utils.calculate_range_parameter, bytes_range.
    destruct (Z.of_nat i =? num_parts - 1); reflexivity. }
  split; [reflexivity|].
  unfold effective_end, part_range. simpl.
  destruct (Z.eqb_spec (Z.of_nat i) (num_parts - 1)) as [Hlast|Hnot]; simpl.
  - split; [nia|]. split; [intros; lia|]. intros _.
    split; [nia|]. split; reflexivity.
  - assert (Hin : Z.of_nat i * part_size + part_size - 1 <= size - 1) by nia.
    rewrite Z.min_l by exact Hin.
    split; [nia|]. split; [|intros; lia]. intros _. split; [exact Hin|].
    reflexivity.
Qed.

Lemma ranged_jobs_at_or_above_threshold_witness :
  let request := Fixture.request (Some 20) in
  let r := GetObjectSubmitter._submit_get_object_jobs
             utils.calculate_range_parameter Fixture.submitter request
             empty_world in
  exists (num_parts : Z) (jobs : list GetObjectJob),
    utils.calculate_num_parts 20 8 = Return num_parts
    /\ (num_parts - 1) * 8 < 20 <= num_parts * 8
    /\ worker_queue r.2 = Item <$> jobs
    /\ Z.of_nat (length jobs) = num_parts
    /\ exists job,
         jobs !! 2%nat = Some job
         /\ offset job = 16
         /\ PyDict.get (extra_args job) "Range" = Some "bytes=16-"
         /\ effective_end 20 (part_range 8 2 num_parts) = 19.
Proof.
  destruct (ranged_jobs_at_or_above_threshold Fixture.submitter
              (Fixture.request (Some 20)) empty_world _ _ 20 "file.tmp"
              eq_refl eq_refl)
    as (num_parts & jobs & H1 & H2 & _ & H4 & H5 & _ & Hparts);
    [simpl; lia | simpl; lia | lia |].
  exists num_parts, jobs.
  assert (num_parts = 3) as -> by (vm_compute in H1; congruence).
  split; [exact H1|]. split; [exact H2|]. split; [exact H4|].
  split; [exact H5|].
  destruct (Hparts 2%nat ltac:(lia))
    as (job & Hjob & _ & Hoff & Hrange & _ & _ & _ & Hlast).
  exists job. split; [exact Hjob|]. split; [exact Hoff|].
  destruct (Hrange eq_refl) as [Hexpr _].
  destruct (Hlast eq_refl) as (_ & _ & Hend).
  split; [exact Hexpr | exact Hend].
Defined.

(** The spec's example: 20 MiB in chunks of 8 MiB. *)
Example three_parts_for_20_MiB :
  utils.calculate_num_parts (20 * MB) (8 * MB) = Return 3
  /\ (GetObjectSubmitter.ranged_job utils.calculate_range_parameter
        (Fixture.request (Some (20 * MB))) "file.tmp" (8 * MB) 3 <$> seqZ 0 3)
     = [ {| transfer_id := 0; bucket := "bucket"; key := "key";
            temp_filename := "file.tmp";
            extra_args := [("Range", "bytes=0-8388607"); ("VersionId", "1")];
            offset := 0; filename := "file" |};
         {| transfer_id := 0; bucket := "bucket"; key := "key";
            temp_filename := "file.tmp";
            extra_args :=
              [("Range", "bytes=8388608-16777215"); ("VersionId", "1")];
            offset := 8 * MB; filename := "file" |};
         {| transfer_id := 0; bucket := "bucket"; key := "key";
            temp_filename := "file.tmp";
            extra_args := [("Range", "bytes=16777216-"); ("VersionId", "1")];
            offset := 16 * MB; filename := "file" |} ]
  /\ effective_end (20 * MB) (part_range (8 * MB) 2 3) = 20 * 1024 * 1024 - 1.
Proof. repeat split; vm_compute; reflexivity. Qed.

(** The last part of the spec's example in small: 20 bytes in chunks of 8.
    The last job asks for the bytes from 16 on, which end at byte 19. *)
Example last_range_of_20_in_chunks_of_8 :
  last_range utils.calculate_range_parameter Fixture.submitter
    (Fixture.request (Some 20)) empty_world = Some "bytes=16-"
  /\ range_expression (part_range 8 2 3) = "bytes=16-"
  /\ effective_end 20 (part_range 8 2 3) = 20 - 1.
Proof. repeat split; vm_compute; reflexivity. Qed.

(** ** Order of the submitter's calls *)

(** An element that satisfies [P] in a list whose front does not. *)
Lemma split_after_front {A} (P : A -> bool) (front back pre post : list A) x :
  Forall (fun a => P a = false) front ->
  P x = true ->
  front ++ back = pre ++ x :: post ->
  exists pre', pre = front ++ pre' /\ back = pre' ++ x :: post.
Proof.
  revert pre. induction front as [|a front IH]; intros pre Hf Hx Heq.
  - exists pre. auto.
  - apply Forall_cons in Hf as [Ha Hf].
    destruct pre as [|b pre]; simpl in Heq.
    + injection Heq as -> _. congruence.
    + injection Heq as -> Heq.
      destruct (IH pre Hf Hx Heq) as (pre' & -> & ->).
      exists pre'. auto.
Qed.

Lemma io_call_is_no_put (d : list call) :
  Forall (fun c => is_io_call c = true) d ->
  Forall (fun c => is_worker_queue_put c = false) d.
Proof.
  intros H. eapply Forall_impl; [exact H|]. intros []; simpl; congruence.
Qed.

(** C6: among the calls the submitter makes for a request, every put of a
    job on the worker queue comes after a call of
    [notify_expected_jobs_to_complete] for the request's transfer, and the
    job put is one of that transfer; the single and the ranged branch are
    both covered. *)
Theorem count_registered_before_any_put
    (calculate_range_parameter : Z -> Z -> Z -> string)
    (self : GetObjectSubmitter.t) (request : DownloadFileRequest.t)
    (w : World) (pre post : list call) (item : queue_item GetObjectJob) :
  calls (GetObjectSubmitter._submit_get_object_jobs
           calculate_range_parameter self request w).2
  = calls w ++ pre ++ Call_worker_queue_put item :: post ->
  exists (job : GetObjectJob) (num_jobs : Z),
    item = Item job
    /\ transfer_id job = DownloadFileRequest.transfer_id request
    /\ In (Call_notify_expected_jobs_to_complete
             (DownloadFileRequest.transfer_id request) num_jobs) pre.
Proof.
  intros Hcalls.
  destruct (submit_get_object_jobs_cases calculate_range_parameter
              self request w)
    as [(e & _ & Hio)|(w2 & n & jobs & Hr & Hio & Hjobs)].
  - destruct Hio as (_ & _ & _ & d & Hd & Hio).
    rewrite Hd in Hcalls. apply app_inv_head in Hcalls.
    apply io_call_is_no_put in Hio.
    rewrite Hcalls in Hio. apply Forall_app in Hio as [_ Hio].
    apply Forall_cons in Hio as [Hput _]. discriminate.
  - rewrite Hr in Hcalls. simpl in Hcalls.
    destruct Hio as (_ & _ & _ & d & Hd & Hio).
    rewrite Hd, <- app_assoc in Hcalls. apply app_inv_head in Hcalls.
    apply io_call_is_no_put in Hio.
    change (d ++ _ :: ?l)
      with (d ++ [Call_notify_expected_jobs_to_complete
                    (DownloadFileRequest.transfer_id request) n] ++ l)
      in Hcalls.
    rewrite app_assoc in Hcalls.
    apply (split_after_front is_worker_queue_put) in Hcalls
      as (pre' & -> & Hback); [| |reflexivity].
    2:{ apply Forall_app. split; [assumption|]. repeat constructor. }
    assert (Hin : In (Call_worker_queue_put item)
                    ((fun job => Call_worker_queue_put (Item job)) <$> jobs)).
    { rewrite Hback. apply in_elt. }
    apply in_map_iff in Hin as (job & Hjob & Hin).
    injection Hjob as <-.
    exists job, n. split; [reflexivity|]. split.
    + rewrite Forall_forall in Hjobs. apply Hjobs.
      apply list_elem_of_In. exact Hin.
    + apply in_or_app. left. apply in_or_app. right. left. reflexivity.
Qed.

Lemma count_registered_before_any_put_witness :
  exists (job : GetObjectJob) (num_jobs : Z),
    Item (GetObjectSubmitter.ranged_job utils.calculate_range_parameter
            (Fixture.request None) "file.tmp" 8 3 1) = Item job
    /\ transfer_id job = 0%nat
    /\ In (Call_notify_expected_jobs_to_complete 0 num_jobs)
         [Call_head_object "bucket" "key" [("VersionId", "1")];
          Call_allocate "file.tmp" 20;
          Call_notify_expected_jobs_to_complete 0 3;
          Call_worker_queue_put
            (Item (GetObjectSubmitter.ranged_job
                     utils.calculate_range_parameter
                     (Fixture.request None) "file.tmp" 8 3 0))].
Proof.
  apply (count_registered_before_any_put utils.calculate_range_parameter
           Fixture.submitter (Fixture.request None) empty_world _
           [Call_worker_queue_put
              (Item (GetObjectSubmitter.ranged_job
                       utils.calculate_range_parameter
                       (Fixture.request None) "file.tmp" 8 3 2))]).
  vm_compute. reflexivity.
Defined.



Example submitter_goes_on_after_a_failure :
  let self := Fixture.submitter_with (Fixture.flaky_client 0) in
  let r := GetObjectSubmitter.run utils.calculate_range_parameter 3 self
             (with_download_request_queue
                [Item (Fixture.request None);
                 Item (Fixture.request (Some 5));
                 SHUTDOWN_SIGNAL] empty_world) in
  r.1 = Return Returned
  /\ worker_queue r.2
     = [Item (single_job (Fixture.request (Some 5)) "file.tmp")].
Proof. split; vm_compute; reflexivity. Qed.

(** ** Writing into the temp file *)

Section FileWrite.
Local Open Scope nat_scope.
Implicit Types (content chunk : list byte) (pos i k : nat).

Lemma file_write_cons content pos b chunk :
  file_write content pos (b :: chunk) =
  (take pos content ++ replicate (pos - length content) x00)
    ++ (b :: chunk) ++ drop (pos + length (b :: chunk)) content.
Proof. unfold file_write. rewrite <- app_assoc. reflexivity. Qed.

Lemma file_write_front_length content pos :
  length (take pos content ++ replicate (pos - length content) x00) = pos.
Proof. rewrite length_app, length_take, length_replicate. lia. Qed.

Lemma file_write_length content pos chunk :
  chunk <> [] ->
  length (file_write content pos chunk)
  = max (length content) (pos + length chunk).
Proof.
  destruct chunk as [|b chunk]; [congruence|]. intros _.
  rewrite file_write_cons, length_app, file_write_front_length.
  rewrite length_app, length_drop. lia.
Qed.

Lemma file_write_lookup_outside content pos chunk i :
  i < length content ->
  i < pos \/ pos + length chunk <= i ->
  file_write content pos chunk !! i = content !! i.
Proof.
  destruct chunk as [|b chunk]; [reflexivity|]. intros Hi Hout.
  rewrite file_write_cons.
  pose proof (file_write_front_length content pos) as Hfront.
  destruct Hout as [Hlt|Hge].
  - rewrite lookup_app_l by lia.
    rewrite lookup_app_l by (rewrite length_take; lia).
    apply lookup_take_lt. exact Hlt.
  - rewrite lookup_app_r by lia. rewrite Hfront.
    rewrite lookup_app_r by lia. rewrite lookup_drop. f_equal. lia.
Qed.

Lemma file_write_lookup_inside content pos chunk k :
  k < length chunk ->
  file_write content pos chunk !! (pos + k) = chunk !! k.
Proof.
  destruct chunk as [|b chunk]; [simpl; lia|]. intros Hk.
  rewrite file_write_cons.
  pose proof (file_write_front_length content pos) as Hfront.
  rewrite lookup_app_r by lia. rewrite Hfront.
  rewrite lookup_app_l by lia. f_equal. lia.
Qed.

(** The loop over the reads: the file does not shrink, the bytes outside
    [pos, pos + length data) stay, and the bytes inside are the data. *)
Lemma write_chunks_frame (reads : list (list byte)) (read_error : option exn) :
  forall content pos,
    let content' :=
      (GetObjectWorker.write_chunks reads read_error content pos).2 in
    let data := read_until_empty reads in
    length content <= length content'
    /\ (forall i, i < length content ->
                  i < pos \/ pos + length data <= i ->
                  content' !! i = content !! i)
    /\ (forall k, k < length data -> content' !! (pos + k) = data !! k).
Proof.
  induction reads as [|chunk reads IH]; intros content pos.
  - simpl. destruct read_error; simpl; (split; [lia|]); (split; [auto | lia]).
  - destruct chunk as [|b chunk].
    { simpl. split; [lia|]. split; [auto | lia]. }
    set (chunk' := b :: chunk) in *.
    change (GetObjectWorker.write_chunks (chunk' :: reads) read_error
              content pos)
      with (GetObjectWorker.write_chunks reads read_error
              (file_write content pos chunk') (pos + length chunk')).
    change (read_until_empty (chunk' :: reads))
      with (chunk' ++ read_until_empty reads).
    specialize (IH (file_write content pos chunk') (pos + length chunk')).
    cbv zeta in IH |- *. destruct IH as (Hlen & Hout & Hin).
    assert (Hlen1 : length (file_write content pos chunk')
                    = max (length content) (pos + length chunk')).
    { apply file_write_length. discriminate. }
    rewrite length_app.
    split; [lia|]. split.
    + intros i Hi Hrange. rewrite Hout by lia.
      apply file_write_lookup_outside; lia.
    + intros k Hk. destruct (decide (k < length chunk')) as [Hlt|Hge].
      * rewrite Hout by lia. rewrite lookup_app_l by lia.
        apply file_write_lookup_inside. exact Hlt.
      * rewrite lookup_app_r by lia.
        rewrite <- (Hin (k - length chunk')) by lia. f_equal. lia.
Qed.
End FileWrite.

(** C10: [_write_to_file] changes only the bytes from the offset up to the
    offset plus the length of the body: the file is not truncated, every byte
    it had outside that range keeps its value, the bytes inside are the
    body's, and no other file is touched. *)
Theorem write_to_file_keeps_other_bytes
    (self : GetObjectWorker.t) (filename : string) (offset : Z)
    (body : StreamingBody) (w : World) (content : list byte) :
  files w !! filename = Some content ->
  0 <= offset ->
  let w' := (GetObjectWorker._write_to_file self filename offset body w).2 in
  let data := read_until_empty (reads body) in
  let start := Z.to_nat offset in
  exists content' : list byte,
    files w' !! filename = Some content'
    /\ (length content <= length content')%nat
    /\ (forall i : nat,
          (i < length content)%nat ->
          (i < start)%nat \/ (start + length data <= i)%nat ->
          content' !! i = content !! i)
    /\ (forall k : nat,
          (k < length data)%nat -> content' !! (start + k)%nat = data !! k)
    /\ (forall other : string,
          other <> filename -> files w' !! other = files w !! other).
Proof.
  intros Hfile Hoff w' data start. subst w' start.
  unfold GetObjectWorker._write_to_file. rewrite Hfile.
  apply Z.ltb_ge in Hoff. rewrite Hoff.
  pose proof (write_chunks_frame (reads body) (read_error body) content
                (Z.to_nat offset)) as Hframe.
  cbv zeta in Hframe. fold data in Hframe.
  destruct (GetObjectWorker.write_chunks (reads body) (read_error body)
              content (Z.to_nat offset)) as [r content'] eqn:E.
  simpl in *. exists content'.
  split; [apply lookup_insert_eq|].
  destruct Hframe as (Hlen & Hout & Hin).
  repeat split; try assumption.
  intros other Hne. apply lookup_insert_ne. congruence.
Qed.

Lemma write_to_file_keeps_other_bytes_witness :
  let w := with_files {[ "file.tmp" := [x0a; x0b; x0c; x0d; x0e; x0f] ]}
             empty_world in
  let w' := (GetObjectWorker._write_to_file Fixture.worker "file.tmp" 2
               {| reads := [[x01; x02]; [x03]]; read_error := None |} w).2 in
  exists content' : list byte,
    files w' !! "file.tmp" = Some content'
    /\ content' !! 0%nat = Some x0a
    /\ content' !! 1%nat = Some x0b
    /\ content' !! 5%nat = Some x0f.
Proof.
  destruct (write_to_file_keeps_other_bytes Fixture.worker "file.tmp" 2
              {| reads := [[x01; x02]; [x03]]; read_error := None |}
              (with_files {[ "file.tmp" := [x0a; x0b; x0c; x0d; x0e; x0f] ]}
                 empty_world)
              [x0a; x0b; x0c; x0d; x0e; x0f])
    as (content' & Hf & _ & Hout & _); [vm_compute; reflexivity | lia |].
  exists content'. split; [exact Hf|].
  repeat split; apply Hout; simpl; lia.
Defined.

Example write_to_file_in_place :
  files (GetObjectWorker._write_to_file Fixture.worker "file.tmp" 2
           {| reads := [[x01; x02]; [x03]]; read_error := None |}
           (with_files {[ "file.tmp" := [x0a; x0b; x0c; x0d; x0e; x0f] ]}
              empty_world)).2 !! "file.tmp"
  = Some [x0a; x0b; x01; x02; x03; x0f].
Proof. vm_compute. reflexivity. Qed.

(** ** Retries *)

Section Retries.
Variable S3_RETRYABLE_DOWNLOAD_ERRORS : exn -> bool.
Variable self : GetObjectWorker.t.
Variable job : GetObjectJob.

Local Abbreviation attempt :=
  (GetObjectWorker.attempt S3_RETRYABLE_DOWNLOAD_ERRORS self
     (bucket job) (key job) (extra_args job) (temp_filename job)
     (offset job)).
Local Abbreviation attempts_loop n last :=
  (GetObjectWorker.attempts_loop S3_RETRYABLE_DOWNLOAD_ERRORS n last self
     (bucket job) (key job) (extra_args job) (temp_filename job)
     (offset job)).
Local Abbreviation caught :=
  (caught_attempts S3_RETRYABLE_DOWNLOAD_ERRORS self job).

Lemma attempt_catches_retryable w e w' :
  attempt w = (Return (Some e), w') -> S3_RETRYABLE_DOWNLOAD_ERRORS e = true.
Proof.
  unfold GetObjectWorker.attempt.
  destruct (bind _ _ w) as [[[]|e'] w1]; [discriminate|].
  destruct (S3_RETRYABLE_DOWNLOAD_ERRORS e') eqn:E; [|discriminate].
  intros [= <- _]. exact E.
Qed.

Lemma attempt_lets_others_through w e w' :
  attempt w = (Raise e, w') -> S3_RETRYABLE_DOWNLOAD_ERRORS e = false.
Proof.
  unfold GetObjectWorker.attempt.
  destruct (bind _ _ w) as [[[]|e'] w1]; [discriminate|].
  destruct (S3_RETRYABLE_DOWNLOAD_ERRORS e') eqn:E; [discriminate|].
  intros [= <- _]. exact E.
Qed.

(** One attempt is one call of [get_object]. *)
Lemma attempt_get_object_count w :
  get_object_count (attempt w).2 = S (get_object_count w).
Proof.
  unfold GetObjectWorker.attempt, bind, client_get_object.
  destruct (get_object _ _ _ _ _) as [body|e]; simpl.
  - unfold GetObjectWorker._write_to_file. simpl.
    destruct (files w !! temp_filename job); simpl.
    + destruct (offset job <? 0); simpl.
      * destruct (S3_RETRYABLE_DOWNLOAD_ERRORS _); reflexivity.
      * destruct (GetObjectWorker.write_chunks _ _ _ _) as [[[]|e] c]; simpl;
          [reflexivity|].
        destruct (S3_RETRYABLE_DOWNLOAD_ERRORS _); reflexivity.
    + destruct (S3_RETRYABLE_DOWNLOAD_ERRORS _); reflexivity.
  - destruct (S3_RETRYABLE_DOWNLOAD_ERRORS _); reflexivity.
Qed.

Lemma attempts_loop_get_object_count n last w :
  (get_object_count (attempts_loop n last w).2 <= get_object_count w + n)%nat.
Proof.
  revert last w. induction n as [|n IH]; intros last w; simpl.
  - lia.
  - unfold bind.
    pose proof (attempt_get_object_count w) as Hc.
    destruct (GetObjectWorker.attempt _ _ _ _ _ _ _ w) as [[[e|]|e] w1];
      simpl in *; try lia.
    specialize (IH (Some e) w1). lia.
Qed.

Lemma attempts_loop_after_caught n m last w last' w1 :
  caught n last w = Some (last', w1) ->
  attempts_loop (n + m) last w = attempts_loop m last' w1.
Proof.
  revert last w. induction n as [|n IH]; intros last w; simpl.
  - intros [= -> ->]. reflexivity.
  - unfold bind.
    destruct (GetObjectWorker.attempt _ _ _ _ _ _ _ w) as [[[e|]|e] w'];
      try discriminate.
    intros H. apply IH. exact H.
Qed.

Lemma caught_attempts_last n last w last' w1 :
  caught (S n) last w = Some (last', w1) ->
  exists e, last' = Some e /\ S3_RETRYABLE_DOWNLOAD_ERRORS e = true.
Proof.
  revert last w. induction n as [|n IH]; intros last w.
  - simpl.
    destruct (attempt w) as [[[e|]|e] w'] eqn:E; try discriminate.
    intros [= <- <-]. exists e. split; [reflexivity|].
    eapply attempt_catches_retryable. exact E.
  - cbn [caught_attempts].
    destruct (attempt w) as [[[e|]|e] w'] eqn:E; try discriminate.
    intros H. apply (IH (Some e) w'). exact H.
Qed.
End Retries.

(** C5: after [n < _MAX_ATTEMPTS] attempts that each ended in a retryable
    error, the next attempt decides: if it succeeds, the job is done and
    nothing is recorded; if it raises an error that is not retryable, that
    error is recorded with [notify_exception] at once, without another
    attempt; if it ends in a retryable error and was the last of the
    [_MAX_ATTEMPTS], [RetriesExceededError] wrapping that error is raised and
    recorded.  Only retryable errors are caught, and [get_object] is never
    called more than [_MAX_ATTEMPTS] times. *)
Theorem bounded_retry_of_get_object
    (S3_RETRYABLE_DOWNLOAD_ERRORS : exn -> bool)
    (self : GetObjectWorker.t) (job : GetObjectJob)
    (w w1 : World) (n : nat) (last_exception : option exn) :
  (n < GetObjectWorker._MAX_ATTEMPTS)%nat ->
  caught_attempts S3_RETRYABLE_DOWNLOAD_ERRORS self job n None w
    = Some (last_exception, w1) ->
  let t := transfer_id job in
  let attempt :=
    GetObjectWorker.attempt S3_RETRYABLE_DOWNLOAD_ERRORS self
      (bucket job) (key job) (extra_args job) (temp_filename job)
      (offset job) in
  let _do_get_object :=
    GetObjectWorker._do_get_object S3_RETRYABLE_DOWNLOAD_ERRORS self
      (bucket job) (key job) (extra_args job) (temp_filename job)
      (offset job) in
  let _run_get_object_job :=
    GetObjectWorker._run_get_object_job S3_RETRYABLE_DOWNLOAD_ERRORS self job in
  get_object_count w1 = (get_object_count w + n)%nat
  /\ (get_object_count (_do_get_object w).2
      <= get_object_count w + GetObjectWorker._MAX_ATTEMPTS)%nat
  /\ (forall w2,
        attempt w1 = (Return None, w2) ->
        _do_get_object w = (Return tt, w2)
        /\ _run_get_object_job w = (Return tt, w2))
  /\ (forall e w2,
        attempt w1 = (Raise e, w2) ->
        S3_RETRYABLE_DOWNLOAD_ERRORS e = false
        /\ _do_get_object w = (Raise e, w2)
        /\ _run_get_object_job w
           = (Return tt, (Monitor.notify_exception t e w2).2))
  /\ (forall e w2,
        attempt w1 = (Return (Some e), w2) ->
        S3_RETRYABLE_DOWNLOAD_ERRORS e = true
        /\ (S n = GetObjectWorker._MAX_ATTEMPTS ->
            _do_get_object w = (Raise (RetriesExceededError (Some e)), w2)
            /\ _run_get_object_job w
               = (Return tt,
                  (Monitor.notify_exception t
                     (RetriesExceededError (Some e)) w2).2)
            /\ TransferState.exception
                 (monitor (_run_get_object_job w).2 !!! t)
               = Some (RetriesExceededError (Some e)))).
Proof.
  intros Hn Hcaught t attempt _do_get_object _run_get_object_job.
  assert (Hloop : forall m,
             GetObjectWorker.attempts_loop S3_RETRYABLE_DOWNLOAD_ERRORS
               (n + m) None self (bucket job) (key job) (extra_args job)
               (temp_filename job) (offset job) w
             = GetObjectWorker.attempts_loop S3_RETRYABLE_DOWNLOAD_ERRORS
               m last_exception self (bucket job) (key job) (extra_args job)
               (temp_filename job) (offset job) w1).
  { intros m. eapply attempts_loop_after_caught. exact Hcaught. }
  assert (Hdo : _do_get_object w
                = GetObjectWorker.attempts_loop S3_RETRYABLE_DOWNLOAD_ERRORS
                    (GetObjectWorker._MAX_ATTEMPTS - n) last_exception self
                    (bucket job) (key job) (extra_args job)
                    (temp_filename job) (offset job) w1).
  { rewrite <- Hloop. subst _do_get_object.
    unfold GetObjectWorker._do_get_object. f_equal. lia. }
  split.
  { clear -Hcaught. revert w Hcaught. generalize (@None exn).
    induction n as [|k IH]; intros last w; simpl.
    - intros [= _ ->]. lia.
    - pose proof (attempt_get_object_count S3_RETRYABLE_DOWNLOAD_ERRORS
                    self job w) as Hc.
      destruct (GetObjectWorker.attempt _ _ _ _ _ _ _ w) as [[[e|]|e] w'];
        try discriminate.
      intros H. apply IH in H. simpl in Hc. lia. }
  split.
  { apply (attempts_loop_get_object_count S3_RETRYABLE_DOWNLOAD_ERRORS
             self job). }
  destruct (GetObjectWorker._MAX_ATTEMPTS - n)%nat as [|m] eqn:Hm; [lia|].
  simpl in Hdo. unfold bind in Hdo. fold attempt in Hdo.
  subst _run_get_object_job. unfold GetObjectWorker._run_get_object_job,
    try_except. fold _do_get_object.
  split; [|split].
  - intros w2 Ha. rewrite Hdo, Ha. auto.
  - intros e w2 Ha. rewrite Hdo, Ha.
    split; [eapply attempt_lets_others_through; exact Ha | auto].
  - intros e w2 Ha.
    split; [eapply attempt_catches_retryable; exact Ha|].
    intros Hlast. assert (m = 0%nat) as -> by lia.
    rewrite Hdo, Ha. simpl. repeat split.
    rewrite notify_exception_lookup, decide_True by reflexivity. reflexivity.
Qed.

Lemma bounded_retry_of_get_object_witness :
  exists w2 : World,
    GetObjectWorker._run_get_object_job Fixture.retryable
      (Fixture.worker_with (Fixture.flaky_client 2)) Fixture.job
      Fixture.allocated = (Return tt, w2)
    /\ get_object_count w2 = 3%nat
    /\ TransferState.exception (monitor w2 !!! 0%nat) = None.
Proof.
  pose proof (bounded_retry_of_get_object Fixture.retryable
                (Fixture.worker_with (Fixture.flaky_client 2)) Fixture.job
                Fixture.allocated
                (GetObjectWorker.attempts_loop Fixture.retryable 2 None
                   (Fixture.worker_with (Fixture.flaky_client 2))
                   "bucket" "key" [("VersionId", "1")] "file.tmp" 0
                   Fixture.allocated).2
                2 (Some Fixture.timeout)) as H.
  destruct H as (_ & _ & Hok & _).
  - unfold GetObjectWorker._MAX_ATTEMPTS. lia.
  - vm_compute. reflexivity.
  - eexists. split; [|split].
    + apply Hok. vm_compute. reflexivity.
    + vm_compute. reflexivity.
    + vm_compute. reflexivity.
Defined.

Example five_timeouts_exceed_the_retries :
  let r := GetObjectWorker._run_get_object_job Fixture.retryable
             (Fixture.worker_with (Fixture.flaky_client 9)) Fixture.job
             Fixture.allocated in
  r.1 = Return tt
  /\ get_object_count r.2 = 5%nat
  /\ TransferState.exception (monitor r.2 !!! 0%nat)
     = Some (RetriesExceededError (Some Fixture.timeout)).
Proof. repeat split; vm_compute; reflexivity. Qed.

Example refusal_is_not_retried :
  let r := GetObjectWorker._run_get_object_job Fixture.retryable
             (Fixture.worker_with (Fixture.refusing_client 1)) Fixture.job
             Fixture.allocated in
  r.1 = Return tt
  /\ get_object_count r.2 = 2%nat
  /\ TransferState.exception (monitor r.2 !!! 0%nat) = Some Fixture.denied.
Proof. repeat split; vm_compute; reflexivity. Qed.

(** ** Finalize *)

Lemma get_exception_world (t : nat) (w : World) :
  exists m,
    Monitor.get_exception t w
    = (Return (TransferState.exception (monitor w !!! t)), with_monitor m w)
    /\ forall t', m !!! t' = monitor w !!! t'.
Proof.
  unfold Monitor.get_exception.
  pose proof (get_exception_value (monitor w) t) as Hv.
  pose proof (get_exception_lookup (monitor w) t) as Hl.
  destruct (TransferMonitor.get_exception (monitor w) t) as [e m].
  simpl in *. subst e. eauto.
Qed.

(** C4: [_finalize_download] always returns after calling [notify_done].
    With a failure recorded it deletes the temp file and creates nothing, and
    the poll raises that failure; with none recorded it renames the temp file
    to the destination; and when that rename raises, the error is recorded
    and the temp file deleted. *)
Theorem finalize_download_cases
    (self : GetObjectWorker.t) (t : nat) (temp_filename filename : string)
    (w : World) :
  let st := monitor w !!! t in
  let osutil := GetObjectWorker._osutil self in
  let r := GetObjectWorker._finalize_download self t temp_filename filename w in
  r.1 = Return tt
  /\ TransferState.done (monitor r.2 !!! t) = true
  /\ (exists d, calls r.2 = calls w ++ d ++ [Call_notify_done t])
  /\ (forall e,
        TransferState.exception st = Some e ->
        files r.2 = delete temp_filename (files w)
        /\ calls r.2
           = calls w ++ [Call_remove_file temp_filename; Call_notify_done t]
        /\ (TransferMonitor.poll_for_result (monitor r.2) t false).1
           = Raises (Exc e))
  /\ (TransferState.exception st = None ->
      forall w1,
        utils.OSUtils.rename_file osutil temp_filename filename w
          = (Return tt, w1) ->
        (exists content,
            files w !! temp_filename = Some content
            /\ files r.2
               = <[filename := content]> (delete temp_filename (files w)))
        /\ calls r.2
           = calls w ++ [Call_rename_file temp_filename filename;
                         Call_notify_done t]
        /\ (TransferMonitor.poll_for_result (monitor r.2) t false).1
           = Returns tt)
  /\ (TransferState.exception st = None ->
      forall e w1,
        utils.OSUtils.rename_file osutil temp_filename filename w
          = (Raise e, w1) ->
        files r.2 = delete temp_filename (files w)
        /\ calls r.2
           = calls w ++ [Call_rename_file temp_filename filename;
                         Call_notify_exception t e;
                         Call_remove_file temp_filename;
                         Call_notify_done t]
        /\ (TransferMonitor.poll_for_result (monitor r.2) t false).1
           = Raises (Exc e)).
Proof.
  intros st osutil r.
  assert (Hr : r = GetObjectWorker._finalize_download self t temp_filename
                     filename w) by reflexivity.
  clearbody r.
  unfold GetObjectWorker._finalize_download, bind in Hr.
  destruct (get_exception_world t w) as (m & Hget & Hm).
  rewrite Hget in Hr. fold st in Hr.
  destruct (TransferState.exception st) as [e|] eqn:Hexc;
    unfold TransferState.exception in Hexc.
  - (* a failure is recorded *)
    open_world. subst r. simpl.
    rewrite !poll_for_result_outcome, !notify_done_lookup.
    rewrite !decide_True by reflexivity. rewrite Hm. fold st. simpl.
    rewrite Hexc.
    split; [reflexivity|]. split; [reflexivity|].
    split; [exists [Call_remove_file temp_filename];
            rewrite <- app_assoc; reflexivity|].
    split; [|split; intros; discriminate].
    intros e' [= <-]. rewrite <- app_assoc. auto.
  - unfold GetObjectWorker._do_file_rename, try_except in Hr.
    fold osutil in Hr.
    assert (Hrename :
      forall mw, utils.OSUtils.rename_file osutil temp_filename filename
                   (with_monitor mw w)
      = match (utils.OSUtils.rename_file osutil temp_filename filename w) with
        | (r, w1) => (r, with_monitor mw w1)
        end).
    { intros mw. unfold utils.OSUtils.rename_file. simpl.
      destruct (utils.OSUtils.rename_fault _ _ _); [reflexivity|].
      destruct (files w !! temp_filename); reflexivity. }
    rewrite Hrename in Hr.
    destruct (utils.OSUtils.rename_file osutil temp_filename filename w)
      as [[[]|e] w1] eqn:Hren.
    + (* the rename succeeds *)
      assert (Hw1 : exists content,
                 files w !! temp_filename = Some content
                 /\ w1 = with_files
                           (<[filename := content]>
                              (delete temp_filename (files w)))
                           (record_call
                              (Call_rename_file temp_filename filename) w)).
      { unfold utils.OSUtils.rename_file in Hren.
        destruct (utils.OSUtils.rename_fault _ _ _); [discriminate|].
        simpl in Hren. destruct (files w !! temp_filename) as [content|];
          [|discriminate].
        injection Hren as <-. eauto. }
      destruct Hw1 as (content & Hfile & ->).
      open_world. subst r. simpl.
      rewrite !poll_for_result_outcome, !notify_done_lookup.
      rewrite !decide_True by reflexivity. rewrite Hm. fold st. simpl.
      rewrite Hexc.
      split; [reflexivity|]. split; [reflexivity|].
      split; [exists [Call_rename_file temp_filename filename];
              rewrite <- app_assoc; reflexivity|].
      split; [intros; discriminate|].
      split; [|intros _ e w1' [=]].
      intros _ w1' _. rewrite <- app_assoc. eauto.
    + (* the rename fails *)
      assert (Hw1 : w1 = record_call
                           (Call_rename_file temp_filename filename) w).
      { unfold utils.OSUtils.rename_file in Hren.
        destruct (utils.OSUtils.rename_fault _ _ _);
          [injection Hren as _ <-; reflexivity|].
        simpl in Hren. destruct (files w !! temp_filename);
          [discriminate | injection Hren as _ <-; reflexivity]. }
      subst w1. open_world. subst r. simpl.
      rewrite !poll_for_result_outcome, !notify_done_lookup.
      rewrite !decide_True by reflexivity.
      rewrite !notify_exception_lookup, !decide_True by reflexivity. simpl.
      split; [reflexivity|]. split; [reflexivity|].
      split; [exists [Call_rename_file temp_filename filename;
                      Call_notify_exception t e;
                      Call_remove_file temp_filename];
              rewrite <- !app_assoc; reflexivity|].
      split; [intros; discriminate|].
      split; [intros _ w1' [=]|].
      intros _ e' w1' [= <- _]. rewrite <- !app_assoc. auto.
Qed.

Lemma finalize_download_cases_witness :
  let failed := (Monitor.notify_exception 0 CancelledError
                   Fixture.allocated).2 in
  let refused :=
    {| GetObjectWorker._client := Fixture.client;
       GetObjectWorker._osutil := Fixture.failing_rename |} in
  files (GetObjectWorker._finalize_download Fixture.worker 0
           "file.tmp" "file" failed).2 = delete "file.tmp" (files failed)
  /\ (exists content,
        files Fixture.allocated !! "file.tmp" = Some content
        /\ files (GetObjectWorker._finalize_download Fixture.worker 0
                    "file.tmp" "file" Fixture.allocated).2
           = <["file" := content]>
               (delete "file.tmp" (files Fixture.allocated)))
  /\ (TransferMonitor.poll_for_result
        (monitor (GetObjectWorker._finalize_download refused 0
                    "file.tmp" "file" Fixture.allocated).2) 0 false).1
     = Raises (Exc (OSError "Permission denied")).
Proof.
  cbv zeta. split; [|split].
  - destruct (finalize_download_cases Fixture.worker 0 "file.tmp" "file"
                (Monitor.notify_exception 0 CancelledError
                   Fixture.allocated).2) as (_ & _ & _ & H & _).
    destruct (H CancelledError) as (Hf & _); [vm_compute; reflexivity|].
    exact Hf.
  - destruct (finalize_download_cases Fixture.worker 0 "file.tmp" "file"
                Fixture.allocated) as (_ & _ & _ & _ & H & _).
    destruct (H ltac:(vm_compute; reflexivity)
                (utils.OSUtils.rename_file Fixture.osutil "file.tmp" "file"
                   Fixture.allocated).2) as (Hf & _);
      [vm_compute; reflexivity|].
    exact Hf.
  - destruct (finalize_download_cases
                {| GetObjectWorker._client := Fixture.client;
                   GetObjectWorker._osutil := Fixture.failing_rename |}
                0 "file.tmp" "file" Fixture.allocated)
      as (_ & _ & _ & _ & _ & H).
    destruct (H ltac:(vm_compute; reflexivity) (OSError "Permission denied")
                (utils.OSUtils.rename_file Fixture.failing_rename
                   "file.tmp" "file" Fixture.allocated).2) as (_ & _ & Hp);
      [vm_compute; reflexivity|].
    exact Hp.
Defined.

(** ** What the worker's calls leave of the counts *)

Lemma keeps_counts_refl w : keeps_counts w w.
Proof. split; auto. Qed.

Lemma keeps_counts_trans w1 w2 w3 :
  keeps_counts w1 w2 -> keeps_counts w2 w3 -> keeps_counts w1 w3.
Proof.
  intros [Hq Hm] [Hq' Hm']. split; [congruence|].
  intros t. rewrite Hm', Hm. reflexivity.
Qed.

Lemma keeps_counts_bind {A B} (m : M A) (k : A -> M B) :
  (forall w, keeps_counts w (m w).2) ->
  (forall a w, keeps_counts w (k a w).2) ->
  forall w, keeps_counts w (bind m k w).2.
Proof.
  intros Hm Hk w. unfold bind. specialize (Hm w).
  destruct (m w) as [[a|e] w']; simpl in *; [|assumption].
  eapply keeps_counts_trans; [exact Hm | apply Hk].
Qed.

Lemma keeps_counts_try_except {A} (m : M A) (handler : exn -> M A) :
  (forall w, keeps_counts w (m w).2) ->
  (forall e w, keeps_counts w (handler e w).2) ->
  forall w, keeps_counts w (try_except m handler w).2.
Proof.
  intros Hm Hh w. unfold try_except. specialize (Hm w).
  destruct (m w) as [[a|e] w']; simpl in *; [assumption|].
  eapply keeps_counts_trans; [exact Hm | apply Hh].
Qed.

Lemma notify_exception_keeps_counts t e w :
  keeps_counts w (Monitor.notify_exception t e w).2.
Proof.
  split; [reflexivity|]. intros t'. simpl.
  rewrite notify_exception_lookup. case_decide; [subst|]; reflexivity.
Qed.

Lemma notify_done_keeps_counts t w :
  keeps_counts w (Monitor.notify_done t w).2.
Proof.
  split; [reflexivity|]. intros t'. simpl.
  rewrite notify_done_lookup. case_decide; [subst|]; reflexivity.
Qed.

Lemma get_exception_keeps_counts t w :
  keeps_counts w (Monitor.get_exception t w).2.
Proof.
  destruct (get_exception_world t w) as (m & -> & Hm).
  split; [reflexivity|]. intros t'. simpl. rewrite Hm. reflexivity.
Qed.

Lemma remove_file_keeps_counts osutil f w :
  keeps_counts w (utils.OSUtils.remove_file osutil f w).2.
Proof. split; reflexivity. Qed.

Lemma rename_file_keeps_counts osutil f g w :
  keeps_counts w (utils.OSUtils.rename_file osutil f g w).2.
Proof.
  unfold utils.OSUtils.rename_file.
  destruct (utils.OSUtils.rename_fault _ _ _); [split; reflexivity|].
  simpl. destruct (files w !! f); split; reflexivity.
Qed.

Lemma client_get_object_keeps_counts client b k ea w :
  keeps_counts w (client_get_object client b k ea w).2.
Proof. split; reflexivity. Qed.

Lemma write_to_file_keeps_counts self f off body w :
  keeps_counts w (GetObjectWorker._write_to_file self f off body w).2.
Proof.
  unfold GetObjectWorker._write_to_file.
  destruct (files w !! f); [|apply keeps_counts_refl].
  destruct (off <? 0); [apply keeps_counts_refl|].
  destruct (GetObjectWorker.write_chunks _ _ _ _). split; reflexivity.
Qed.

Section WorkerCalls.
Variable S3_RETRYABLE_DOWNLOAD_ERRORS : exn -> bool.
Variable self : GetObjectWorker.t.

Lemma attempt_keeps_counts b k ea f off w :
  keeps_counts w
    (GetObjectWorker.attempt S3_RETRYABLE_DOWNLOAD_ERRORS self
       b k ea f off w).2.
Proof.
  unfold GetObjectWorker.attempt.
  pose proof (keeps_counts_bind
                (client_get_object (GetObjectWorker._client self) b k ea)
                (fun body => GetObjectWorker._write_to_file self f off body)
                (client_get_object_keeps_counts _ b k ea)
                (fun body => write_to_file_keeps_counts self f off body) w)
    as H.
  destruct (bind _ _ w) as [[[]|e] w']; simpl in *; [assumption|].
  destruct (S3_RETRYABLE_DOWNLOAD_ERRORS e); assumption.
Qed.

Lemma attempts_loop_keeps_counts n last b k ea f off w :
  keeps_counts w
    (GetObjectWorker.attempts_loop S3_RETRYABLE_DOWNLOAD_ERRORS n last self
       b k ea f off w).2.
Proof.
  revert last w. induction n as [|n IH]; intros last w; simpl.
  - apply keeps_counts_refl.
  - apply keeps_counts_bind.
    + intros w0. apply attempt_keeps_counts.
    + intros [e|] w0; [apply IH | apply keeps_counts_refl].
Qed.

Lemma run_get_object_job_keeps_counts job w :
  keeps_counts w
    (GetObjectWorker._run_get_object_job S3_RETRYABLE_DOWNLOAD_ERRORS
       self job w).2.
Proof.
  unfold GetObjectWorker._run_get_object_job.
  apply keeps_counts_try_except.
  - intros w0. apply attempts_loop_keeps_counts.
  - intros e w0. apply notify_exception_keeps_counts.
Qed.

Lemma run_get_object_job_returns job w :
  (GetObjectWorker._run_get_object_job S3_RETRYABLE_DOWNLOAD_ERRORS
     self job w).1 = Return tt.
Proof.
  unfold GetObjectWorker._run_get_object_job, try_except.
  destruct (GetObjectWorker._do_get_object _ _ _ _ _ _ _ w) as [[[]|e] w'];
    reflexivity.
Qed.

Lemma do_file_rename_keeps_counts t f g w :
  keeps_counts w (GetObjectWorker._do_file_rename self t f g w).2.
Proof.
  unfold GetObjectWorker._do_file_rename.
  apply keeps_counts_try_except.
  - intros w0. apply rename_file_keeps_counts.
  - intros e. apply keeps_counts_bind.
    + intros w0. apply notify_exception_keeps_counts.
    + intros _ w0. apply remove_file_keeps_counts.
Qed.

Lemma do_file_rename_returns t f g w :
  (GetObjectWorker._do_file_rename self t f g w).1 = Return tt.
Proof.
  unfold GetObjectWorker._do_file_rename, try_except.
  destruct (utils.OSUtils.rename_file _ f g w) as [[[]|e] w'];
    reflexivity.
Qed.

Lemma finalize_download_keeps_counts t f g w :
  keeps_counts w (GetObjectWorker._finalize_download self t f g w).2.
Proof.
  unfold GetObjectWorker._finalize_download.
  apply keeps_counts_bind.
  - intros w0. apply get_exception_keeps_counts.
  - intros exception. apply keeps_counts_bind.
    + intros w0. destruct exception;
        [apply remove_file_keeps_counts | apply do_file_rename_keeps_counts].
    + intros _ w0. apply notify_done_keeps_counts.
Qed.

Lemma finalize_download_returns t f g w :
  (GetObjectWorker._finalize_download self t f g w).1 = Return tt.
Proof.
  unfold GetObjectWorker._finalize_download. unfold bind at 1.
  destruct (get_exception_world t w) as (m & -> & _).
  destruct (TransferState.exception (monitor w !!! t)).
  - reflexivity.
  - unfold bind.
    pose proof (do_file_rename_returns t f g (with_monitor m w)) as H.
    destruct (GetObjectWorker._do_file_rename self t f g _) as [r w'].
    simpl in H. subst r. reflexivity.
Qed.
End WorkerCalls.

(** ** Counting *)

Section Counting.
Local Open Scope nat_scope.
Context {A : Type}.
Implicit Types (f : A -> nat) (l : list A).

Lemma count_app f l1 l2 :
  Pool.count f (l1 ++ l2) = Pool.count f l1 + Pool.count f l2.
Proof.
  induction l1 as [|x l1 IH]; simpl; [reflexivity|].
  unfold Pool.count in *. simpl. rewrite IH. lia.
Qed.

Lemma count_snoc f l x : Pool.count f (l ++ [x]) = Pool.count f l + f x.
Proof. rewrite count_app. unfold Pool.count. simpl. lia. Qed.

Lemma count_cons f l x : Pool.count f (x :: l) = f x + Pool.count f l.
Proof. reflexivity. Qed.

Lemma count_insert f l i x y :
  l !! i = Some x ->
  Pool.count f (<[i := y]> l) + f x = Pool.count f l + f y.
Proof.
  unfold Pool.count.
  revert i. induction l as [|a l IH]; intros [|i] Hi; simpl in *;
    try discriminate.
  - injection Hi as ->. lia.
  - specialize (IH i Hi). lia.
Qed.

Lemma count_lookup_le f l i x : l !! i = Some x -> f x <= Pool.count f l.
Proof.
  unfold Pool.count.
  revert i. induction l as [|a l IH]; intros [|i] Hi; simpl in *;
    try discriminate.
  - injection Hi as ->. lia.
  - specialize (IH i Hi). lia.
Qed.

Lemma count_zero f l : Forall (fun x => f x = 0) l -> Pool.count f l = 0.
Proof.
  induction 1 as [|x l Hx _ IH]; [reflexivity|].
  rewrite count_cons, Hx, IH. reflexivity.
Qed.
End Counting.

(** ** One step of a worker *)

Section PoolSteps.
Variable S3_RETRYABLE_DOWNLOAD_ERRORS : exn -> bool.
Variable self : GetObjectWorker.t.

Local Abbreviation worker_step :=
  (Pool.worker_step S3_RETRYABLE_DOWNLOAD_ERRORS self).

Lemma of_transfer_le_1 t job : (Pool.of_transfer t job <= 1)%nat.
Proof. unfold Pool.of_transfer. case_decide; lia. Qed.

(** What a step of a worker changes, transfer by transfer: the count goes
    down exactly with a [Decremented] event, the queue loses exactly the
    job that was [Got], and the worker is about to finalize exactly after
    a decrement that returned zero. *)
Lemma worker_step_effect i pos w pos' w' ev t :
  worker_step i pos w = Some (pos', w', ev) ->
  Pool.is_died pos' = false
  /\ count_of t w' = count_of t w - Z.of_nat (Pool.is_decrement t ev)
  /\ (Pool.count (Pool.item_of_transfer t) (worker_queue w')
      + Pool.is_got t ev
      = Pool.count (Pool.item_of_transfer t) (worker_queue w))%nat
  /\ (Pool.before_decrement t pos' + Pool.is_decrement t ev
      = Pool.before_decrement t pos + Pool.is_got t ev)%nat
  /\ (Pool.about_to_finalize t pos' + Pool.is_finalize t ev
      = Pool.about_to_finalize t pos + Pool.is_decrement_to_zero t ev)%nat
  /\ (Pool.is_got t ev + Pool.is_decrement t ev <= 1)%nat
  /\ Pool.is_decrement_to_zero t ev
     = (if decide (count_of t w' = 0) then Pool.is_decrement t ev else 0%nat).
Proof.
  unfold Pool.worker_step, count_of.
  destruct pos as [|job|job|job|job| |e]; try discriminate.
  - (* get *)
    unfold worker_queue_get.
    destruct (worker_queue w) as [|[job|] q] eqn:Hq; [discriminate| |];
      intros [= <- <- <-]; simpl; rewrite ?count_cons; simpl.
    + pose proof (of_transfer_le_1 t job).
      repeat split; try lia; case_decide; reflexivity.
    + repeat split; try lia; case_decide; reflexivity.
  - (* get_exception *)
    destruct (get_exception_world (transfer_id job) w) as (m & -> & Hm).
    destruct (TransferState.exception _);
      intros [= <- <- <-]; simpl; rewrite Hm;
      repeat split; try lia; case_decide; reflexivity.
  - (* _run_get_object_job *)
    pose proof (run_get_object_job_returns S3_RETRYABLE_DOWNLOAD_ERRORS
                  self job w) as Hr.
    pose proof (run_get_object_job_keeps_counts S3_RETRYABLE_DOWNLOAD_ERRORS
                  self job w) as [Hq Hm].
    destruct (GetObjectWorker._run_get_object_job _ _ _ w) as [r w1].
    simpl in Hr, Hq, Hm. subst r.
    intros [= <- <- <-]; simpl; rewrite Hm, Hq;
      repeat split; try lia; case_decide; reflexivity.
  - (* notify_job_complete *)
    unfold Monitor.notify_job_complete.
    pose proof (notify_job_complete_value (monitor w) (transfer_id job))
      as Hv.
    pose proof (notify_job_complete_lookup (monitor w) (transfer_id job) t)
      as Hl.
    destruct (TransferMonitor.notify_job_complete _ _) as [remaining m].
    simpl in Hv, Hl. intros [= <- <- <-]. simpl.
    unfold Pool.of_transfer.
    destruct (decide (transfer_id job = t)) as [Heq|Hne]; simpl.
    + rewrite Heq in Hv, Hl. rewrite Hl, Hv.
      destruct (Z.eqb_spec (TransferState.jobs_to_complete (monitor w !!! t)
                            - 1) 0) as [H0|H0]; simpl;
        unfold Pool.of_transfer; rewrite ?decide_True by assumption;
        repeat split; try lia;
        try (case_decide; (reflexivity || contradiction)).
    + rewrite Hl. destruct (remaining =? 0); simpl;
        unfold Pool.of_transfer; rewrite ?decide_False by assumption;
        repeat split; try lia; case_decide; reflexivity.
  - (* _finalize_download *)
    pose proof (finalize_download_returns self (transfer_id job)
                  (temp_filename job) (filename job) w) as Hr.
    pose proof (finalize_download_keeps_counts self (transfer_id job)
                  (temp_filename job) (filename job) w) as [Hq Hm].
    destruct (GetObjectWorker._finalize_download _ _ _ _ w) as [r w1].
    simpl in Hr, Hq, Hm. subst r.
    intros [= <- <- <-]; simpl; rewrite Hm, Hq;
      repeat split; try lia; case_decide; reflexivity.
Qed.
End PoolSteps.

Section PoolInvariant.
Variable S3_RETRYABLE_DOWNLOAD_ERRORS : exn -> bool.
Variable self : GetObjectWorker.t.

Local Abbreviation step := (Pool.step S3_RETRYABLE_DOWNLOAD_ERRORS self).
Local Abbreviation run := (Pool.run S3_RETRYABLE_DOWNLOAD_ERRORS self).

Lemma initial_invariant s :
  Pool.initial s -> pool_invariant (fun t => Pool.outstanding t s) s.
Proof.
  intros (Hws & Htr & Hrem).
  assert (Hbefore : forall t, Pool.count (Pool.before_decrement t)
                                (Pool.workers s) = 0%nat).
  { intros t. apply count_zero. eapply Forall_impl; [exact Hws|].
    intros pos ->. reflexivity. }
  assert (Habout : forall t, Pool.count (Pool.about_to_finalize t)
                               (Pool.workers s) = 0%nat).
  { intros t. apply count_zero. eapply Forall_impl; [exact Hws|].
    intros pos ->. reflexivity. }
  split.
  { eapply Forall_impl; [exact Hws|]. intros pos ->. reflexivity. }
  intros t. specialize (Hbefore t). specialize (Habout t).
  unfold Pool.outstanding in *. rewrite Htr. simpl.
  split; [apply Hrem|]. repeat split; try lia.
  case_decide; lia.
Qed.

Lemma step_invariant n a s s' :
  pool_invariant n s -> step a s = Some s' -> pool_invariant n s'.
Proof.
  intros [Halive Hinv] Hstep.
  destruct a as [i| |t0]; simpl in Hstep.
  - (* a worker moves *)
    destruct (Pool.workers s !! i) as [pos|] eqn:Hpos; [|discriminate].
    destruct (Pool.worker_step _ _ i pos (Pool.world s))
      as [[[pos' w'] ev]|] eqn:Hw; [|discriminate].
    injection Hstep as <-.
    split.
    { simpl. apply Forall_insert; [assumption|].
      apply (worker_step_effect _ _ _ _ _ _ _ _ 0%nat Hw). }
    intros t. specialize (Hinv t).
    destruct Hinv as (Hrem & Hgot & Hdec & Hfin & Hzero).
    destruct (worker_step_effect _ _ _ _ _ _ _ _ t Hw)
      as (_ & Ecount & Equeue & Ebefore & Eabout & Eexcl & Ezero).
    unfold Pool.jobs_remaining, Pool.outstanding, count_of in *.
    simpl in *. rewrite !count_snoc.
    pose proof (count_insert (Pool.before_decrement t) _ i pos pos' Hpos)
      as Ib.
    pose proof (count_insert (Pool.about_to_finalize t) _ i pos pos' Hpos)
      as Ia.
    pose proof (count_lookup_le (Pool.before_decrement t) _ i pos Hpos)
      as Lb.
    set (q := Pool.count (Pool.item_of_transfer t)
                (worker_queue (Pool.world s))) in *.
    set (q' := Pool.count (Pool.item_of_transfer t) (worker_queue w')) in *.
    set (b := Pool.count (Pool.before_decrement t) (Pool.workers s)) in *.
    set (b' := Pool.count (Pool.before_decrement t)
                 (<[i:=pos']> (Pool.workers s))) in *.
    set (p := Pool.count (Pool.of_transfer t) (Pool.to_put s)) in *.
    assert (Hrem' : TransferState.jobs_to_complete (monitor w' !!! t)
                    = Z.of_nat (p + q' + b')) by lia.
    split; [exact Hrem'|].
    split; [lia|]. split; [lia|]. split; [lia|].
    rewrite Ezero, Hzero. rewrite Hrem'.
    repeat case_decide; lia.
  - (* the submitter puts a job *)
    destruct (Pool.to_put s) as [|job rest] eqn:Hput; [discriminate|].
    injection Hstep as <-.
    split; [exact Halive|].
    intros t. specialize (Hinv t).
    unfold Pool.jobs_remaining, Pool.outstanding in *. simpl in *.
    rewrite Hput in Hinv. rewrite !count_snoc, !count_cons in *. simpl.
    destruct Hinv as (Hrem & Hgot & Hdec & Hfin & Hzero).
    split; [rewrite Hrem; f_equal; lia|].
    split; [lia|]. split; [lia|]. split; [lia|].
    rewrite Nat.add_0_r, Hzero. repeat case_decide; lia.
  - (* a caller cancels *)
    injection Hstep as <-.
    split; [exact Halive|].
    intros t. specialize (Hinv t).
    unfold Pool.jobs_remaining, Pool.outstanding in *. simpl in *.
    rewrite !count_snoc. simpl.
    destruct Hinv as (Hrem & Hgot & Hdec & Hfin & Hzero).
    split.
    { rewrite <- Hrem, notify_exception_lookup.
      destruct (decide (t0 = t)) as [->|]; reflexivity. }
    rewrite !Nat.add_0_r. auto.
Qed.

Lemma run_invariant n schedule s s' :
  pool_invariant n s -> run schedule s = Some s' -> pool_invariant n s'.
Proof.
  revert s. induction schedule as [|a schedule IH]; intros s Hinv; simpl.
  - intros [= <-]. exact Hinv.
  - destruct (Pool.step _ _ a s) as [s1|] eqn:Hstep; [|discriminate].
    apply IH. eapply step_invariant; eassumption.
Qed.
End PoolInvariant.

(** A worker that holds a job is never stuck. *)
Lemma worker_with_job_can_step
    (S3_RETRYABLE_DOWNLOAD_ERRORS : exn -> bool) (self : GetObjectWorker.t)
    (s : Pool.state) (i : nat) (pos : Pool.position) :
  Pool.workers s !! i = Some pos ->
  Pool.holds_job pos = true ->
  is_Some (Pool.step S3_RETRYABLE_DOWNLOAD_ERRORS self (Pool.Worker_step i) s).
Proof.
  intros Hpos Hjob. simpl. rewrite Hpos.
  destruct pos as [|job|job|job|job| |e]; try discriminate; simpl.
  - destruct (Monitor.get_exception _ _) as [[[e|]|e] w']; eauto.
  - destruct (GetObjectWorker._run_get_object_job _ _ _ _) as [[[]|e] w'];
      eauto.
  - destruct (Monitor.notify_job_complete _ _) as [[r|e] w']; eauto.
  - destruct (GetObjectWorker._finalize_download _ _ _ _ _) as [[[]|e] w'];
      eauto.
Qed.

(** The step at [notify_job_complete]: one decrement, and finalize comes
    next exactly if it returned zero. *)
Lemma decrement_step
    (S3_RETRYABLE_DOWNLOAD_ERRORS : exn -> bool) (self : GetObjectWorker.t)
    (i : nat) (job : GetObjectJob) (w : World) :
  let remaining := count_of (transfer_id job) w - 1 in
  exists w',
    Pool.worker_step S3_RETRYABLE_DOWNLOAD_ERRORS self i
      (Pool.At_notify_job_complete job) w
    = Some (if remaining =? 0 then Pool.At_finalize_download job
            else Pool.At_get,
            w', Pool.Decremented i job remaining)
    /\ count_of (transfer_id job) w' = remaining.
Proof.
  simpl. unfold Monitor.notify_job_complete, count_of.
  pose proof (notify_job_complete_value (monitor w) (transfer_id job)) as Hv.
  pose proof (notify_job_complete_lookup (monitor w) (transfer_id job)
                (transfer_id job)) as Hl.
  destruct (TransferMonitor.notify_job_complete _ _) as [remaining m].
  simpl in *. subst remaining. eexists. split; [reflexivity|].
  simpl. rewrite Hl, decide_True by reflexivity. reflexivity.
Qed.

(** A step of worker [i] leaves it at the position the step computed. *)
Lemma worker_step_moves
    (S3_RETRYABLE_DOWNLOAD_ERRORS : exn -> bool) (self : GetObjectWorker.t)
    (s : Pool.state) (i : nat) (pos pos' : Pool.position) (w' : World)
    (ev : Pool.event) :
  Pool.workers s !! i = Some pos ->
  Pool.worker_step S3_RETRYABLE_DOWNLOAD_ERRORS self i pos (Pool.world s)
    = Some (pos', w', ev) ->
  exists s1,
    Pool.step S3_RETRYABLE_DOWNLOAD_ERRORS self (Pool.Worker_step i) s
      = Some s1
    /\ Pool.workers s1 !! i = Some pos'.
Proof.
  intros Hpos Hstep. simpl. rewrite Hpos, Hstep. eexists.
  split; [reflexivity|]. simpl.
  apply list_lookup_insert_eq. eapply lookup_lt_Some. exact Hpos.
Qed.

(** A worker that holds a job gets through the rest of the loop body by its
    own steps, in whatever state the others have left the world: at most
    four steps take it back to [get]. *)
Lemma worker_finishes_its_job
    (S3_RETRYABLE_DOWNLOAD_ERRORS : exn -> bool) (self : GetObjectWorker.t)
    (s : Pool.state) (i : nat) (pos : Pool.position) :
  Pool.workers s !! i = Some pos ->
  Pool.holds_job pos = true ->
  exists (k : nat) (s' : Pool.state),
    (k <= 4)%nat
    /\ Pool.run S3_RETRYABLE_DOWNLOAD_ERRORS self
         (replicate k (Pool.Worker_step i)) s = Some s'
    /\ Pool.workers s' !! i = Some Pool.At_get.
Proof.
  assert (Hfinalize : forall s job,
    Pool.workers s !! i = Some (Pool.At_finalize_download job) ->
    exists (k : nat) (s' : Pool.state),
      (k <= 1)%nat
      /\ Pool.run S3_RETRYABLE_DOWNLOAD_ERRORS self
           (replicate k (Pool.Worker_step i)) s = Some s'
      /\ Pool.workers s' !! i = Some Pool.At_get).
  { clear s pos. intros s job Hpos.
    pose proof (finalize_download_returns self (transfer_id job)
                  (temp_filename job) (filename job) (Pool.world s)) as Hr.
    destruct (GetObjectWorker._finalize_download self (transfer_id job)
                (temp_filename job) (filename job) (Pool.world s))
      as [r w'] eqn:E.
    simpl in Hr. subst r.
    destruct (worker_step_moves S3_RETRYABLE_DOWNLOAD_ERRORS self s i _
                Pool.At_get w' (Pool.Finalized i job) Hpos)
      as (s1 & Hs1 & Hp1); [simpl; rewrite E; reflexivity|].
    exists 1%nat, s1. split; [lia|].
    cbn [Pool.run replicate]. rewrite Hs1. auto. }
  assert (Hnotify : forall s job,
    Pool.workers s !! i = Some (Pool.At_notify_job_complete job) ->
    exists (k : nat) (s' : Pool.state),
      (k <= 2)%nat
      /\ Pool.run S3_RETRYABLE_DOWNLOAD_ERRORS self
           (replicate k (Pool.Worker_step i)) s = Some s'
      /\ Pool.workers s' !! i = Some Pool.At_get).
  { clear s pos. intros s job Hpos.
    destruct (decrement_step S3_RETRYABLE_DOWNLOAD_ERRORS self i job
                (Pool.world s)) as (w' & Hstep & _).
    destruct (worker_step_moves S3_RETRYABLE_DOWNLOAD_ERRORS self s i _ _ _ _
                Hpos Hstep) as (s1 & Hs1 & Hp1).
    destruct (count_of (transfer_id job) (Pool.world s) - 1 =? 0).
    - destruct (Hfinalize s1 job Hp1) as (k & s' & Hk & Hrun & Hp).
      exists (S k), s'. split; [lia|].
      cbn [Pool.run replicate]. rewrite Hs1. auto.
    - exists 1%nat, s1. split; [lia|].
      cbn [Pool.run replicate]. rewrite Hs1. auto. }
  assert (Hrun : forall s job,
    Pool.workers s !! i = Some (Pool.At_run_get_object_job job) ->
    exists (k : nat) (s' : Pool.state),
      (k <= 3)%nat
      /\ Pool.run S3_RETRYABLE_DOWNLOAD_ERRORS self
           (replicate k (Pool.Worker_step i)) s = Some s'
      /\ Pool.workers s' !! i = Some Pool.At_get).
  { clear s pos. intros s job Hpos.
    pose proof (run_get_object_job_returns S3_RETRYABLE_DOWNLOAD_ERRORS self
                  job (Pool.world s)) as Hr.
    destruct (GetObjectWorker._run_get_object_job
                S3_RETRYABLE_DOWNLOAD_ERRORS self job (Pool.world s))
      as [r w'] eqn:E.
    simpl in Hr. subst r.
    destruct (worker_step_moves S3_RETRYABLE_DOWNLOAD_ERRORS self s i _
                (Pool.At_notify_job_complete job) w' (Pool.Ran i job) Hpos)
      as (s1 & Hs1 & Hp1); [simpl; rewrite E; reflexivity|].
    destruct (Hnotify s1 job Hp1) as (k & s' & Hk & Hrun & Hp).
    exists (S k), s'. split; [lia|].
    cbn [Pool.run replicate]. rewrite Hs1. auto. }
  intros Hpos Hjob.
  destruct pos as [|job|job|job|job| |e]; try discriminate.
  - destruct (get_exception_world (transfer_id job) (Pool.world s))
      as (m & Hget & _).
    destruct (TransferState.exception
                (monitor (Pool.world s) !!! transfer_id job)) as [e|].
    + destruct (worker_step_moves S3_RETRYABLE_DOWNLOAD_ERRORS self s i _
                  (Pool.At_notify_job_complete job)
                  (with_monitor m (Pool.world s)) (Pool.Checked i job true)
                  Hpos)
        as (s1 & Hs1 & Hp1); [simpl; rewrite Hget; reflexivity|].
      destruct (Hnotify s1 job Hp1) as (k & s' & Hk & Hr & Hp).
      exists (S k), s'. split; [lia|].
      cbn [Pool.run replicate]. rewrite Hs1. auto.
    + destruct (worker_step_moves S3_RETRYABLE_DOWNLOAD_ERRORS self s i _
                  (Pool.At_run_get_object_job job)
                  (with_monitor m (Pool.world s)) (Pool.Checked i job false)
                  Hpos)
        as (s1 & Hs1 & Hp1); [simpl; rewrite Hget; reflexivity|].
      destruct (Hrun s1 job Hp1) as (k & s' & Hk & Hr & Hp).
      exists (S k), s'. split; [lia|].
      cbn [Pool.run replicate]. rewrite Hs1. auto.
  - destruct (Hrun s job Hpos) as (k & s' & Hk & Hr & Hp).
    exists k, s'. split; [lia|]. auto.
  - destruct (Hnotify s job Hpos) as (k & s' & Hk & Hr & Hp).
    exists k, s'. split; [lia|]. auto.
  - destruct (Hfinalize s job Hpos) as (k & s' & Hk & Hr & Hp).
    exists k, s'. split; [lia|]. auto.
Qed.

(** C1: however the workers of the pool interleave, every job a worker got
    is decremented exactly once or still with that worker on its way to the
    decrement, whether the download is done, skipped or fails; a worker
    finalizes exactly after a decrement that returned zero; so finalize runs
    at most once per transfer, and exactly once when all the jobs of a
    transfer that had some are counted down.  No worker dies, and a worker
    that holds a job gets back to [get] by at most four steps of its own. *)
Theorem one_decrement_per_job_one_finalize_per_transfer
    (S3_RETRYABLE_DOWNLOAD_ERRORS : exn -> bool) (self : GetObjectWorker.t)
    (s0 s : Pool.state) (schedule : list Pool.action) (t : nat) :
  Pool.initial s0 ->
  Pool.run S3_RETRYABLE_DOWNLOAD_ERRORS self schedule s0 = Some s ->
  let jobs := Pool.outstanding t s0 in
  let got := Pool.count (Pool.is_got t) (Pool.trace s) in
  let decrements := Pool.count (Pool.is_decrement t) (Pool.trace s) in
  let zero_decrements :=
    Pool.count (Pool.is_decrement_to_zero t) (Pool.trace s) in
  let finalizes := Pool.count (Pool.is_finalize t) (Pool.trace s) in
  let before_decrement :=
    Pool.count (Pool.before_decrement t) (Pool.workers s) in
  let about_to_finalize :=
    Pool.count (Pool.about_to_finalize t) (Pool.workers s) in
  (decrements + before_decrement = got)%nat
  /\ (finalizes + about_to_finalize = zero_decrements)%nat
  /\ (zero_decrements <= 1)%nat
  /\ (finalizes <= 1)%nat
  /\ Pool.jobs_remaining t s = Z.of_nat (Pool.outstanding t s)
  /\ ((1 <= jobs)%nat ->
      Pool.outstanding t s = 0%nat ->
      about_to_finalize = 0%nat ->
      decrements = jobs /\ zero_decrements = 1%nat /\ finalizes = 1%nat)
  /\ Forall (fun pos => Pool.is_died pos = false) (Pool.workers s)
  /\ (forall i pos,
        Pool.workers s !! i = Some pos ->
        Pool.holds_job pos = true ->
        exists (k : nat) (s' : Pool.state),
          (k <= 4)%nat
          /\ Pool.run S3_RETRYABLE_DOWNLOAD_ERRORS self
               (replicate k (Pool.Worker_step i)) s = Some s'
          /\ Pool.workers s' !! i = Some Pool.At_get).
Proof.
  intros Hinit Hrun. cbv zeta.
  pose proof (run_invariant _ _ _ _ _ _ (initial_invariant _ Hinit) Hrun)
    as [Halive Hinv].
  destruct (Hinv t) as (Hrem & Hgot & Hdec & Hfin & Hzero).
  unfold Pool.outstanding in *.
  split; [exact Hdec|]. split; [exact Hfin|].
  split; [rewrite Hzero; case_decide; lia|].
  split; [rewrite Hzero in Hfin; case_decide; lia|].
  split; [exact Hrem|].
  split.
  { intros Hjobs Hout Habout. rewrite Hzero in *.
    rewrite decide_True in * by (split; assumption). lia. }
  split; [exact Halive|].
  intros i pos. apply worker_finishes_its_job.
Qed.

Lemma fixture_pool_initial : Pool.initial Fixture.pool.
Proof.
  split; [repeat constructor|]. split; [reflexivity|].
  intros [|t]; [vm_compute; reflexivity|].
  unfold Pool.jobs_remaining, Fixture.pool. simpl.
  rewrite notify_expected_lookup, decide_False by discriminate.
  unfold TransferMonitor.__init__. rewrite lookup_total_empty. reflexivity.
Qed.

Lemma one_decrement_per_job_one_finalize_per_transfer_witness :
  exists s : Pool.state,
    Pool.run Fixture.retryable Fixture.worker Fixture.schedule Fixture.pool
      = Some s
    /\ Pool.count (Pool.is_decrement 0) (Pool.trace s) = 3%nat
    /\ Pool.count (Pool.is_finalize 0) (Pool.trace s) = 1%nat.
Proof.
  eexists. split; [vm_compute; reflexivity|].
  match goal with
  | |- Pool.count _ (Pool.trace ?s) = _ /\ _ =>
      destruct (one_decrement_per_job_one_finalize_per_transfer
                  Fixture.retryable Fixture.worker Fixture.pool s
                  Fixture.schedule 0 fixture_pool_initial)
        as (_ & _ & _ & _ & _ & Hdone & _)
  end.
  - vm_compute. reflexivity.
  - destruct Hdone as (Hd & _ & Hf);
      [vm_compute; lia | vm_compute; reflexivity | vm_compute; reflexivity|].
    split; [exact Hd | exact Hf].
Defined.

(** The steps are the loop body: a worker that runs alone from the moment it
    has read [job] goes through its steps to what [run_job] computes. *)
Lemma run_job_in_steps
    (S3_RETRYABLE_DOWNLOAD_ERRORS : exn -> bool) (self : GetObjectWorker.t)
    (job : GetObjectJob) (w : World) :
  exists (k : nat) (s' : Pool.state),
    Pool.run S3_RETRYABLE_DOWNLOAD_ERRORS self
      (replicate k (Pool.Worker_step 0))
      {| Pool.world := w; Pool.workers := [Pool.At_get_exception job];
         Pool.to_put := []; Pool.trace := [] |} = Some s'
    /\ Pool.workers s' = [Pool.At_get]
    /\ GetObjectWorker.run_job S3_RETRYABLE_DOWNLOAD_ERRORS self job w
       = (Return tt, Pool.world s').
Proof.
  unfold GetObjectWorker.run_job. unfold bind at 1.
  destruct (get_exception_world (transfer_id job) w) as (m & E1 & _).
  rewrite E1. set (w1 := with_monitor m w) in *.
  assert (Hnotify : forall w0,
             exists r w', Monitor.notify_job_complete (transfer_id job) w0
                          = (Return r, w')).
  { intros w0. unfold Monitor.notify_job_complete.
    destruct (TransferMonitor.notify_job_complete _ _). eauto. }
  assert (Hfin : forall w0,
             exists w', GetObjectWorker._finalize_download self
                          (transfer_id job) (temp_filename job)
                          (filename job) w0 = (Return tt, w')).
  { intros w0.
    pose proof (finalize_download_returns self (transfer_id job)
                  (temp_filename job) (filename job) w0) as H.
    destruct (GetObjectWorker._finalize_download _ _ _ _ w0) as [r w'].
    simpl in H. subst r. eauto. }
  assert (Htail : forall w2 tr,
    exists (k : nat) (s' : Pool.state),
      Pool.run S3_RETRYABLE_DOWNLOAD_ERRORS self
        (replicate k (Pool.Worker_step 0))
        {| Pool.world := w2;
           Pool.workers := [Pool.At_notify_job_complete job];
           Pool.to_put := []; Pool.trace := tr |} = Some s'
      /\ Pool.workers s' = [Pool.At_get]
      /\ (remaining <- Monitor.notify_job_complete (transfer_id job) ;;
          if remaining =? 0
          then GetObjectWorker._finalize_download self (transfer_id job)
                 (temp_filename job) (filename job)
          else ret tt) w2 = (Return tt, Pool.world s')).
  { intros w2 tr. unfold bind.
    destruct (Hnotify w2) as (r & w3 & E3).
    destruct (r =? 0) eqn:Hr.
    - destruct (Hfin w3) as (w4 & E4).
      exists 2%nat. eexists. simpl. rewrite E3, Hr. simpl. rewrite E4.
      simpl. split; [reflexivity|]. split; reflexivity.
    - exists 1%nat. eexists. simpl. rewrite E3, Hr. simpl.
      split; [reflexivity|]. split; reflexivity. }
  destruct (TransferState.exception (monitor w !!! transfer_id job)) as [e|].
  - (* the work is skipped *)
    unfold bind at 1.
    destruct (Htail w1 [Pool.Checked 0 job true]) as (k & s' & Hk & Hw & Hr).
    exists (S k), s'. simpl. rewrite E1. simpl.
    split; [exact Hk|]. split; [exact Hw|exact Hr].
  - (* the work is done *)
    unfold bind at 1.
    pose proof (run_get_object_job_returns S3_RETRYABLE_DOWNLOAD_ERRORS
                  self job w1) as Hret.
    destruct (GetObjectWorker._run_get_object_job _ _ _ w1) as [r w2] eqn:E2.
    simpl in Hret. subst r.
    destruct (Htail w2 [Pool.Checked 0 job false; Pool.Ran 0 job])
      as (k & s' & Hk & Hw & Hr).
    exists (S (S k)), s'. simpl. rewrite E1. simpl. rewrite E2. simpl.
    split; [exact Hk|]. split; [exact Hw|exact Hr].
Qed.

(** * Further properties *)

(** ** Further properties of the monitor *)

Lemma is_done_value (m : gmap nat TransferState.t) (t : nat) :
  (TransferMonitor.is_done m t).1 = TransferState.done (m !!! t).
Proof.
  unfold TransferMonitor.is_done.
  destruct (TransferMonitor.getitem m t) as [st m'] eqn:E.
  apply getitem_pair in E as [-> _]. reflexivity.
Qed.

Lemma is_done_lookup (m : gmap nat TransferState.t) (t t' : nat) :
  (TransferMonitor.is_done m t).2 !!! t' = m !!! t'.
Proof.
  unfold TransferMonitor.is_done.
  destruct (TransferMonitor.getitem m t) as [st m'] eqn:E.
  apply getitem_pair in E as [_ Hm']. apply Hm'.
Qed.

(** X1: a call on the monitor for one transfer leaves the state of every
    other transfer as it was: its done flag, its recorded failure and its
    count. *)
Theorem monitor_calls_leave_other_transfers
    (m : gmap nat TransferState.t) (t t' : nat) (e : exn) (n : Z)
    (interrupted : bool) :
  t <> t' ->
  (TransferMonitor.is_done m t).2 !!! t' = m !!! t'
  /\ TransferMonitor.notify_done m t !!! t' = m !!! t'
  /\ TransferMonitor.notify_exception m t e !!! t' = m !!! t'
  /\ (TransferMonitor.get_exception m t).2 !!! t' = m !!! t'
  /\ TransferMonitor.notify_expected_jobs_to_complete m t n !!! t' = m !!! t'
  /\ (TransferMonitor.notify_job_complete m t).2 !!! t' = m !!! t'
  /\ (TransferMonitor.poll_for_result m t interrupted).2 !!! t' = m !!! t'.
Proof.
  intros Hne.
  rewrite is_done_lookup, notify_done_lookup, notify_exception_lookup,
    get_exception_lookup, notify_expected_lookup, notify_job_complete_lookup,
    poll_for_result_lookup.
  rewrite !decide_False by exact Hne. repeat split.
Qed.

Lemma monitor_calls_leave_other_transfers_witness :
  let m := TransferMonitor.notify_expected_jobs_to_complete
             (TransferMonitor.notify_done TransferMonitor.__init__ 1) 1 3 in
  (TransferMonitor.is_done m 0).2 !!! 1%nat = m !!! 1%nat
  /\ TransferMonitor.notify_done m 0 !!! 1%nat = m !!! 1%nat
  /\ TransferMonitor.notify_exception m 0 CancelledError !!! 1%nat
     = m !!! 1%nat
  /\ (TransferMonitor.get_exception m 0).2 !!! 1%nat = m !!! 1%nat
  /\ TransferMonitor.notify_expected_jobs_to_complete m 0 7 !!! 1%nat
     = m !!! 1%nat
  /\ (TransferMonitor.notify_job_complete m 0).2 !!! 1%nat = m !!! 1%nat
  /\ (TransferMonitor.poll_for_result m 0 true).2 !!! 1%nat = m !!! 1%nat.
Proof.
  intros m.
  apply (monitor_calls_leave_other_transfers m 0 1 CancelledError 7 true).
  lia.
Defined.


(** X3: [notify_exception] keeps the last failure only: after two calls for
    one transfer [get_exception] returns the second exception.  The call
    changes neither the done flag nor the count of the transfer. *)
Theorem notify_exception_last_writer_wins
    (m : gmap nat TransferState.t) (t : nat) (e1 e2 : exn) :
  let m1 := TransferMonitor.notify_exception m t e1 in
  let m2 := TransferMonitor.notify_exception m1 t e2 in
  (TransferMonitor.get_exception m1 t).1 = Some e1
  /\ (TransferMonitor.get_exception m2 t).1 = Some e2
  /\ TransferState.done (m2 !!! t) = TransferState.done (m !!! t)
  /\ TransferState.jobs_to_complete (m2 !!! t)
     = TransferState.jobs_to_complete (m !!! t).
Proof.
  cbv zeta. rewrite !get_exception_value, !notify_exception_lookup.
  rewrite !decide_True by reflexivity. repeat split.
Qed.

(** X4: a transfer the monitor has never heard of reads as a fresh state:
    not done, no failure; a wait for its result blocks; and a first
    [notify_job_complete] returns -1, not 0, so that a job of a transfer
    whose count was never registered does not lead to finalize. *)
Theorem unknown_transfer_reads_as_fresh
    (m : gmap nat TransferState.t) (t : nat) :
  m !! t = None ->
  (TransferMonitor.is_done m t).1 = false
  /\ (TransferMonitor.get_exception m t).1 = None
  /\ (TransferMonitor.poll_for_result m t false).1 = Blocks
  /\ (TransferMonitor.notify_job_complete m t).1 = -1
  /\ ((TransferMonitor.notify_job_complete m t).1 =? 0) = false.
Proof.
  intros Hm.
  assert (Hst : m !!! t = TransferState.__init__).
  { rewrite lookup_total_alt, Hm. reflexivity. }
  rewrite is_done_value, get_exception_value, poll_for_result_outcome,
    notify_job_complete_value, Hst.
  repeat split.
Qed.

Lemma unknown_transfer_reads_as_fresh_witness :
  let m := TransferMonitor.notify_done TransferMonitor.__init__ 1 in
  (TransferMonitor.is_done m 0).1 = false
  /\ (TransferMonitor.get_exception m 0).1 = None
  /\ (TransferMonitor.poll_for_result m 0 false).1 = Blocks
  /\ (TransferMonitor.notify_job_complete m 0).1 = -1
  /\ ((TransferMonitor.notify_job_complete m 0).1 =? 0) = false.
Proof.
  intros m. apply (unknown_transfer_reads_as_fresh m 0).
  vm_compute. reflexivity.
Defined.

(** X5: once a transfer is done it stays done: no call on the monitor, for
    this transfer or another, resets the flag; and a second [notify_done]
    leaves the state the first one made. *)
Theorem done_is_never_reset
    (m : gmap nat TransferState.t) (t t' : nat) (e : exn) (n : Z)
    (interrupted : bool) :
  TransferState.done (m !!! t) = true ->
  TransferState.done ((TransferMonitor.is_done m t').2 !!! t) = true
  /\ TransferState.done (TransferMonitor.notify_done m t' !!! t) = true
  /\ TransferState.done (TransferMonitor.notify_exception m t' e !!! t) = true
  /\ TransferState.done ((TransferMonitor.get_exception m t').2 !!! t) = true
  /\ TransferState.done
       (TransferMonitor.notify_expected_jobs_to_complete m t' n !!! t) = true
  /\ TransferState.done ((TransferMonitor.notify_job_complete m t').2 !!! t)
     = true
  /\ TransferState.done
       ((TransferMonitor.poll_for_result m t' interrupted).2 !!! t) = true
  /\ TransferMonitor.notify_done (TransferMonitor.notify_done m t) t !!! t
     = TransferMonitor.notify_done m t !!! t.
Proof.
  intros Hd.
  rewrite is_done_lookup, !notify_done_lookup, notify_exception_lookup,
    get_exception_lookup, notify_expected_lookup, notify_job_complete_lookup,
    poll_for_result_lookup.
  rewrite !(decide_True (P := t = t)) by reflexivity.
  destruct (decide (t' = t)) as [->|Hne]; repeat split; assumption.
Qed.

Lemma done_is_never_reset_witness :
  let m := TransferMonitor.notify_done TransferMonitor.__init__ 0 in
  TransferState.done ((TransferMonitor.is_done m 0).2 !!! 0%nat) = true
  /\ TransferState.done (TransferMonitor.notify_done m 0 !!! 0%nat) = true
  /\ TransferState.done
       (TransferMonitor.notify_exception m 0 CancelledError !!! 0%nat) = true
  /\ TransferState.done ((TransferMonitor.get_exception m 0).2 !!! 0%nat)
     = true
  /\ TransferState.done
       (TransferMonitor.notify_expected_jobs_to_complete m 0 2 !!! 0%nat)
     = true
  /\ TransferState.done ((TransferMonitor.notify_job_complete m 0).2 !!! 0%nat)
     = true
  /\ TransferState.done
       ((TransferMonitor.poll_for_result m 0 false).2 !!! 0%nat) = true
  /\ TransferMonitor.notify_done (TransferMonitor.notify_done m 0) 0 !!! 0%nat
     = TransferMonitor.notify_done m 0 !!! 0%nat.
Proof.
  intros m. apply (done_is_never_reset m 0 0 CancelledError 2 false).
  vm_compute. reflexivity.
Defined.

Lemma notify_job_complete_times_spec (k : nat) :
  forall (m : gmap nat TransferState.t) (t : nat),
    (notify_job_complete_times k m t).1
    = (fun j : nat =>
         TransferState.jobs_to_complete (m !!! t) - Z.of_nat (S j))
      <$> seq 0 k
    /\ TransferState.jobs_to_complete
         ((notify_job_complete_times k m t).2 !!! t)
       = TransferState.jobs_to_complete (m !!! t) - Z.of_nat k.
Proof.
  induction k as [|k IH]; intros m t.
  - simpl. split; [reflexivity | lia].
  - simpl.
    pose proof (notify_job_complete_value m t) as Hv.
    pose proof (notify_job_complete_lookup m t t) as Hl.
    destruct (TransferMonitor.notify_job_complete m t) as [r m1].
    simpl in Hv, Hl. rewrite decide_True in Hl by reflexivity.
    destruct (IH m1 t) as [IH1 IH2].
    destruct (notify_job_complete_times k m1 t) as [rs m2].
    simpl in *. rewrite IH1, IH2, Hl. simpl. split.
    + f_equal; [lia|]. rewrite <- fmap_S_seq, <- list_fmap_compose.
      apply list_fmap_ext. intros i x _. simpl. lia.
    + lia.
Qed.

(** X6: after a count of [n] is registered for a transfer, the calls of
    [notify_job_complete] for it return [n - 1], [n - 2], ... in turn: the
    call number [j + 1] returns zero exactly when [j + 1 = n], so that one
    call at most returns zero, and none does when [n <= 0]. *)
Theorem registered_count_runs_down
    (m : gmap nat TransferState.t) (t : nat) (n : Z) (k j : nat) :
  let m0 := TransferMonitor.notify_expected_jobs_to_complete m t n in
  (notify_job_complete_times k m0 t).1
  = (fun j : nat => n - Z.of_nat (S j)) <$> seq 0 k
  /\ ((notify_job_complete_times k m0 t).1 !! j = Some 0
      <-> (j < k)%nat /\ Z.of_nat (S j) = n).
Proof.
  cbv zeta.
  destruct (notify_job_complete_times_spec k
              (TransferMonitor.notify_expected_jobs_to_complete m t n) t)
    as [Hr _].
  rewrite notify_expected_lookup, decide_True in Hr by reflexivity.
  simpl in Hr. rewrite Hr. split; [reflexivity|].
  rewrite list_lookup_fmap. split.
  - intros H. destruct (seq 0 k !! j) as [i|] eqn:E; [|discriminate].
    apply lookup_seq in E as [-> Hlt]. simpl in H. split; [exact Hlt|].
    inversion H. lia.
  - intros [Hlt Hn]. rewrite (lookup_seq_lt _ _ _ Hlt). simpl. f_equal. lia.
Qed.

(** ** Further properties of the future and of the facade *)

(** X7: [done()] returns the done flag of the future's transfer and changes
    nothing that another call could see: no transfer's state, no file, no
    queue, and it is not among the recorded calls. *)
Theorem future_done_reads_the_flag
    (future : ProcessPoolTransferFuture.t) (w : World) (t' : nat) :
  let t := ProcessPoolTransferMeta.transfer_id
             (ProcessPoolTransferFuture.meta future) in
  let r := ProcessPoolTransferFuture.done future w in
  r.1 = Return (TransferState.done (monitor w !!! t))
  /\ monitor r.2 !!! t' = monitor w !!! t'
  /\ files r.2 = files w
  /\ worker_queue r.2 = worker_queue w
  /\ download_request_queue r.2 = download_request_queue w
  /\ calls r.2 = calls w.
Proof.
  unfold ProcessPoolTransferFuture.done, ProcessPoolTransferFuture.meta,
    Monitor.is_done.
  set (t := ProcessPoolTransferMeta.transfer_id _).
  pose proof (is_done_value (monitor w) t) as Hv.
  pose proof (is_done_lookup (monitor w) t t') as Hl.
  destruct (TransferMonitor.is_done (monitor w) t) as [b m].
  cbv zeta. simpl in *. subst b. repeat split. exact Hl.
Qed.

Lemma finalize_download_after_failure
    (self : GetObjectWorker.t) (t : nat) (temp_filename filename : string)
    (w : World) (e : exn) :
  TransferState.exception (monitor w !!! t) = Some e ->
  let r := GetObjectWorker._finalize_download self t temp_filename filename
             w in
  r.1 = Return tt
  /\ files r.2 = delete temp_filename (files w)
  /\ calls r.2 = calls w ++ [Call_remove_file temp_filename; Call_notify_done t]
  /\ monitor r.2 !!! t = TransferState.set_done (monitor w !!! t).
Proof.
  intros Hexc r.
  assert (Hr : r = GetObjectWorker._finalize_download self t temp_filename
                     filename w) by reflexivity.
  clearbody r. unfold GetObjectWorker._finalize_download in Hr.
  unfold bind at 1 in Hr.
  destruct (get_exception_world t w) as (m & Hget & Hm).
  rewrite Hget, Hexc in Hr. open_world. subst r. simpl.
  rewrite notify_done_lookup, decide_True by reflexivity. rewrite Hm.
  rewrite <- app_assoc. repeat split.
Qed.

Lemma result_of_done_transfer
    (future : ProcessPoolTransferFuture.t) (interrupted : bool) (w : World) :
  let st := monitor w !!! ProcessPoolTransferMeta.transfer_id
                            (ProcessPoolTransferFuture.meta future) in
  TransferState.done st = true ->
  (ProcessPoolTransferFuture.result future interrupted w).1
  = match TransferState.exception st with
    | Some e => Raises (Exc e)
    | None => Returns tt
    end.
Proof.
  intros st Hd. unfold ProcessPoolTransferFuture.result.
  pose proof (poll_for_result_outcome (monitor w)
                (ProcessPoolTransferMeta.transfer_id
                   (ProcessPoolTransferFuture._meta future)) interrupted)
    as Ho.
  destruct (TransferMonitor.poll_for_result _ _ _) as [o m].
  simpl in Ho. subst o. fold st.
  unfold ProcessPoolTransferFuture.meta in st. fold st. rewrite Hd.
  destruct (TransferState.exception st); reflexivity.
Qed.

(** X8: [cancel()] makes one [notify_exception] call and marks nothing
    done; the worker that finalizes the transfer afterwards deletes the temp
    file, renames nothing, and [result()] then raises [CancelledError].  A
    [cancel()] that comes after the transfer is done changes its result as
    well: [result()] raises [CancelledError] from then on, also when the
    download had succeeded. *)
Theorem cancel_makes_the_result_a_cancellation
    (future : ProcessPoolTransferFuture.t) (self : GetObjectWorker.t)
    (temp_filename filename : string) (interrupted : bool) (w : World) :
  let t := ProcessPoolTransferMeta.transfer_id
             (ProcessPoolTransferFuture.meta future) in
  let w1 := (ProcessPoolTransferFuture.cancel future w).2 in
  let r := GetObjectWorker._finalize_download self t temp_filename filename
             w1 in
  calls w1 = calls w ++ [Call_notify_exception t CancelledError]
  /\ TransferState.done (monitor w1 !!! t) = TransferState.done (monitor w !!! t)
  /\ files w1 = files w
  /\ files r.2 = delete temp_filename (files w)
  /\ calls r.2
     = calls w1 ++ [Call_remove_file temp_filename; Call_notify_done t]
  /\ (ProcessPoolTransferFuture.result future interrupted r.2).1
     = Raises (Exc CancelledError)
  /\ (TransferState.done (monitor w !!! t) = true ->
      (ProcessPoolTransferFuture.result future interrupted w1).1
      = Raises (Exc CancelledError)).
Proof.
  intros t w1 r.
  assert (Hst : monitor w1 !!! t
                = TransferState.exception_setter (monitor w !!! t)
                    (Some CancelledError)).
  { subst w1. unfold ProcessPoolTransferFuture.cancel. simpl.
    fold (ProcessPoolTransferFuture.meta future). fold t.
    rewrite notify_exception_lookup, decide_True by reflexivity.
    reflexivity. }
  destruct (finalize_download_after_failure self t temp_filename filename w1
              CancelledError) as (_ & Hf & Hc & Hm).
  { rewrite Hst. reflexivity. }
  fold r in Hf, Hc, Hm.
  split; [reflexivity|]. split; [rewrite Hst; reflexivity|].
  split; [reflexivity|]. split; [exact Hf|]. split; [exact Hc|]. split.
  - rewrite result_of_done_transfer; fold t; rewrite Hm, Hst; reflexivity.
  - intros Hd.
    rewrite result_of_done_transfer; fold t; rewrite Hst; [reflexivity|].
    exact Hd.
Qed.

(** *** The ids of the futures *)

Lemma download_file_step
    (ALLOWED_DOWNLOAD_ARGS : list string) (self : ProcessPoolDownloader.t)
    (bucket key filename : string) (extra_args : option PyDict.t)
    (expected_size : option Z) (w : World) :
  let '(r, self', w') :=
    ProcessPoolDownloader.download_file ALLOWED_DOWNLOAD_ARGS self
      bucket key filename extra_args expected_size w in
  ProcessPoolDownloader._started self' = true
  /\ match r with
     | Return future =>
         ProcessPoolTransferMeta.transfer_id
           (ProcessPoolTransferFuture.meta future)
         = ProcessPoolDownloader._id_counter self
         /\ ProcessPoolDownloader._id_counter self'
            = S (ProcessPoolDownloader._id_counter self)
         /\ exists request,
              download_request_queue w'
              = download_request_queue w ++ [Item request]
              /\ DownloadFileRequest.transfer_id request
                 = ProcessPoolDownloader._id_counter self
     | Raise _ =>
         ProcessPoolDownloader._id_counter self'
         = ProcessPoolDownloader._id_counter self
         /\ w' = w
     end.
Proof.
  unfold ProcessPoolDownloader.download_file.
  assert (Hid : ProcessPoolDownloader._id_counter
                  (ProcessPoolDownloader._start_if_needed self)
                = ProcessPoolDownloader._id_counter self
                /\ ProcessPoolDownloader._started
                     (ProcessPoolDownloader._start_if_needed self) = true).
  { unfold ProcessPoolDownloader._start_if_needed.
    destruct (ProcessPoolDownloader._started self) eqn:E; simpl; auto. }
  destruct Hid as [Hid Hst].
  destruct (ProcessPoolDownloader._validate_all_known_args _ _ _); simpl.
  - rewrite Hid. split; [exact Hst|]. split; [reflexivity|].
    split; [lia|]. eexists. split; reflexivity.
  - auto.
Qed.

Lemma request_ids_app q1 q2 :
  request_ids (q1 ++ q2) = request_ids q1 ++ request_ids q2.
Proof.
  induction q1 as [|[request|] q1 IH]; simpl; [reflexivity| |exact IH].
  rewrite IH. reflexivity.
Qed.

(** X9: the futures that a caller gets from a series of [download_file]
    calls carry consecutive transfer ids, starting from the downloader's
    counter: no two futures share an id, a rejected call uses none up, and
    the requests reach the queue in the order of the calls under the ids of
    their futures.  The first call starts the downloader, accepted or
    not. *)
Theorem futures_carry_consecutive_ids
    (ALLOWED_DOWNLOAD_ARGS : list string) (self : ProcessPoolDownloader.t)
    (requests : list CallArgs.t) (w : World) :
  let '(results, self', w') :=
    download_files ALLOWED_DOWNLOAD_ARGS self requests w in
  let first := ProcessPoolDownloader._id_counter self in
  length results = length requests
  /\ ProcessPoolDownloader._started self'
     = match requests with
       | [] => ProcessPoolDownloader._started self
       | _ => true
       end
  /\ future_ids results = seq first (length (future_ids results))
  /\ NoDup (future_ids results)
  /\ ProcessPoolDownloader._id_counter self'
     = (first + length (future_ids results))%nat
  /\ request_ids (download_request_queue w')
     = request_ids (download_request_queue w) ++ future_ids results.
Proof.
  revert self w. induction requests as [|call_args requests IH];
    intros self w; simpl.
  - rewrite app_nil_r. repeat split; [constructor | lia].
  - pose proof (download_file_step ALLOWED_DOWNLOAD_ARGS self
                  (CallArgs.bucket call_args) (CallArgs.key call_args)
                  (CallArgs.filename call_args)
                  (Some (CallArgs.extra_args call_args))
                  (CallArgs.expected_size call_args) w) as Hstep.
    destruct (ProcessPoolDownloader.download_file _ self _ _ _ _ _ w)
      as [[r self1] w1].
    specialize (IH self1 w1).
    destruct (download_files ALLOWED_DOWNLOAD_ARGS self1 requests w1)
      as [[rs self2] w2].
    cbv zeta in IH. destruct IH as (Hlen & Hst & Hids & _ & Hcount & Hq).
    destruct Hstep as [Hst1 Hstep].
    assert (Hstarted : ProcessPoolDownloader._started self2 = true).
    { rewrite Hst. destruct requests; [exact Hst1 | reflexivity]. }
    destruct r as [future|e]; simpl.
    + destruct Hstep as (Hid & Hnext & request & Hq1 & Hrid).
      rewrite Hnext in Hids, Hcount.
      assert (Hseq : ProcessPoolTransferMeta.transfer_id
                       (ProcessPoolTransferFuture.meta future)
                     :: future_ids rs
                     = seq (ProcessPoolDownloader._id_counter self)
                         (S (length (future_ids rs)))).
      { simpl. rewrite Hid, <- Hids. reflexivity. }
      split; [lia|]. split; [exact Hstarted|]. split; [exact Hseq|].
      split; [rewrite Hseq; apply NoDup_seq|].
      split; [lia|].
      rewrite Hq, Hq1, request_ids_app. simpl. rewrite Hrid, Hid.
      rewrite <- app_assoc. reflexivity.
    + destruct Hstep as [Hsame ->]. rewrite Hsame in Hids, Hcount.
      split; [lia|]. split; [exact Hstarted|]. split; [exact Hids|].
      split; [rewrite Hids; apply NoDup_seq|].
      split; [exact Hcount | exact Hq].
Qed.

(** ** The extra arguments of a ranged job *)

(** X10: the extra arguments of a ranged job are the caller's, with the
    computed ['Range'] added only when the caller has none: every key of
    the caller keeps the caller's value, a ['Range'] of the caller's own
    included, which then replaces the computed range in every part. *)
Theorem ranged_job_keeps_the_callers_extra_args
    (calculate_range_parameter : Z -> Z -> Z -> string)
    (request : DownloadFileRequest.t) (temp_filename : string)
    (part_size num_parts i : Z) (k : string) :
  NoDup (PyDict.keys (DownloadFileRequest.extra_args request)) ->
  PyDict.get
    (extra_args (GetObjectSubmitter.ranged_job calculate_range_parameter
                   request temp_filename part_size num_parts i)) k
  = match PyDict.get (DownloadFileRequest.extra_args request) k with
    | Some v => Some v
    | None =>
        if String.eqb "Range" k
        then Some (calculate_range_parameter part_size i num_parts)
        else None
    end.
Proof.
  intros Hnd. simpl.
  destruct (PyDict.get (DownloadFileRequest.extra_args request) k) as [v|]
    eqn:E.
  - apply PyDict_get_update_key; assumption.
  - rewrite PyDict_get_update_other by exact E. reflexivity.
Qed.

Lemma ranged_job_keeps_the_callers_extra_args_witness :
  PyDict.get
    (extra_args (GetObjectSubmitter.ranged_job utils.calculate_range_parameter
                   (Fixture.request (Some 20)) "file.tmp" 8 3 1)) "VersionId"
  = Some "1".
Proof.
  apply (ranged_job_keeps_the_callers_extra_args
           utils.calculate_range_parameter (Fixture.request (Some 20))
           "file.tmp" 8 3 1 "VersionId").
  simpl. repeat constructor. intros H. inversion H.
Defined.

(** ** What a sequence of statements leaves alone *)

Section Frame.
Variable R : World -> World -> Prop.
Hypothesis R_refl : forall w, R w w.
Hypothesis R_trans : forall w1 w2 w3, R w1 w2 -> R w2 w3 -> R w1 w3.

Lemma frame_bind {A B} (m : M A) (k : A -> M B) :
  (forall w, R w (m w).2) ->
  (forall a w, R w (k a w).2) ->
  forall w, R w (bind m k w).2.
Proof.
  intros Hm Hk w. unfold bind. specialize (Hm w).
  destruct (m w) as [[a|e] w']; simpl in *; [|assumption].
  eapply R_trans; [exact Hm | apply Hk].
Qed.

Lemma frame_try_except {A} (m : M A) (handler : exn -> M A) :
  (forall w, R w (m w).2) ->
  (forall e w, R w (handler e w).2) ->
  forall w, R w (try_except m handler w).2.
Proof.
  intros Hm Hh w. unfold try_except. specialize (Hm w).
  destruct (m w) as [[a|e] w']; simpl in *; [assumption|].
  eapply R_trans; [exact Hm | apply Hh].
Qed.

Lemma frame_for_each {A} (l : list A) (body : A -> M unit) :
  (forall a w, R w (body a w).2) ->
  forall w, R w (for_each l body w).2.
Proof.
  intros Hb. induction l as [|x l IH]; intros w; simpl.
  - apply R_refl.
  - apply frame_bind; [apply Hb | intros _; exact IH].
Qed.
End Frame.

Lemma keeps_done_refl w : keeps_done w w.
Proof. intros t. reflexivity. Qed.

Lemma keeps_done_trans w1 w2 w3 :
  keeps_done w1 w2 -> keeps_done w2 w3 -> keeps_done w1 w3.
Proof. intros H1 H2 t. rewrite H2, H1. reflexivity. Qed.

Lemma touches_only_refl t paths w : touches_only t paths w w.
Proof. repeat split. Qed.

Lemma touches_only_trans t paths w1 w2 w3 :
  touches_only t paths w1 w2 -> touches_only t paths w2 w3 ->
  touches_only t paths w1 w3.
Proof.
  intros (Hq & Hr & Hf & Hm) (Hq' & Hr' & Hf' & Hm').
  split; [congruence|]. split; [congruence|]. split.
  - intros other Ho. rewrite Hf', Hf by exact Ho. reflexivity.
  - intros t' Ht. rewrite Hm', Hm by exact Ht. reflexivity.
Qed.

Lemma touches_only_weaken t paths paths' w w' :
  paths ⊆ paths' -> touches_only t paths w w' -> touches_only t paths' w w'.
Proof.
  intros Hsub (Hq & Hr & Hf & Hm). repeat split; try assumption.
  intros other Ho. apply Hf. intros Hin. apply Ho, Hsub, Hin.
Qed.

(** *** The calls one by one *)

Lemma notify_exception_keeps_done t e w :
  keeps_done w (Monitor.notify_exception t e w).2.
Proof.
  intros t'. simpl. rewrite notify_exception_lookup.
  case_decide; [subst|]; reflexivity.
Qed.

Lemma get_exception_keeps_done t w :
  keeps_done w (Monitor.get_exception t w).2.
Proof.
  destruct (get_exception_world t w) as (m & -> & Hm).
  intros t'. simpl. rewrite Hm. reflexivity.
Qed.

Lemma notify_job_complete_keeps_done t w :
  keeps_done w (Monitor.notify_job_complete t w).2.
Proof.
  intros t'. unfold Monitor.notify_job_complete.
  pose proof (notify_job_complete_lookup (monitor w) t t') as Hl.
  destruct (TransferMonitor.notify_job_complete (monitor w) t) as [r m].
  simpl in *. rewrite Hl. case_decide; [subst|]; reflexivity.
Qed.

Lemma client_get_object_keeps_done client b k ea w :
  keeps_done w (client_get_object client b k ea w).2.
Proof. intros t. reflexivity. Qed.

Lemma write_to_file_keeps_done self f off body w :
  keeps_done w (GetObjectWorker._write_to_file self f off body w).2.
Proof.
  unfold GetObjectWorker._write_to_file.
  destruct (files w !! f); [|apply keeps_done_refl].
  destruct (off <? 0); [apply keeps_done_refl|].
  destruct (GetObjectWorker.write_chunks _ _ _ _). intros t. reflexivity.
Qed.

Lemma notify_exception_touches_only t paths e w :
  touches_only t paths w (Monitor.notify_exception t e w).2.
Proof.
  repeat split. intros t' Ht. simpl.
  rewrite notify_exception_lookup, decide_False by congruence. reflexivity.
Qed.

Lemma notify_done_touches_only t paths w :
  touches_only t paths w (Monitor.notify_done t w).2.
Proof.
  repeat split. intros t' Ht. simpl.
  rewrite notify_done_lookup, decide_False by congruence. reflexivity.
Qed.

Lemma get_exception_touches_only t paths w :
  touches_only t paths w (Monitor.get_exception t w).2.
Proof.
  destruct (get_exception_world t w) as (m & -> & Hm).
  repeat split. intros t' _. simpl. apply Hm.
Qed.

Lemma notify_job_complete_touches_only t paths w :
  touches_only t paths w (Monitor.notify_job_complete t w).2.
Proof.
  unfold Monitor.notify_job_complete.
  pose proof (notify_job_complete_lookup (monitor w) t) as Hl.
  destruct (TransferMonitor.notify_job_complete (monitor w) t) as [r m].
  repeat split. intros t' Ht. simpl in *.
  rewrite Hl, decide_False by congruence. reflexivity.
Qed.

Lemma remove_file_touches_only osutil t paths f w :
  f ∈ paths -> touches_only t paths w (utils.OSUtils.remove_file osutil f w).2.
Proof.
  intros Hin. repeat split. intros other Ho. simpl.
  apply lookup_delete_ne. intros ->. exact (Ho Hin).
Qed.

Lemma rename_file_touches_only osutil t paths f g w :
  f ∈ paths -> g ∈ paths ->
  touches_only t paths w (utils.OSUtils.rename_file osutil f g w).2.
Proof.
  intros Hf Hg. unfold utils.OSUtils.rename_file.
  destruct (utils.OSUtils.rename_fault _ _ _); [repeat split|].
  simpl. destruct (files w !! f); repeat split.
  intros other Ho. simpl.
  rewrite lookup_insert_ne by (intros ->; exact (Ho Hg)).
  apply lookup_delete_ne. intros ->. exact (Ho Hf).
Qed.

Lemma client_get_object_touches_only client t paths b k ea w :
  touches_only t paths w (client_get_object client b k ea w).2.
Proof. repeat split. Qed.

Lemma write_to_file_touches_only self t paths f off body w :
  f ∈ paths ->
  touches_only t paths w (GetObjectWorker._write_to_file self f off body w).2.
Proof.
  intros Hin. unfold GetObjectWorker._write_to_file.
  destruct (files w !! f); [|apply touches_only_refl].
  destruct (off <? 0); [apply touches_only_refl|].
  destruct (GetObjectWorker.write_chunks _ _ _ _). repeat split.
  intros other Ho. simpl. apply lookup_insert_ne. intros ->. exact (Ho Hin).
Qed.

Lemma finalize_download_touches_only (self : GetObjectWorker.t) t f g w :
  touches_only t [f; g] w (GetObjectWorker._finalize_download self t f g w).2.
Proof.
  unfold GetObjectWorker._finalize_download.
  apply (frame_bind _ (touches_only_trans _ _)).
  - intros w0. apply get_exception_touches_only.
  - intros exception. apply (frame_bind _ (touches_only_trans _ _)).
    + intros w0. destruct exception.
      * apply remove_file_touches_only. apply list_elem_of_here.
      * unfold GetObjectWorker._do_file_rename.
        apply (frame_try_except _ (touches_only_trans _ _)).
        -- intros w1. apply rename_file_touches_only;
             [apply list_elem_of_here
             |apply list_elem_of_further, list_elem_of_here].
        -- intros e. apply (frame_bind _ (touches_only_trans _ _)).
           ++ intros w1. apply notify_exception_touches_only.
           ++ intros _ w1. apply remove_file_touches_only.
              apply list_elem_of_here.
    + intros _ w0. apply notify_done_touches_only.
Qed.

Lemma finalize_download_sets_done (self : GetObjectWorker.t) t f g w :
  TransferState.done
    (monitor (GetObjectWorker._finalize_download self t f g w).2 !!! t) = true.
Proof.
  unfold GetObjectWorker._finalize_download. unfold bind at 1.
  destruct (get_exception_world t w) as (m & -> & _).
  unfold bind.
  destruct (TransferState.exception (monitor w !!! t)).
  - simpl. rewrite notify_done_lookup, decide_True by reflexivity.
    reflexivity.
  - pose proof (do_file_rename_returns self t f g (with_monitor m w)) as H.
    destruct (GetObjectWorker._do_file_rename self t f g _) as [r w1].
    simpl in H. subst r. simpl.
    rewrite notify_done_lookup, decide_True by reflexivity. reflexivity.
Qed.

Section WorkerFrames.
Variable S3_RETRYABLE_DOWNLOAD_ERRORS : exn -> bool.
Variable self : GetObjectWorker.t.

Lemma attempt_frame (R : World -> World -> Prop) b k ea f off :
  (forall w1 w2 w3, R w1 w2 -> R w2 w3 -> R w1 w3) ->
  (forall w, R w (client_get_object (GetObjectWorker._client self) b k ea w).2) ->
  (forall body w,
     R w (GetObjectWorker._write_to_file self f off body w).2) ->
  forall w,
    R w (GetObjectWorker.attempt S3_RETRYABLE_DOWNLOAD_ERRORS self
           b k ea f off w).2.
Proof.
  intros Htrans Hget Hwrite w. unfold GetObjectWorker.attempt.
  assert (H : R w
    (bind (client_get_object (GetObjectWorker._client self) b k ea)
       (fun body => GetObjectWorker._write_to_file self f off body) w).2).
  { unfold bind. specialize (Hget w).
    destruct (client_get_object _ b k ea w) as [[body|e] w']; simpl in *;
      [|assumption].
    eapply Htrans; [exact Hget | apply Hwrite]. }
  destruct (bind _ _ w) as [[[]|e] w']; simpl in *; [assumption|].
  destruct (S3_RETRYABLE_DOWNLOAD_ERRORS e); assumption.
Qed.

Lemma attempts_loop_frame (R : World -> World -> Prop) b k ea f off :
  (forall w, R w w) ->
  (forall w1 w2 w3, R w1 w2 -> R w2 w3 -> R w1 w3) ->
  (forall w, R w (client_get_object (GetObjectWorker._client self) b k ea w).2) ->
  (forall body w,
     R w (GetObjectWorker._write_to_file self f off body w).2) ->
  forall n last w,
    R w (GetObjectWorker.attempts_loop S3_RETRYABLE_DOWNLOAD_ERRORS n last
           self b k ea f off w).2.
Proof.
  intros Hrefl Htrans Hget Hwrite n.
  induction n as [|n IH]; intros last w; simpl.
  - apply Hrefl.
  - apply (frame_bind R Htrans).
    + apply attempt_frame; assumption.
    + intros [e|] w0; [apply IH | apply Hrefl].
Qed.

Lemma run_get_object_job_touches_only job w :
  touches_only (transfer_id job) [temp_filename job] w
    (GetObjectWorker._run_get_object_job S3_RETRYABLE_DOWNLOAD_ERRORS
       self job w).2.
Proof.
  unfold GetObjectWorker._run_get_object_job.
  apply (frame_try_except _ (touches_only_trans _ _)).
  - apply attempts_loop_frame.
    + apply touches_only_refl.
    + apply touches_only_trans.
    + intros w0. apply client_get_object_touches_only.
    + intros body w0. apply write_to_file_touches_only.
      apply list_elem_of_here.
  - intros e w0. apply notify_exception_touches_only.
Qed.

Lemma run_get_object_job_keeps_done job w :
  keeps_done w
    (GetObjectWorker._run_get_object_job S3_RETRYABLE_DOWNLOAD_ERRORS
       self job w).2.
Proof.
  unfold GetObjectWorker._run_get_object_job.
  apply (frame_try_except _ keeps_done_trans).
  - apply attempts_loop_frame.
    + apply keeps_done_refl.
    + apply keeps_done_trans.
    + intros w0. apply client_get_object_keeps_done.
    + intros body w0. apply write_to_file_keeps_done.
  - intros e w0. apply notify_exception_keeps_done.
Qed.

Lemma do_get_object_keeps_monitor job w :
  monitor (GetObjectWorker._do_get_object S3_RETRYABLE_DOWNLOAD_ERRORS self
             (bucket job) (key job) (extra_args job) (temp_filename job)
             (offset job) w).2
  = monitor w.
Proof.
  unfold GetObjectWorker._do_get_object.
  apply (attempts_loop_frame (fun w w' => monitor w' = monitor w)).
  - reflexivity.
  - intros w1 w2 w3 H1 H2. congruence.
  - reflexivity.
  - intros body w0. unfold GetObjectWorker._write_to_file.
    destruct (files w0 !! _); [|reflexivity].
    destruct (_ <? 0); [reflexivity|].
    destruct (GetObjectWorker.write_chunks _ _ _ _). reflexivity.
Qed.

Lemma run_job_touches_only job w :
  touches_only (transfer_id job) [temp_filename job; filename job] w
    (GetObjectWorker.run_job S3_RETRYABLE_DOWNLOAD_ERRORS self job w).2.
Proof.
  unfold GetObjectWorker.run_job.
  apply (frame_bind _ (touches_only_trans _ _)).
  - intros w0. apply get_exception_touches_only.
  - intros exception. apply (frame_bind _ (touches_only_trans _ _)).
    + intros w0. destruct exception; [apply touches_only_refl|].
      eapply touches_only_weaken; [|apply run_get_object_job_touches_only].
      intros x ->%list_elem_of_singleton. apply list_elem_of_here.
    + intros _. apply (frame_bind _ (touches_only_trans _ _)).
      * intros w0. apply notify_job_complete_touches_only.
      * intros remaining w0. destruct (remaining =? 0).
        -- apply finalize_download_touches_only.
        -- apply touches_only_refl.
Qed.

Lemma run_job_returns job w :
  (GetObjectWorker.run_job S3_RETRYABLE_DOWNLOAD_ERRORS self job w).1
  = Return tt.
Proof.
  unfold GetObjectWorker.run_job. unfold bind at 1.
  destruct (get_exception_world (transfer_id job) w) as (m & -> & _).
  unfold bind at 1.
  assert (H : exists w1,
    (match TransferState.exception (monitor w !!! transfer_id job) with
     | None => GetObjectWorker._run_get_object_job
                 S3_RETRYABLE_DOWNLOAD_ERRORS self job
     | Some _ => ret tt
     end) (with_monitor m w) = (Return tt, w1)).
  { destruct (TransferState.exception _); [eexists; reflexivity|].
    pose proof (run_get_object_job_returns S3_RETRYABLE_DOWNLOAD_ERRORS self
                  job (with_monitor m w)) as H.
    destruct (GetObjectWorker._run_get_object_job _ _ _ _) as [r w1].
    simpl in H. subst r. eexists; reflexivity. }
  destruct H as [w1 ->].
  unfold bind, Monitor.notify_job_complete.
  destruct (TransferMonitor.notify_job_complete (monitor w1) (transfer_id job))
    as [remaining m1].
  destruct (remaining =? 0); [apply finalize_download_returns | reflexivity].
Qed.

Lemma run_job_lowers_count job w :
  count_of (transfer_id job)
    (GetObjectWorker.run_job S3_RETRYABLE_DOWNLOAD_ERRORS self job w).2
  = count_of (transfer_id job) w - 1.
Proof.
  unfold GetObjectWorker.run_job. unfold bind at 1.
  destruct (get_exception_world (transfer_id job) w) as (m & -> & H0).
  set (w0 := with_monitor m w).
  unfold bind at 1.
  assert (H1 : exists w1,
    (match TransferState.exception (monitor w !!! transfer_id job) with
     | None => GetObjectWorker._run_get_object_job
                 S3_RETRYABLE_DOWNLOAD_ERRORS self job
     | Some _ => ret tt
     end) w0 = (Return tt, w1) /\ keeps_counts w0 w1).
  { destruct (TransferState.exception _).
    - eexists. split; [reflexivity | apply keeps_counts_refl].
    - pose proof (run_get_object_job_returns S3_RETRYABLE_DOWNLOAD_ERRORS
                    self job w0) as Hr.
      pose proof (run_get_object_job_keeps_counts
                    S3_RETRYABLE_DOWNLOAD_ERRORS self job w0) as Hk.
      destruct (GetObjectWorker._run_get_object_job _ _ _ _) as [r1 w1].
      simpl in Hr, Hk. subst r1. eauto. }
  destruct H1 as (w1 & -> & [_ H1]).
  unfold bind, Monitor.notify_job_complete.
  pose proof (notify_job_complete_lookup (monitor w1) (transfer_id job)
                (transfer_id job)) as Hl.
  rewrite decide_True in Hl by reflexivity.
  destruct (TransferMonitor.notify_job_complete (monitor w1) (transfer_id job))
    as [remaining m1].
  simpl in Hl.
  set (w2 := record_call _ (with_monitor m1 w1)).
  assert (H2 : count_of (transfer_id job) w2
               = count_of (transfer_id job) w - 1).
  { unfold count_of. simpl. rewrite Hl. simpl. rewrite H1. simpl.
    rewrite H0. reflexivity. }
  destruct (remaining =? 0); [|exact H2].
  pose proof (finalize_download_keeps_counts self (transfer_id job)
                (temp_filename job) (filename job) w2) as [_ H3].
  unfold count_of in *. rewrite H3. exact H2.
Qed.
End WorkerFrames.

(** ** Further properties of the worker *)

(** X11: the download of a job, retries included, touches nothing but the
    job's temp file and the failure recorded for the job's transfer: the
    destination and every other file, the queues, every done flag, every
    count and the state of every other transfer stay as they were.  When
    the download returns, the monitor is left untouched altogether; when it
    raises, the exception is the failure recorded for the transfer. *)
Theorem run_get_object_job_touches_its_temp_file_only
    (S3_RETRYABLE_DOWNLOAD_ERRORS : exn -> bool) (self : GetObjectWorker.t)
    (job : GetObjectJob) (w : World) :
  let download :=
    GetObjectWorker._do_get_object S3_RETRYABLE_DOWNLOAD_ERRORS self
      (bucket job) (key job) (extra_args job) (temp_filename job)
      (offset job) w in
  let r := GetObjectWorker._run_get_object_job S3_RETRYABLE_DOWNLOAD_ERRORS
             self job w in
  r.1 = Return tt
  /\ touches_only (transfer_id job) [temp_filename job] w r.2
  /\ keeps_done w r.2
  /\ keeps_counts w r.2
  /\ (download.1 = Return tt -> monitor r.2 = monitor w)
  /\ (forall e,
        download.1 = Raise e ->
        TransferState.exception (monitor r.2 !!! transfer_id job) = Some e).
Proof.
  intros download r.
  split; [apply run_get_object_job_returns|].
  split; [apply run_get_object_job_touches_only|].
  split; [apply run_get_object_job_keeps_done|].
  split; [apply run_get_object_job_keeps_counts|].
  pose proof (do_get_object_keeps_monitor S3_RETRYABLE_DOWNLOAD_ERRORS self
                job w) as Hmon.
  subst r. unfold GetObjectWorker._run_get_object_job, try_except.
  fold download. fold download in Hmon.
  destruct download as [[[]|e] w1]; simpl in *.
  - split; [intros _; exact Hmon | intros e [=]].
  - split; [intros [=]|]. intros e' [= <-].
    rewrite notify_exception_lookup, decide_True by reflexivity. reflexivity.
Qed.

(** X12: a worker that handles a job always returns from it, and touches
    only the job's temp file, its destination and the state of its transfer,
    whose count it lowers by one: no other file, no other transfer and
    neither queue is changed. *)
Theorem run_job_touches_its_own_transfer_only
    (S3_RETRYABLE_DOWNLOAD_ERRORS : exn -> bool) (self : GetObjectWorker.t)
    (job : GetObjectJob) (w : World) :
  let r := GetObjectWorker.run_job S3_RETRYABLE_DOWNLOAD_ERRORS self job w in
  r.1 = Return tt
  /\ touches_only (transfer_id job) [temp_filename job; filename job] w r.2
  /\ count_of (transfer_id job) r.2 = count_of (transfer_id job) w - 1.
Proof.
  intros r. split; [apply run_job_returns|].
  split; [apply run_job_touches_only|].
  apply run_job_lowers_count.
Qed.

(** X13: a job of a transfer for which a failure is already recorded is not
    downloaded: the worker sends no request and writes no file; it lowers
    the count all the same, and when that makes zero it deletes the temp
    file and marks the transfer done.  The failure stays the one that was
    recorded. *)
Theorem job_of_failed_transfer_is_skipped
    (S3_RETRYABLE_DOWNLOAD_ERRORS : exn -> bool) (self : GetObjectWorker.t)
    (job : GetObjectJob) (w : World) (e : exn) :
  TransferState.exception (monitor w !!! transfer_id job) = Some e ->
  let t := transfer_id job in
  let remaining := count_of t w - 1 in
  let r := GetObjectWorker.run_job S3_RETRYABLE_DOWNLOAD_ERRORS self job w in
  r.1 = Return tt
  /\ get_object_count r.2 = get_object_count w
  /\ calls r.2
     = calls w ++ Call_notify_job_complete t remaining
         :: (if remaining =? 0
             then [Call_remove_file (temp_filename job); Call_notify_done t]
             else [])
  /\ files r.2
     = (if remaining =? 0 then delete (temp_filename job) (files w)
        else files w)
  /\ TransferState.exception (monitor r.2 !!! t) = Some e
  /\ TransferState.done (monitor r.2 !!! t)
     = (if remaining =? 0 then true else TransferState.done (monitor w !!! t)).
Proof.
  intros Hexc t remaining r. fold t in Hexc.
  assert (Hr : r = GetObjectWorker.run_job S3_RETRYABLE_DOWNLOAD_ERRORS
                     self job w) by reflexivity.
  clearbody r. unfold GetObjectWorker.run_job in Hr. fold t in Hr.
  unfold bind at 1 in Hr.
  destruct (get_exception_world t w) as (m & Hget & Hm).
  rewrite Hget, Hexc in Hr. unfold bind at 1 in Hr. unfold ret at 1 in Hr.
  unfold bind at 1 in Hr. unfold Monitor.notify_job_complete in Hr.
  pose proof (notify_job_complete_value m t) as Hv.
  pose proof (notify_job_complete_lookup m t t) as Hl.
  rewrite decide_True in Hl by reflexivity. rewrite Hm in Hv, Hl.
  simpl in Hr.
  destruct (TransferMonitor.notify_job_complete m t) as [rem m1] eqn:E.
  simpl in Hv, Hl.
  fold (count_of t w) in Hv. fold remaining in Hv. subst rem.
  destruct (remaining =? 0) eqn:Hz.
  - unfold GetObjectWorker._finalize_download in Hr. unfold bind at 1 in Hr.
    match type of Hr with context [Monitor.get_exception t ?w2] =>
      destruct (get_exception_world t w2) as (m2 & Hget2 & Hm2);
      assert (Hexc2 : TransferState.exception (monitor w2 !!! t) = Some e)
        by (simpl; rewrite Hl; exact Hexc)
    end.
    rewrite Hget2, Hexc2 in Hr. open_world. subst r. simpl.
    rewrite notify_done_lookup, decide_True by reflexivity.
    rewrite Hm2, Hl. simpl.
    unfold TransferState.exception in Hexc.
    repeat split; try assumption. rewrite <- !app_assoc. reflexivity.
  - unfold ret in Hr. subst r. simpl. rewrite Hl. simpl.
    unfold TransferState.exception in Hexc. repeat split; assumption.
Qed.

Lemma job_of_failed_transfer_is_skipped_witness :
  let w := (Monitor.notify_exception 0 CancelledError
              (Monitor.notify_expected_jobs_to_complete 0 1
                 Fixture.allocated).2).2 in
  let r := GetObjectWorker.run_job Fixture.retryable Fixture.worker
             Fixture.job w in
  r.1 = Return tt
  /\ get_object_count r.2 = get_object_count w
  /\ calls r.2
     = calls w ++ [Call_notify_job_complete 0 0; Call_remove_file "file.tmp";
                   Call_notify_done 0]
  /\ files r.2 = delete "file.tmp" (files w)
  /\ TransferState.exception (monitor r.2 !!! 0%nat) = Some CancelledError
  /\ TransferState.done (monitor r.2 !!! 0%nat) = true.
Proof.
  intros w.
  apply (job_of_failed_transfer_is_skipped Fixture.retryable Fixture.worker
           Fixture.job w CancelledError).
  vm_compute. reflexivity.
Defined.

Lemma write_chunks_returns (reads : list (list byte)) :
  forall content pos,
    (GetObjectWorker.write_chunks reads None content pos).1 = Return tt.
Proof.
  induction reads as [|chunk reads IH]; intros content pos; [reflexivity|].
  destruct chunk; [reflexivity | apply IH].
Qed.

(** X14: the last job of a transfer, when nothing goes wrong: no failure is
    recorded, the count stands at one, [get_object] answers with a body
    whose reads end without an error, the temp file exists and the rename
    is not refused.  Then one request is sent, the temp file is renamed to
    the destination, which holds the body's bytes from the job's offset on,
    the temp file is gone, the transfer is done without a failure, and a
    wait for its result returns. *)
Theorem last_job_completes_the_download
    (S3_RETRYABLE_DOWNLOAD_ERRORS : exn -> bool) (self : GetObjectWorker.t)
    (job : GetObjectJob) (w : World) (body : StreamingBody)
    (content : list byte) :
  let t := transfer_id job in
  TransferState.exception (monitor w !!! t) = None ->
  count_of t w = 1 ->
  get_object (GetObjectWorker._client self) (get_object_count w)
    (bucket job) (key job) (extra_args job) = Return body ->
  read_error body = None ->
  files w !! temp_filename job = Some content ->
  0 <= offset job ->
  utils.OSUtils.rename_fault (GetObjectWorker._osutil self)
    (temp_filename job) (filename job) = None ->
  let r := GetObjectWorker.run_job S3_RETRYABLE_DOWNLOAD_ERRORS self job w in
  let data := read_until_empty (reads body) in
  exists content' : list byte,
    r.1 = Return tt
    /\ files r.2
       = <[filename job := content']> (delete (temp_filename job) (files w))
    /\ (forall k : nat,
          (k < length data)%nat ->
          content' !! (Z.to_nat (offset job) + k)%nat = data !! k)
    /\ (length content <= length content')%nat
    /\ calls r.2
       = calls w ++ [Call_get_object (bucket job) (key job) (extra_args job);
                     Call_notify_job_complete t 0;
                     Call_rename_file (temp_filename job) (filename job);
                     Call_notify_done t]
    /\ TransferState.done (monitor r.2 !!! t) = true
    /\ TransferState.exception (monitor r.2 !!! t) = None
    /\ (TransferMonitor.poll_for_result (monitor r.2) t false).1 = Returns tt.
Proof.
  intros t Hexc Hcount Hget Herr Hfile Hoff Hren r data.
  assert (Hr : r = GetObjectWorker.run_job S3_RETRYABLE_DOWNLOAD_ERRORS
                     self job w) by reflexivity.
  clearbody r. unfold GetObjectWorker.run_job in Hr. fold t in Hr.
  unfold bind at 1 in Hr.
  destruct (get_exception_world t w) as (m & Hge & Hm).
  rewrite Hge, Hexc in Hr. clear Hge.
  (* the download *)
  pose proof (write_chunks_frame (reads body) None content
                (Z.to_nat (offset job))) as Hframe.
  pose proof (write_chunks_returns (reads body) content
                (Z.to_nat (offset job))) as Hret.
  cbv zeta in Hframe. fold data in Hframe.
  destruct (GetObjectWorker.write_chunks (reads body) None content
              (Z.to_nat (offset job))) as [rw content'] eqn:Hwrite.
  simpl in Hframe, Hret. subst rw. destruct Hframe as (Hlen & _ & Hin).
  exists content'.
  assert (Hrun :
    GetObjectWorker._run_get_object_job S3_RETRYABLE_DOWNLOAD_ERRORS self job
      (with_monitor m w)
    = (Return tt,
       with_files (<[temp_filename job := content']> (files w))
         (record_call
            (Call_get_object (bucket job) (key job) (extra_args job))
            (with_get_object_count (S (get_object_count w))
               (with_monitor m w))))).
  { unfold GetObjectWorker._run_get_object_job, try_except,
      GetObjectWorker._do_get_object, GetObjectWorker._MAX_ATTEMPTS.
    simpl GetObjectWorker.attempts_loop. unfold bind at 1.
    unfold GetObjectWorker.attempt. unfold bind at 1.
    unfold client_get_object. simpl get_object_count. rewrite Hget.
    unfold GetObjectWorker._write_to_file. simpl files. rewrite Hfile.
    apply Z.ltb_ge in Hoff. rewrite Hoff, Herr, Hwrite. reflexivity. }
  unfold bind at 1 in Hr. rewrite Hrun in Hr. clear Hrun.
  (* the decrement *)
  unfold bind at 1 in Hr. unfold Monitor.notify_job_complete in Hr.
  simpl monitor in Hr.
  pose proof (notify_job_complete_value m t) as Hv.
  pose proof (notify_job_complete_lookup m t t) as Hl.
  rewrite decide_True in Hl by reflexivity. rewrite Hm in Hv, Hl.
  fold (count_of t w) in Hv. rewrite Hcount in Hv.
  destruct (TransferMonitor.notify_job_complete m t) as [rem m1].
  simpl in Hv, Hl. subst rem. simpl in Hr.
  (* finalize *)
  unfold GetObjectWorker._finalize_download in Hr. unfold bind at 1 in Hr.
  match type of Hr with context [Monitor.get_exception t ?w2] =>
    destruct (get_exception_world t w2) as (m2 & Hge2 & Hm2);
    assert (Hexc2 : TransferState.exception (monitor w2 !!! t) = None)
      by (simpl; rewrite Hl; exact Hexc)
  end.
  rewrite Hge2, Hexc2 in Hr. clear Hge2.
  unfold bind at 1 in Hr.
  unfold GetObjectWorker._do_file_rename, try_except,
    utils.OSUtils.rename_file in Hr.
  rewrite Hren in Hr. simpl in Hr. rewrite lookup_insert_eq in Hr.
  unfold bind, Monitor.notify_done in Hr. subst r. simpl.
  rewrite poll_for_result_outcome, !notify_done_lookup.
  rewrite !decide_True by reflexivity. simpl in Hm2.
  rewrite Hm2, Hl. simpl.
  unfold TransferState.exception in Hexc. rewrite Hexc.
  rewrite delete_insert_eq. rewrite <- !app_assoc.
  repeat split; assumption.
Qed.

Lemma last_job_completes_the_download_witness :
  let w := (Monitor.notify_expected_jobs_to_complete 0 1
              Fixture.allocated).2 in
  let r := GetObjectWorker.run_job Fixture.retryable Fixture.worker
             Fixture.job w in
  exists content' : list byte,
    r.1 = Return tt
    /\ files r.2 = <["file" := content']> (delete "file.tmp" (files w))
    /\ content' !! 0%nat = Some x01
    /\ content' !! 2%nat = Some x03
    /\ TransferState.done (monitor r.2 !!! 0%nat) = true
    /\ (TransferMonitor.poll_for_result (monitor r.2) 0 false).1 = Returns tt.
Proof.
  intros w r.
  destruct (last_job_completes_the_download Fixture.retryable Fixture.worker
              Fixture.job w
              {| reads := [[x01; x02]; [x03]]; read_error := None |}
              [x00; x00; x00; x00])
    as (content' & H1 & H2 & H3 & _ & _ & H6 & _ & H8);
    [vm_compute; reflexivity | vm_compute; reflexivity | reflexivity
    | reflexivity | vm_compute; reflexivity | simpl; lia | reflexivity |].
  exists content'. split; [exact H1|]. split; [exact H2|].
  split; [apply (H3 0%nat); simpl; lia|].
  split; [apply (H3 2%nat); simpl; lia|].
  split; [exact H6 | exact H8].
Defined.

(** X15: the worker's loop takes the jobs in the order of the queue and
    leaves it at the first shutdown signal: with enough turns it returns
    there, the items behind the signal stay in the queue, and every
    transfer's count is lowered by the number of its jobs that were taken.
    Without a signal it ends up waiting on the empty queue.  It never
    raises. *)
Theorem worker_runs_until_shutdown
    (S3_RETRYABLE_DOWNLOAD_ERRORS : exn -> bool) (self : GetObjectWorker.t)
    (jobs : list GetObjectJob)
    (behind : option (list (queue_item GetObjectJob)))
    (iterations : nat) (w : World) :
  worker_queue w
  = (Item <$> jobs)
    ++ match behind with
       | Some rest => SHUTDOWN_SIGNAL :: rest
       | None => []
       end ->
  (length jobs < iterations)%nat ->
  let r := GetObjectWorker.run S3_RETRYABLE_DOWNLOAD_ERRORS iterations
             self w in
  r.1 = Return match behind with
               | Some _ => Returned
               | None => Waiting_in_get
               end
  /\ worker_queue r.2 = default [] behind
  /\ download_request_queue r.2 = download_request_queue w
  /\ forall t : nat,
       count_of t r.2
       = count_of t w - Z.of_nat (Pool.count (Pool.of_transfer t) jobs).
Proof.
  revert iterations w.
  induction jobs as [|job jobs IH]; intros iterations w Hq Hlen;
    (destruct iterations as [|iterations]; [simpl in Hlen; lia|]).
  - simpl in Hq. simpl. unfold bind, worker_queue_get. rewrite Hq.
    destruct behind; simpl in *;
      (repeat split; try reflexivity; try assumption);
      unfold count_of, Pool.count; simpl; intros; lia.
  - simpl in Hq, Hlen. cbv zeta.
    set (w1 := with_worker_queue
                 ((Item <$> jobs)
                    ++ match behind with
                       | Some rest => SHUTDOWN_SIGNAL :: rest
                       | None => []
                       end) w).
    pose proof (run_job_returns S3_RETRYABLE_DOWNLOAD_ERRORS self job w1)
      as Hret.
    pose proof (run_job_touches_only S3_RETRYABLE_DOWNLOAD_ERRORS self job w1)
      as (Hq2 & Hr2 & _ & Hm2).
    pose proof (run_job_lowers_count S3_RETRYABLE_DOWNLOAD_ERRORS self job w1)
      as Hc2.
    assert (Hrun :
      GetObjectWorker.run S3_RETRYABLE_DOWNLOAD_ERRORS (S iterations) self w
      = GetObjectWorker.run S3_RETRYABLE_DOWNLOAD_ERRORS iterations self
          (GetObjectWorker.run_job S3_RETRYABLE_DOWNLOAD_ERRORS self job
             w1).2).
    { simpl. unfold bind at 1. unfold worker_queue_get. rewrite Hq.
      unfold bind. change (with_worker_queue _ w) with w1.
      destruct (GetObjectWorker.run_job _ self job w1) as [r2 w2].
      simpl in Hret. subst r2. reflexivity. }
    rewrite Hrun. clear Hrun.
    destruct (GetObjectWorker.run_job _ self job w1) as [r2 w2].
    simpl in Hq2, Hr2, Hm2, Hc2. clear Hret.
    specialize (IH iterations w2 Hq2 ltac:(lia)). cbv zeta in IH.
    destruct IH as (H1 & H2 & H3 & H4). cbn [snd].
    split; [exact H1|]. split; [exact H2|].
    split; [rewrite H3, Hr2; reflexivity|].
    intros t'. rewrite H4. rewrite count_cons.
    unfold count_of in *. simpl in Hc2.
    destruct (decide (transfer_id job = t')) as [<-|Hne].
    + assert (Pool.of_transfer (transfer_id job) job = 1%nat) as ->
        by (unfold Pool.of_transfer; rewrite decide_True; reflexivity).
      rewrite Hc2. lia.
    + assert (Pool.of_transfer t' job = 0%nat) as ->
        by (unfold Pool.of_transfer; rewrite decide_False by exact Hne;
            reflexivity).
      rewrite Hm2 by congruence. simpl. lia.
Qed.

Lemma worker_runs_until_shutdown_witness :
  let w := with_worker_queue
             [Item Fixture.job; SHUTDOWN_SIGNAL; Item Fixture.job]
             ((Monitor.notify_expected_jobs_to_complete 0 2
                 Fixture.allocated).2) in
  let r := GetObjectWorker.run Fixture.retryable 2 Fixture.worker w in
  r.1 = Return Returned
  /\ worker_queue r.2 = [Item Fixture.job]
  /\ download_request_queue r.2 = download_request_queue w
  /\ forall t : nat,
       count_of t r.2
       = count_of t w
         - Z.of_nat (Pool.count (Pool.of_transfer t) [Fixture.job]).
Proof.
  intros w.
  apply (worker_runs_until_shutdown Fixture.retryable Fixture.worker
           [Fixture.job] (Some [Item Fixture.job]) 2 w).
  - reflexivity.
  - simpl. lia.
Defined.

(** ** Retries and the temp file *)

Section RetriesAndFile.
Variable S3_RETRYABLE_DOWNLOAD_ERRORS : exn -> bool.
Variable self : GetObjectWorker.t.
Variable job : GetObjectJob.

Local Abbreviation attempt :=
  (GetObjectWorker.attempt S3_RETRYABLE_DOWNLOAD_ERRORS self
     (bucket job) (key job) (extra_args job) (temp_filename job)
     (offset job)).
Local Abbreviation caught :=
  (caught_attempts S3_RETRYABLE_DOWNLOAD_ERRORS self job).

(** An attempt, however it ends, leaves the temp file in place and does not
    shorten it. *)
Lemma attempt_keeps_the_file w content :
  files w !! temp_filename job = Some content ->
  exists content',
    files (attempt w).2 !! temp_filename job = Some content'
    /\ (length content <= length content')%nat.
Proof.
  intros Hfile.
  assert (H : exists content',
    files (bind (client_get_object (GetObjectWorker._client self)
                   (bucket job) (key job) (extra_args job))
             (fun body => GetObjectWorker._write_to_file self
                            (temp_filename job) (offset job) body) w).2
      !! temp_filename job = Some content'
    /\ (length content <= length content')%nat).
  { unfold bind, client_get_object.
    destruct (get_object _ _ _ _ _) as [body|e]; simpl; [|eauto].
    unfold GetObjectWorker._write_to_file. simpl. rewrite Hfile.
    destruct (offset job <? 0); simpl; [eauto|].
    pose proof (write_chunks_frame (reads body) (read_error body) content
                  (Z.to_nat (offset job))) as (Hlen & _).
    destruct (GetObjectWorker.write_chunks _ _ _ _) as [r content'].
    simpl in *. exists content'. rewrite lookup_insert_eq. auto. }
  unfold GetObjectWorker.attempt.
  destruct (bind _ _ w) as [[[]|e] w1]; simpl in *; [exact H|].
  destruct (S3_RETRYABLE_DOWNLOAD_ERRORS e); exact H.
Qed.

Lemma caught_attempts_keep_the_file n : forall last w last' w1 content,
  caught n last w = Some (last', w1) ->
  files w !! temp_filename job = Some content ->
  get_object_count w1 = (get_object_count w + n)%nat
  /\ exists content1,
       files w1 !! temp_filename job = Some content1
       /\ (length content <= length content1)%nat.
Proof.
  induction n as [|n IH]; intros last w last' w1 content; simpl.
  - intros [= _ <-] Hfile. split; [lia | eauto].
  - pose proof (attempt_get_object_count S3_RETRYABLE_DOWNLOAD_ERRORS self
                  job w) as Hc.
    intros Hcaught Hfile.
    destruct (attempt_keeps_the_file w content Hfile) as (c & Hc1 & Hl1).
    destruct (GetObjectWorker.attempt _ _ _ _ _ _ _ w) as [[[e|]|e] w'];
      try discriminate.
    simpl in Hc, Hc1.
    destruct (IH _ _ _ _ _ Hcaught Hc1) as (Hcount & c1 & Hf1 & Hl).
    split; [lia|]. exists c1. split; [exact Hf1 | lia].
Qed.

(** An attempt whose request is answered and whose body is read to its end
    writes the body at the job's offset and returns. *)
Lemma attempt_succeeds w body content :
  get_object (GetObjectWorker._client self) (get_object_count w)
    (bucket job) (key job) (extra_args job) = Return body ->
  read_error body = None ->
  files w !! temp_filename job = Some content ->
  0 <= offset job ->
  attempt w
  = (Return None,
     with_files
       (<[temp_filename job :=
            (GetObjectWorker.write_chunks (reads body) None content
               (Z.to_nat (offset job))).2]> (files w))
       (record_call (Call_get_object (bucket job) (key job) (extra_args job))
          (with_get_object_count (S (get_object_count w)) w))).
Proof.
  intros Hget Herr Hfile Hoff.
  pose proof (write_chunks_returns (reads body) content
                (Z.to_nat (offset job))) as Hret.
  unfold GetObjectWorker.attempt. unfold bind at 1.
  unfold client_get_object. rewrite Hget.
  unfold GetObjectWorker._write_to_file. simpl files. rewrite Hfile.
  apply Z.ltb_ge in Hoff. rewrite Hoff, Herr.
  destruct (GetObjectWorker.write_chunks (reads body) None content
              (Z.to_nat (offset job))) as [r content'].
  simpl in Hret. subst r. reflexivity.
Qed.
End RetriesAndFile.

(** X16: every attempt writes from the job's offset again.  After [n]
    attempts that ended in retryable errors, wherever in the body they
    broke off, an attempt whose body is read to its end makes the download
    return with the whole body in the temp file from the offset on; the
    file is not shortened, nothing reaches the monitor, and [n + 1]
    requests were sent. *)
Theorem retry_writes_the_body_from_the_offset
    (S3_RETRYABLE_DOWNLOAD_ERRORS : exn -> bool) (self : GetObjectWorker.t)
    (job : GetObjectJob) (w w1 : World) (n : nat)
    (last_exception : option exn) (body : StreamingBody)
    (content : list byte) :
  (n < GetObjectWorker._MAX_ATTEMPTS)%nat ->
  caught_attempts S3_RETRYABLE_DOWNLOAD_ERRORS self job n None w
    = Some (last_exception, w1) ->
  get_object (GetObjectWorker._client self) (get_object_count w + n)%nat
    (bucket job) (key job) (extra_args job) = Return body ->
  read_error body = None ->
  files w !! temp_filename job = Some content ->
  0 <= offset job ->
  let r := GetObjectWorker._do_get_object S3_RETRYABLE_DOWNLOAD_ERRORS self
             (bucket job) (key job) (extra_args job) (temp_filename job)
             (offset job) w in
  let data := read_until_empty (reads body) in
  r.1 = Return tt
  /\ get_object_count r.2 = (get_object_count w + n + 1)%nat
  /\ monitor r.2 = monitor w
  /\ exists content' : list byte,
       files r.2 !! temp_filename job = Some content'
       /\ (length content <= length content')%nat
       /\ forall k : nat,
            (k < length data)%nat ->
            content' !! (Z.to_nat (offset job) + k)%nat = data !! k.
Proof.
  intros Hn Hcaught Hget Herr Hfile Hoff r data.
  destruct (caught_attempts_keep_the_file S3_RETRYABLE_DOWNLOAD_ERRORS self
              job n None w last_exception w1 content Hcaught Hfile)
    as (Hcount & content1 & Hfile1 & Hlen1).
  rewrite <- Hcount in Hget.
  pose proof (attempt_succeeds S3_RETRYABLE_DOWNLOAD_ERRORS self job w1 body
                content1 Hget Herr Hfile1 Hoff) as Hattempt.
  pose proof (do_get_object_keeps_monitor S3_RETRYABLE_DOWNLOAD_ERRORS self
                job w) as Hmon.
  fold r in Hmon.
  assert (Hr : r = GetObjectWorker.attempts_loop S3_RETRYABLE_DOWNLOAD_ERRORS
                     (GetObjectWorker._MAX_ATTEMPTS - n) last_exception self
                     (bucket job) (key job) (extra_args job)
                     (temp_filename job) (offset job) w1).
  { rewrite <- (attempts_loop_after_caught S3_RETRYABLE_DOWNLOAD_ERRORS self
                  job n _ None w last_exception w1 Hcaught).
    subst r. unfold GetObjectWorker._do_get_object. f_equal. lia. }
  destruct (GetObjectWorker._MAX_ATTEMPTS - n)%nat as [|m] eqn:Hm; [lia|].
  simpl in Hr. unfold bind in Hr. rewrite Hattempt in Hr.
  pose proof (write_chunks_frame (reads body) None content1
                (Z.to_nat (offset job))) as (Hlen & _ & Hin).
  fold data in Hin.
  clearbody r. subst r. simpl in *.
  split; [reflexivity|]. split; [lia|]. split; [exact Hmon|].
  eexists. split; [apply lookup_insert_eq|]. split; [lia | exact Hin].
Qed.

Lemma retry_writes_the_body_from_the_offset_witness :
  let r := GetObjectWorker._do_get_object Fixture.retryable
             (Fixture.worker_with (Fixture.flaky_client 2))
             "bucket" "key" [("VersionId", "1")] "file.tmp" 0
             Fixture.allocated in
  r.1 = Return tt
  /\ get_object_count r.2 = 3%nat
  /\ exists content' : list byte,
       files r.2 !! "file.tmp" = Some content'
       /\ content' !! 0%nat = Some x01
       /\ content' !! 2%nat = Some x03.
Proof.
  intros r.
  destruct (retry_writes_the_body_from_the_offset Fixture.retryable
              (Fixture.worker_with (Fixture.flaky_client 2)) Fixture.job
              Fixture.allocated
              (GetObjectWorker.attempts_loop Fixture.retryable 2 None
                 (Fixture.worker_with (Fixture.flaky_client 2))
                 "bucket" "key" [("VersionId", "1")] "file.tmp" 0
                 Fixture.allocated).2
              2 (Some Fixture.timeout)
              {| reads := [[x01; x02]; [x03]]; read_error := None |}
              [x00; x00; x00; x00])
    as (H1 & H2 & _ & content' & Hf & _ & Hin);
    [unfold GetObjectWorker._MAX_ATTEMPTS; lia | vm_compute; reflexivity
    | reflexivity | reflexivity | vm_compute; reflexivity | simpl; lia |].
  split; [exact H1|]. split; [exact H2|].
  exists content'. split; [exact Hf|].
  split; [apply (Hin 0%nat) | apply (Hin 2%nat)]; simpl; lia.
Defined.

(** X17: when the job's temp file is not there, the request is still sent,
    opening the file fails with [FileNotFoundError], and unless that class
    is retryable the job ends at once with this failure recorded for the
    transfer: one request, no retry, and no file is created. *)
Theorem missing_temp_file_fails_the_job
    (S3_RETRYABLE_DOWNLOAD_ERRORS : exn -> bool) (self : GetObjectWorker.t)
    (job : GetObjectJob) (w : World) (body : StreamingBody) :
  files w !! temp_filename job = None ->
  get_object (GetObjectWorker._client self) (get_object_count w)
    (bucket job) (key job) (extra_args job) = Return body ->
  S3_RETRYABLE_DOWNLOAD_ERRORS (FileNotFoundError (temp_filename job))
    = false ->
  let r := GetObjectWorker._run_get_object_job S3_RETRYABLE_DOWNLOAD_ERRORS
             self job w in
  r.1 = Return tt
  /\ files r.2 = files w
  /\ calls r.2
     = calls w ++ [Call_get_object (bucket job) (key job) (extra_args job);
                   Call_notify_exception (transfer_id job)
                     (FileNotFoundError (temp_filename job))]
  /\ TransferState.exception (monitor r.2 !!! transfer_id job)
     = Some (FileNotFoundError (temp_filename job)).
Proof.
  intros Hfile Hget Hno r.
  assert (Hr : r = GetObjectWorker._run_get_object_job
                     S3_RETRYABLE_DOWNLOAD_ERRORS self job w) by reflexivity.
  clearbody r.
  unfold GetObjectWorker._run_get_object_job, try_except,
    GetObjectWorker._do_get_object, GetObjectWorker._MAX_ATTEMPTS in Hr.
  simpl GetObjectWorker.attempts_loop in Hr. unfold bind at 1 in Hr.
  unfold GetObjectWorker.attempt in Hr. unfold bind at 1 in Hr.
  unfold client_get_object in Hr. rewrite Hget in Hr.
  unfold GetObjectWorker._write_to_file in Hr. simpl files in Hr.
  rewrite Hfile, Hno in Hr. subst r. simpl.
  rewrite notify_exception_lookup, decide_True by reflexivity.
  rewrite <- app_assoc. repeat split.
Qed.

Lemma missing_temp_file_fails_the_job_witness :
  let r := GetObjectWorker._run_get_object_job Fixture.retryable
             Fixture.worker Fixture.job empty_world in
  r.1 = Return tt
  /\ files r.2 = files empty_world
  /\ calls r.2
     = [Call_get_object "bucket" "key" [("VersionId", "1")];
        Call_notify_exception 0 (FileNotFoundError "file.tmp")]
  /\ TransferState.exception (monitor r.2 !!! 0%nat)
     = Some (FileNotFoundError "file.tmp").
Proof.
  intros r.
  apply (missing_temp_file_fails_the_job Fixture.retryable Fixture.worker
           Fixture.job empty_world
           {| reads := [[x01; x02]; [x03]]; read_error := None |});
    reflexivity.
Defined.

(** ** Further properties of the submitter *)

Lemma try_except_bind {A B} (m : M A) (k : A -> M B) (handler : exn -> M B)
    (w : World) :
  try_except (bind m k) handler w
  = match m w with
    | (Return a, w1) => try_except (k a) handler w1
    | (Raise e, w1) => handler e w1
    end.
Proof.
  unfold try_except, bind. destruct (m w) as [[a|e] w1]; reflexivity.
Qed.

Lemma submits_for_refl osutil requests w : submits_for osutil requests w w.
Proof.
  split; [reflexivity|]. split; [|split; reflexivity].
  exists []. rewrite app_nil_r. split; [reflexivity | constructor].
Qed.

Lemma submits_for_trans osutil requests w1 w2 w3 :
  submits_for osutil requests w1 w2 -> submits_for osutil requests w2 w3 ->
  submits_for osutil requests w1 w3.
Proof.
  intros (Hr & (new & Hq & Hnew) & Hf & Hm)
         (Hr' & (new' & Hq' & Hnew') & Hf' & Hm').
  split; [congruence|]. split; [|split].
  - exists (new ++ new'). rewrite Hq', Hq, app_assoc.
    split; [reflexivity | apply Forall_app; auto].
  - intros other Ho. rewrite Hf', Hf by exact Ho. reflexivity.
  - intros t' Ht. rewrite Hm', Hm by exact Ht. reflexivity.
Qed.

Lemma submits_for_weaken osutil requests requests' w w' :
  requests ⊆ requests' ->
  submits_for osutil requests w w' -> submits_for osutil requests' w w'.
Proof.
  intros Hsub (Hr & (new & Hq & Hnew) & Hf & Hm).
  split; [exact Hr|]. split; [|split].
  - exists new. split; [exact Hq|].
    eapply Forall_impl; [exact Hnew|].
    intros item (request & Hin & Hjob). exists request. auto.
  - intros other Ho. apply Hf.
    apply Forall_forall. intros request Hin.
    exact (proj1 (Forall_forall _ _) Ho request (Hsub _ Hin)).
  - intros t' Ht. apply Hm.
    apply Forall_forall. intros request Hin.
    exact (proj1 (Forall_forall _ _) Ht request (Hsub _ Hin)).
Qed.

Lemma no_head_object_refl w : no_head_object w w.
Proof. exists []. rewrite app_nil_r. split; [reflexivity | constructor]. Qed.

Lemma no_head_object_trans w1 w2 w3 :
  no_head_object w1 w2 -> no_head_object w2 w3 -> no_head_object w1 w3.
Proof.
  intros (d & Hc & Hd) (d' & Hc' & Hd'). exists (d ++ d').
  rewrite Hc', Hc, app_assoc. split; [reflexivity | apply Forall_app; auto].
Qed.

Lemma no_head_object_call c w w' :
  is_head_object c = false ->
  calls w' = calls w ++ [c] -> no_head_object w w'.
Proof. intros Hc Hw. exists [c]. split; [exact Hw | repeat constructor; exact Hc]. Qed.

Section SubmitterFrames.
Variable calculate_range_parameter : Z -> Z -> Z -> string.
Variable self : GetObjectSubmitter.t.
Variable request : DownloadFileRequest.t.

Local Abbreviation osutil := (GetObjectSubmitter._osutil self).
Local Abbreviation t := (DownloadFileRequest.transfer_id request).
Local Abbreviation temp :=
  (utils.OSUtils.get_temp_filename (GetObjectSubmitter._osutil self)
     (DownloadFileRequest.filename request)).

(** The statements of [run_request] that follow [_get_size]. *)
Local Abbreviation after_get_size size :=
  (try_except
     (bind (GetObjectSubmitter._allocate_temp_file self request size)
        (fun temp_filename =>
           if size <? multipart_threshold
                        (GetObjectSubmitter._transfer_config self)
           then GetObjectSubmitter._submit_single_get_object_job self
                  request temp_filename
           else GetObjectSubmitter._submit_ranged_get_object_jobs
                  calculate_range_parameter self request temp_filename size))
     (fun e => bind (Monitor.notify_exception t e)
                 (fun _ => Monitor.notify_done t))).

Lemma run_request_after_get_size w :
  GetObjectSubmitter.run_request calculate_range_parameter self request w
  = match GetObjectSubmitter._get_size self request w with
    | (Return size, w1) => after_get_size size w1
    | (Raise e, w1) =>
        bind (Monitor.notify_exception t e) (fun _ => Monitor.notify_done t) w1
    end.
Proof.
  unfold GetObjectSubmitter.run_request,
    GetObjectSubmitter._submit_get_object_jobs.
  apply try_except_bind.
Qed.

Lemma run_request_returns w :
  (GetObjectSubmitter.run_request calculate_range_parameter self request w).1
  = Return tt.
Proof.
  unfold GetObjectSubmitter.run_request, try_except.
  destruct (GetObjectSubmitter._submit_get_object_jobs _ self request w)
    as [[[]|e] w1]; reflexivity.
Qed.

(** *** What the submitter leaves alone *)

Lemma item_put_submits_for job w :
  job_of_request osutil request (Item job) ->
  submits_for osutil [request]
    w (GetObjectSubmitter._submit_get_object_job self job w).2.
Proof.
  intros Hjob. split; [reflexivity|]. split; [|split; reflexivity].
  exists [Item job]. split; [reflexivity|]. constructor; [|constructor].
  exists request. split; [apply list_elem_of_here | exact Hjob].
Qed.

Lemma monitor_call_submits_for {A} (m : M A) :
  (forall w,
     download_request_queue (m w).2 = download_request_queue w
     /\ worker_queue (m w).2 = worker_queue w
     /\ files (m w).2 = files w
     /\ forall t', t' <> t -> monitor (m w).2 !!! t' = monitor w !!! t') ->
  forall w, submits_for osutil [request] w (m w).2.
Proof.
  intros H w. destruct (H w) as (Hr & Hq & Hf & Hm).
  split; [exact Hr|]. split; [|split].
  - exists []. rewrite app_nil_r. split; [exact Hq | constructor].
  - intros other _. rewrite Hf. reflexivity.
  - intros t' Ht. apply Hm. inversion Ht; assumption.
Qed.

Lemma notify_exception_submits_for e w :
  submits_for osutil [request] w (Monitor.notify_exception t e w).2.
Proof.
  apply monitor_call_submits_for. intros w0. repeat split.
  intros t' Ht. simpl.
  rewrite notify_exception_lookup, decide_False by congruence. reflexivity.
Qed.

Lemma notify_done_submits_for w :
  submits_for osutil [request] w (Monitor.notify_done t w).2.
Proof.
  apply monitor_call_submits_for. intros w0. repeat split.
  intros t' Ht. simpl.
  rewrite notify_done_lookup, decide_False by congruence. reflexivity.
Qed.

Lemma notify_expected_submits_for n w :
  submits_for osutil [request]
    w (Monitor.notify_expected_jobs_to_complete t n w).2.
Proof.
  apply monitor_call_submits_for. intros w0. repeat split.
  intros t' Ht. simpl.
  rewrite notify_expected_lookup, decide_False by congruence. reflexivity.
Qed.

Lemma get_size_submits_for w :
  submits_for osutil [request]
    w (GetObjectSubmitter._get_size self request w).2.
Proof.
  unfold GetObjectSubmitter._get_size.
  destruct (DownloadFileRequest.expected_size request);
    [apply submits_for_refl|].
  apply monitor_call_submits_for. intros w0. repeat split.
Qed.

Lemma allocate_temp_file_submits_for size w :
  submits_for osutil [request]
    w (GetObjectSubmitter._allocate_temp_file self request size w).2.
Proof.
  unfold GetObjectSubmitter._allocate_temp_file, bind,
    utils.OSUtils.allocate.
  destruct (utils.OSUtils.allocate_fault _ _ _); [|destruct (size <? 0)];
    (split; [reflexivity|];
     split; [exists []; rewrite app_nil_r; split; [reflexivity|constructor]|];
     split; [|reflexivity]);
    intros other Ho; simpl; try reflexivity.
  apply lookup_insert_ne. inversion Ho; congruence.
Qed.

Lemma allocate_temp_file_name size w temp_filename w1 :
  GetObjectSubmitter._allocate_temp_file self request size w
  = (Return temp_filename, w1) ->
  temp_filename = temp.
Proof.
  unfold GetObjectSubmitter._allocate_temp_file, bind.
  destruct (utils.OSUtils.allocate _ _ _ w) as [[[]|e] w0]; [|discriminate].
  unfold ret. congruence.
Qed.

Lemma submit_single_submits_for w :
  submits_for osutil [request]
    w (GetObjectSubmitter._submit_single_get_object_job self request
         temp w).2.
Proof.
  unfold GetObjectSubmitter._submit_single_get_object_job.
  apply (frame_bind _ (submits_for_trans _ _)).
  - apply notify_expected_submits_for.
  - intros _ w0. apply item_put_submits_for.
    eexists. repeat split.
Qed.

Lemma submit_ranged_submits_for size w :
  submits_for osutil [request]
    w (GetObjectSubmitter._submit_ranged_get_object_jobs
         calculate_range_parameter self request temp size w).2.
Proof.
  unfold GetObjectSubmitter._submit_ranged_get_object_jobs.
  destruct (utils.calculate_num_parts _ _); [|apply submits_for_refl].
  apply (frame_bind _ (submits_for_trans _ _)).
  - apply notify_expected_submits_for.
  - intros _. apply (frame_for_each _ (submits_for_refl _ _)
                       (submits_for_trans _ _)).
    intros i w0. apply item_put_submits_for.
    eexists. repeat split.
Qed.

Lemma run_request_submits_for w :
  submits_for osutil [request]
    w (GetObjectSubmitter.run_request calculate_range_parameter self
         request w).2.
Proof.
  unfold GetObjectSubmitter.run_request.
  apply (frame_try_except _ (submits_for_trans _ _)).
  - intros w0. unfold GetObjectSubmitter._submit_get_object_jobs.
    apply (frame_bind _ (submits_for_trans _ _)).
    + apply get_size_submits_for.
    + intros size w1. unfold bind.
      pose proof (allocate_temp_file_submits_for size w1) as Ha.
      destruct (GetObjectSubmitter._allocate_temp_file self request size w1)
        as [[temp_filename|e] w2] eqn:E; [|exact Ha].
      apply allocate_temp_file_name in E as ->. simpl in Ha.
      eapply submits_for_trans; [exact Ha|].
      destruct (size <? _);
        [apply submit_single_submits_for | apply submit_ranged_submits_for].
  - intros e. apply (frame_bind _ (submits_for_trans _ _)).
    + apply notify_exception_submits_for.
    + intros _. apply notify_done_submits_for.
Qed.

(** *** The calls after [_get_size] *)

Lemma after_get_size_no_head_object size w :
  no_head_object w (after_get_size size w).2.
Proof.
  apply (frame_try_except _ no_head_object_trans).
  - apply (frame_bind _ no_head_object_trans).
    + intros w0. unfold GetObjectSubmitter._allocate_temp_file, bind,
        utils.OSUtils.allocate.
      destruct (utils.OSUtils.allocate_fault _ _ _);
        [|destruct (size <? 0)];
        (eapply no_head_object_call; [|reflexivity]; reflexivity).
    + intros temp_filename w0. destruct (size <? _).
      * unfold GetObjectSubmitter._submit_single_get_object_job.
        apply (frame_bind _ no_head_object_trans).
        -- intros w1. eapply no_head_object_call; [|reflexivity]; reflexivity.
        -- intros _ w1. eapply no_head_object_call; [|reflexivity];
             reflexivity.
      * unfold GetObjectSubmitter._submit_ranged_get_object_jobs.
        destruct (utils.calculate_num_parts _ _);
          [|apply no_head_object_refl].
        apply (frame_bind _ no_head_object_trans).
        -- intros w1. eapply no_head_object_call; [|reflexivity]; reflexivity.
        -- intros _. apply (frame_for_each _ no_head_object_refl
                              no_head_object_trans).
           intros i w1. eapply no_head_object_call; [|reflexivity];
             reflexivity.
  - intros e. apply (frame_bind _ no_head_object_trans).
    + intros w0. eapply no_head_object_call; [|reflexivity]; reflexivity.
    + intros _ w0. eapply no_head_object_call; [|reflexivity]; reflexivity.
Qed.

Lemma handler_no_head_object e w :
  no_head_object w
    (bind (Monitor.notify_exception t e) (fun _ => Monitor.notify_done t) w).2.
Proof.
  apply (frame_bind _ no_head_object_trans).
  - intros w0. eapply no_head_object_call; [|reflexivity]; reflexivity.
  - intros _ w0. eapply no_head_object_call; [|reflexivity]; reflexivity.
Qed.
End SubmitterFrames.

(** *** The requests one by one *)

(** X18: the handling of one request never raises, whatever the client and
    the file system do; it takes nothing from either queue and puts only
    jobs of this request, which all carry its transfer id, bucket, key and
    destination and one temp file name; it touches no file but that temp
    file and the state of no other transfer. *)
Theorem run_request_touches_its_own_transfer_only
    (calculate_range_parameter : Z -> Z -> Z -> string)
    (self : GetObjectSubmitter.t) (request : DownloadFileRequest.t)
    (w : World) :
  let osutil := GetObjectSubmitter._osutil self in
  let r := GetObjectSubmitter.run_request calculate_range_parameter self
             request w in
  r.1 = Return tt
  /\ download_request_queue r.2 = download_request_queue w
  /\ (exists new,
        worker_queue r.2 = worker_queue w ++ new
        /\ Forall (job_of_request osutil request) new)
  /\ (forall other : string,
        other <> utils.OSUtils.get_temp_filename osutil
                   (DownloadFileRequest.filename request) ->
        files r.2 !! other = files w !! other)
  /\ (forall t' : nat,
        t' <> DownloadFileRequest.transfer_id request ->
        monitor r.2 !!! t' = monitor w !!! t').
Proof.
  intros osutil r. split; [apply run_request_returns|].
  destruct (run_request_submits_for calculate_range_parameter self request w)
    as (Hr & (new & Hq & Hnew) & Hf & Hm).
  split; [exact Hr|]. split; [|split].
  - exists new. split; [exact Hq|].
    eapply Forall_impl; [exact Hnew|].
    intros item (request' & Hin & Hjob).
    apply list_elem_of_singleton in Hin as ->. exact Hjob.
  - intros other Ho. apply Hf. repeat constructor. exact Ho.
  - intros t' Ht. apply Hm. repeat constructor. exact Ht.
Qed.

(** X19: with an [expected_size] in the request the submitter makes no
    [head_object] call and allocates the temp file with that size; without
    one, the first thing it does is one [head_object] call, with the
    request's bucket, key and extra arguments, and it makes no other. *)
Theorem expected_size_replaces_head_object
    (calculate_range_parameter : Z -> Z -> Z -> string)
    (self : GetObjectSubmitter.t) (request : DownloadFileRequest.t)
    (w : World) :
  let r := GetObjectSubmitter.run_request calculate_range_parameter self
             request w in
  let temp_filename :=
    utils.OSUtils.get_temp_filename (GetObjectSubmitter._osutil self)
      (DownloadFileRequest.filename request) in
  exists d,
    Forall (fun c => is_head_object c = false) d
    /\ calls r.2
       = calls w
         ++ match DownloadFileRequest.expected_size request with
            | Some size => Call_allocate temp_filename size :: d
            | None =>
                Call_head_object (DownloadFileRequest.bucket request)
                  (DownloadFileRequest.key request)
                  (DownloadFileRequest.extra_args request) :: d
            end.
Proof.
  intros r temp_filename. subst r.
  rewrite run_request_after_get_size.
  unfold GetObjectSubmitter._get_size.
  destruct (DownloadFileRequest.expected_size request) as [size|].
  - unfold ret at 1.
    rewrite try_except_bind.
    unfold GetObjectSubmitter._allocate_temp_file at 1.
    unfold bind at 1. fold temp_filename.
    set (w1 := record_call (Call_allocate temp_filename size) w).
    assert (Hcases :
      utils.OSUtils.allocate (GetObjectSubmitter._osutil self) temp_filename
        size w
      = (Return tt,
         with_files (<[temp_filename := replicate (Z.to_nat size) x00]>
                       (files w1)) w1)
      \/ exists e,
           utils.OSUtils.allocate (GetObjectSubmitter._osutil self)
             temp_filename size w = (Raise e, w1)).
    { unfold utils.OSUtils.allocate. fold w1.
      destruct (utils.OSUtils.allocate_fault _ _ _); [right; eauto|].
      destruct (size <? 0); [right; eauto | left; reflexivity]. }
    destruct Hcases as [->|[e ->]].
    + unfold ret at 1.
      match goal with |- context [try_except ?m ?h ?w2] =>
        assert (Hrest : no_head_object w2 (try_except m h w2).2)
      end.
      { apply (frame_try_except _ no_head_object_trans).
        - intros w0. destruct (size <? _).
          + unfold GetObjectSubmitter._submit_single_get_object_job.
            apply (frame_bind _ no_head_object_trans).
            * intros w2. eapply no_head_object_call; [|reflexivity];
                reflexivity.
            * intros _ w2. eapply no_head_object_call; [|reflexivity];
                reflexivity.
          + unfold GetObjectSubmitter._submit_ranged_get_object_jobs.
            destruct (utils.calculate_num_parts _ _);
              [|apply no_head_object_refl].
            apply (frame_bind _ no_head_object_trans).
            * intros w2. eapply no_head_object_call; [|reflexivity];
                reflexivity.
            * intros _. apply (frame_for_each _ no_head_object_refl
                                 no_head_object_trans).
              intros i w2. eapply no_head_object_call; [|reflexivity];
                reflexivity.
        - intros e w0. apply handler_no_head_object. }
      destruct Hrest as (d & Hc & Hd). exists d. split; [exact Hd|].
      rewrite Hc. simpl. rewrite <- app_assoc. reflexivity.
    + destruct (handler_no_head_object request e w1) as (d & Hc & Hd).
      exists d. split; [exact Hd|].
      rewrite Hc. simpl. rewrite <- app_assoc. reflexivity.
  - unfold client_head_object.
    set (w1 := record_call _ w).
    destruct (head_object _ _ _ _) as [size|e].
    + destruct (after_get_size_no_head_object calculate_range_parameter self
                  request size w1) as (d & Hc & Hd).
      exists d. split; [exact Hd|].
      rewrite Hc. simpl. rewrite <- app_assoc. reflexivity.
    + destruct (handler_no_head_object request e w1) as (d & Hc & Hd).
      exists d. split; [exact Hd|].
      rewrite Hc. simpl. rewrite <- app_assoc. reflexivity.
Qed.

Lemma submits_for_other_queue osutil requests q w w' :
  submits_for osutil requests w w' ->
  submits_for osutil requests
    (with_download_request_queue q w) (with_download_request_queue q w').
Proof. intros (Hr & Hq & Hf & Hm). repeat split; assumption. Qed.

Lemma submitter_run_spec
    (calculate_range_parameter : Z -> Z -> Z -> string)
    (self : GetObjectSubmitter.t)
    (behind : option (list (queue_item DownloadFileRequest.t)))
    (requests : list DownloadFileRequest.t) :
  forall (iterations : nat) (w : World),
    download_request_queue w
    = (Item <$> requests)
      ++ match behind with
         | Some rest => SHUTDOWN_SIGNAL :: rest
         | None => []
         end ->
    (length requests < iterations)%nat ->
    let r := GetObjectSubmitter.run calculate_range_parameter iterations
               self w in
    r.1 = Return match behind with
                 | Some _ => Returned
                 | None => Waiting_in_get
                 end
    /\ submits_for (GetObjectSubmitter._osutil self) requests
         (with_download_request_queue (default [] behind) w) r.2.
Proof.
  induction requests as [|request requests IH]; intros iterations w Hq Hlen;
    (destruct iterations as [|iterations]; [simpl in Hlen; lia|]).
  - simpl in Hq. simpl. unfold bind, download_request_queue_get. rewrite Hq.
    destruct behind; simpl; (split; [reflexivity|]).
    + apply submits_for_refl.
    + rewrite <- Hq. replace (with_download_request_queue _ w) with w
        by (destruct w; reflexivity).
      apply submits_for_refl.
  - simpl in Hq, Hlen. cbv zeta.
    set (w1 := with_download_request_queue
                 ((Item <$> requests)
                    ++ match behind with
                       | Some rest => SHUTDOWN_SIGNAL :: rest
                       | None => []
                       end) w).
    pose proof (run_request_returns calculate_range_parameter self request w1)
      as Hret.
    pose proof (run_request_submits_for calculate_range_parameter self
                  request w1) as Hsub.
    assert (Hrun :
      GetObjectSubmitter.run calculate_range_parameter (S iterations) self w
      = GetObjectSubmitter.run calculate_range_parameter iterations self
          (GetObjectSubmitter.run_request calculate_range_parameter self
             request w1).2).
    { simpl. unfold bind at 1. unfold download_request_queue_get. rewrite Hq.
      unfold bind. change (with_download_request_queue _ w) with w1.
      destruct (GetObjectSubmitter.run_request _ self request w1) as [r2 w2].
      simpl in Hret. subst r2. reflexivity. }
    rewrite Hrun. clear Hrun Hret.
    destruct (GetObjectSubmitter.run_request _ self request w1) as [r2 w2].
    cbn [snd] in *.
    assert (Hq2 : download_request_queue w2
                  = (Item <$> requests)
                    ++ match behind with
                       | Some rest => SHUTDOWN_SIGNAL :: rest
                       | None => []
                       end).
    { destruct Hsub as (-> & _). reflexivity. }
    specialize (IH iterations w2 Hq2 ltac:(lia)). cbv zeta in IH.
    destruct IH as (H1 & H2). split; [exact H1|].
    eapply submits_for_trans.
    + eapply submits_for_weaken;
        [|apply (submits_for_other_queue _ _ (default [] behind) _ _ Hsub)].
      intros x ->%list_elem_of_singleton. apply list_elem_of_here.
    + eapply submits_for_weaken; [|exact H2].
      intros x Hx. apply list_elem_of_further. exact Hx.
Qed.



(** ** Shutdown of the submitter *)

(** The requests that a series of [download_file] calls leaves in the
    queue: one per future, under its id. *)
Lemma download_files_queue
    (ALLOWED_DOWNLOAD_ARGS : list string) (requests : list CallArgs.t) :
  forall (self : ProcessPoolDownloader.t) (w : World),
    let '(results, _, w') :=
      download_files ALLOWED_DOWNLOAD_ARGS self requests w in
    exists queued : list DownloadFileRequest.t,
      download_request_queue w' = download_request_queue w ++ (Item <$> queued)
      /\ DownloadFileRequest.transfer_id <$> queued = future_ids results
      /\ (length queued <= length requests)%nat.
Proof.
  induction requests as [|call_args requests IH]; intros self w; simpl.
  - exists []. rewrite app_nil_r. auto.
  - pose proof (download_file_step ALLOWED_DOWNLOAD_ARGS self
                  (CallArgs.bucket call_args) (CallArgs.key call_args)
                  (CallArgs.filename call_args)
                  (Some (CallArgs.extra_args call_args))
                  (CallArgs.expected_size call_args) w) as Hstep.
    destruct (ProcessPoolDownloader.download_file _ self _ _ _ _ _ w)
      as [[r self1] w1].
    specialize (IH self1 w1).
    destruct (download_files ALLOWED_DOWNLOAD_ARGS self1 requests w1)
      as [[rs self2] w2].
    destruct IH as (queued & Hq & Hids & Hlen).
    destruct Hstep as [_ Hstep].
    destruct r as [future|e]; simpl.
    + destruct Hstep as (Hid & _ & request & Hq1 & Hrid).
      exists (request :: queued).
      split; [rewrite Hq, Hq1, <- app_assoc; reflexivity|].
      split; [rewrite fmap_cons, Hrid, Hid, Hids; reflexivity | simpl; lia].
    + destruct Hstep as [_ ->]. exists queued.
      split; [exact Hq|]. split; [exact Hids | lia].
Qed.

Lemma Exists_is_handled_app t d1 d2 :
  Exists (fun c => is_handled t c = true) d2 ->
  Exists (fun c => is_handled t c = true) (d1 ++ d2).
Proof. intros H. apply Exists_app. right. exact H. Qed.

Section SubmitterHandles.
Variable calculate_range_parameter : Z -> Z -> Z -> string.
Variable self : GetObjectSubmitter.t.

(** However a request goes, the submitter answers for it on the monitor. *)
Lemma run_request_handles request w :
  exists d,
    calls (GetObjectSubmitter.run_request calculate_range_parameter self
             request w).2 = calls w ++ d
    /\ Exists (fun c =>
                 is_handled (DownloadFileRequest.transfer_id request) c = true)
         d.
Proof.
  unfold GetObjectSubmitter.run_request, try_except.
  destruct (submit_get_object_jobs_cases calculate_range_parameter self
              request w)
    as [(e & He & (_ & _ & _ & d & Hd & _))
       |(w2 & num_jobs & jobs & Hr & (_ & _ & _ & d & Hd & _) & _)].
  - destruct (GetObjectSubmitter._submit_get_object_jobs _ self request w)
      as [r w1].
    simpl in He, Hd. subst r. simpl. rewrite Hd.
    eexists. rewrite <- !app_assoc. split; [reflexivity|].
    apply Exists_is_handled_app. apply Exists_cons. right.
    apply Exists_cons. left. simpl. apply Nat.eqb_refl.
  - rewrite Hr. simpl. rewrite Hd.
    eexists. rewrite <- !app_assoc. split; [reflexivity|].
    apply Exists_is_handled_app. apply Exists_cons. left.
    simpl. apply Nat.eqb_refl.
Qed.

Lemma submitter_run_handles
    (behind : option (list (queue_item DownloadFileRequest.t)))
    (requests : list DownloadFileRequest.t) :
  forall (iterations : nat) (w : World),
    download_request_queue w
    = (Item <$> requests)
      ++ match behind with
         | Some rest => SHUTDOWN_SIGNAL :: rest
         | None => []
         end ->
    (length requests < iterations)%nat ->
    exists d,
      calls (GetObjectSubmitter.run calculate_range_parameter iterations
               self w).2 = calls w ++ d
      /\ Forall (fun request =>
                   Exists (fun c =>
                             is_handled
                               (DownloadFileRequest.transfer_id request) c
                             = true) d)
           requests.
Proof.
  induction requests as [|request requests IH]; intros iterations w Hq Hlen;
    (destruct iterations as [|iterations]; [simpl in Hlen; lia|]).
  - simpl in Hq. simpl. unfold bind, download_request_queue_get. rewrite Hq.
    exists []. destruct behind; simpl; rewrite app_nil_r; auto.
  - simpl in Hq, Hlen.
    set (w1 := with_download_request_queue
                 ((Item <$> requests)
                    ++ match behind with
                       | Some rest => SHUTDOWN_SIGNAL :: rest
                       | None => []
                       end) w).
    pose proof (run_request_returns calculate_range_parameter self request w1)
      as Hret.
    pose proof (run_request_submits_for calculate_range_parameter self
                  request w1) as (Hq2 & _).
    destruct (run_request_handles request w1) as (d1 & Hd1 & Hh1).
    assert (Hrun :
      GetObjectSubmitter.run calculate_range_parameter (S iterations) self w
      = GetObjectSubmitter.run calculate_range_parameter iterations self
          (GetObjectSubmitter.run_request calculate_range_parameter self
             request w1).2).
    { simpl. unfold bind at 1. unfold download_request_queue_get. rewrite Hq.
      unfold bind. change (with_download_request_queue _ w) with w1.
      destruct (GetObjectSubmitter.run_request _ self request w1) as [r2 w2].
      simpl in Hret. subst r2. reflexivity. }
    rewrite Hrun. clear Hrun Hret.
    destruct (GetObjectSubmitter.run_request _ self request w1) as [r2 w2].
    cbn [snd] in *.
    destruct (IH iterations w2 Hq2 ltac:(lia)) as (d2 & Hd2 & Hh2).
    exists (d1 ++ d2). rewrite Hd2, Hd1, <- app_assoc.
    split; [reflexivity|]. constructor.
    + apply Exists_app. left. exact Hh1.
    + eapply Forall_impl; [exact Hh2|].
      intros request' H. apply Exists_app. right. exact H.
Qed.
End SubmitterHandles.

(** X21: [shutdown] drops no request.  When the caller has made its
    [download_file] calls on an empty request queue and [_shutdown_submitter]
    puts the signal behind them, the submitter handles every accepted
    request before it reads the signal and returns: the request queue is
    left empty, and for the id of every future the monitor was told the
    number of its jobs or that the transfer is done. *)
Theorem shutdown_lets_the_submitter_handle_every_request
    (ALLOWED_DOWNLOAD_ARGS : list string)
    (calculate_range_parameter : Z -> Z -> Z -> string)
    (downloader : ProcessPoolDownloader.t) (submitter : GetObjectSubmitter.t)
    (requests : list CallArgs.t) (iterations : nat) (w : World) :
  download_request_queue w = [] ->
  (length requests < iterations)%nat ->
  let '(results, _, w1) :=
    download_files ALLOWED_DOWNLOAD_ARGS downloader requests w in
  let r := GetObjectSubmitter.run calculate_range_parameter iterations
             submitter (Shutdown._shutdown_submitter w1).2 in
  r.1 = Return Returned
  /\ download_request_queue r.2 = []
  /\ Forall (fun t => Exists (fun c => is_handled t c = true) (calls r.2))
       (future_ids results).
Proof.
  intros Hempty Hlen.
  pose proof (download_files_queue ALLOWED_DOWNLOAD_ARGS requests downloader w)
    as Hqueue.
  destruct (download_files ALLOWED_DOWNLOAD_ARGS downloader requests w)
    as [[results downloader'] w1].
  destruct Hqueue as (queued & Hq & Hids & Hle).
  rewrite Hempty in Hq. simpl in Hq. cbv zeta.
  assert (Hq2 : download_request_queue (Shutdown._shutdown_submitter w1).2
                = (Item <$> queued) ++ SHUTDOWN_SIGNAL :: []).
  { simpl. rewrite Hq. reflexivity. }
  destruct (submitter_run_spec calculate_range_parameter submitter (Some [])
              queued iterations _ Hq2 ltac:(lia)) as (H1 & H2 & _).
  destruct (submitter_run_handles calculate_range_parameter submitter
              (Some []) queued iterations _ Hq2 ltac:(lia))
    as (d & Hd & Hh).
  split; [exact H1|]. split; [exact H2|].
  rewrite <- Hids. apply Forall_fmap.
  eapply Forall_impl; [exact Hh|].
  intros request H. unfold compose. rewrite Hd.
  apply Exists_app. right. exact H.
Qed.

Lemma shutdown_lets_the_submitter_handle_every_request_witness :
  let '(results, _, w1) :=
    download_files ["VersionId"] (ProcessPoolDownloader.__init__ None)
      [{| CallArgs.bucket := "bucket"; CallArgs.key := "key";
          CallArgs.filename := "file";
          CallArgs.extra_args := [("VersionId", "1")];
          CallArgs.expected_size := Some 20 |};
       {| CallArgs.bucket := "bucket"; CallArgs.key := "other";
          CallArgs.filename := "copy";
          CallArgs.extra_args := [("Range", "bytes=0-9")];
          CallArgs.expected_size := None |}]
      empty_world in
  let r := GetObjectSubmitter.run utils.calculate_range_parameter 3
             Fixture.submitter (Shutdown._shutdown_submitter w1).2 in
  r.1 = Return Returned
  /\ download_request_queue r.2 = []
  /\ Forall (fun t => Exists (fun c => is_handled t c = true) (calls r.2))
       (future_ids results).
Proof.
  apply (shutdown_lets_the_submitter_handle_every_request ["VersionId"]
           utils.calculate_range_parameter
           (ProcessPoolDownloader.__init__ None) Fixture.submitter
           [{| CallArgs.bucket := "bucket"; CallArgs.key := "key";
               CallArgs.filename := "file";
               CallArgs.extra_args := [("VersionId", "1")];
               CallArgs.expected_size := Some 20 |};
            {| CallArgs.bucket := "bucket"; CallArgs.key := "other";
               CallArgs.filename := "copy";
               CallArgs.extra_args := [("Range", "bytes=0-9")];
               CallArgs.expected_size := None |}]
           3 empty_world).
  - reflexivity.
  - simpl. lia.
Defined.

(** ** A ranged download without parts *)

(** X22: when the ranged branch computes no part, which is what happens to
    an empty object once the threshold is zero or less, the submitter
    registers that count, puts no job and returns without marking the
    transfer done and without recording a failure: it leaves no job whose
    completion could finalize the transfer. *)
Theorem ranged_download_without_parts_is_left_undone
    (calculate_range_parameter : Z -> Z -> Z -> string)
    (self : GetObjectSubmitter.t) (request : DownloadFileRequest.t)
    (w w1 w2 : World) (size : Z) (temp_filename : string) :
  GetObjectSubmitter._get_size self request w = (Return size, w1) ->
  GetObjectSubmitter._allocate_temp_file self request size w1
    = (Return temp_filename, w2) ->
  multipart_threshold (GetObjectSubmitter._transfer_config self) <= size ->
  multipart_chunksize (GetObjectSubmitter._transfer_config self) <> 0 ->
  let t := DownloadFileRequest.transfer_id request in
  let part_size :=
    multipart_chunksize (GetObjectSubmitter._transfer_config self) in
  let num_parts := - (- size / part_size) in
  num_parts <= 0 ->
  let r := GetObjectSubmitter.run_request calculate_range_parameter self
             request w in
  r.1 = Return tt
  /\ worker_queue r.2 = worker_queue w
  /\ calls r.2 = calls w2 ++ [Call_notify_expected_jobs_to_complete t num_parts]
  /\ count_of t r.2 = num_parts
  /\ TransferState.done (monitor r.2 !!! t)
     = TransferState.done (monitor w !!! t)
  /\ TransferState.exception (monitor r.2 !!! t)
     = TransferState.exception (monitor w !!! t).
Proof.
  intros Hsize Halloc Hge Hne t part_size num_parts Hparts r.
  pose proof (get_size_io_only self request w) as H1.
  pose proof (allocate_temp_file_io_only self request size w1) as H2.
  rewrite Hsize in H1. rewrite Halloc in H2. simpl in H1, H2.
  destruct (io_only_fields _ _ (io_only_trans _ _ _ H1 H2)) as [Hm Hq].
  subst r. unfold GetObjectSubmitter.run_request, try_except.
  rewrite (ranged_branch calculate_range_parameter self request w w1 w2 size
             temp_filename Hsize Halloc Hge Hne).
  fold part_size num_parts.
  assert (Hjobs : ranged_jobs calculate_range_parameter request temp_filename
                    part_size num_parts = []).
  { unfold ranged_jobs, seqZ. replace (Z.to_nat num_parts) with 0%nat by lia.
    reflexivity. }
  rewrite Hjobs. unfold submitted, count_of. simpl.
  rewrite app_nil_r, Hq, Hm.
  rewrite notify_expected_lookup, decide_True by reflexivity.
  repeat split.
Qed.

Lemma ranged_download_without_parts_is_left_undone_witness :
  let submitter :=
    {| GetObjectSubmitter._transfer_config :=
         {| multipart_threshold := 0; multipart_chunksize := 8;
            max_request_processes := 2 |};
       GetObjectSubmitter._client := Fixture.client;
       GetObjectSubmitter._osutil := Fixture.osutil |} in
  let r := GetObjectSubmitter.run_request utils.calculate_range_parameter
             submitter (Fixture.request (Some 0)) empty_world in
  r.1 = Return tt
  /\ worker_queue r.2 = []
  /\ count_of 0 r.2 = 0
  /\ TransferState.done (monitor r.2 !!! 0%nat) = false.
Proof.
  intros submitter r.
  destruct (ranged_download_without_parts_is_left_undone
              utils.calculate_range_parameter submitter
              (Fixture.request (Some 0)) empty_world empty_world
              (GetObjectSubmitter._allocate_temp_file submitter
                 (Fixture.request (Some 0)) 0 empty_world).2
              0 "file.tmp")
    as (H1 & H2 & _ & H4 & H5 & _);
    [reflexivity | reflexivity | simpl; lia | discriminate
    | vm_compute; discriminate |].
  split; [exact H1|]. split; [exact H2|]. split; [exact H4|].
  exact H5.
Defined.

(** ** Further properties of the pool *)

Section PoolDone.
Variable S3_RETRYABLE_DOWNLOAD_ERRORS : exn -> bool.
Variable self : GetObjectWorker.t.

(** A step of a worker leaves the done flag of [t] as it was, unless it is
    the finalize of a job of [t], which sets it. *)
Lemma worker_step_done i pos w pos' w' ev t :
  Pool.worker_step S3_RETRYABLE_DOWNLOAD_ERRORS self i pos w
    = Some (pos', w', ev) ->
  (TransferState.done (monitor w' !!! t) = TransferState.done (monitor w !!! t)
   /\ Pool.is_finalize t ev = 0%nat)
  \/ (TransferState.done (monitor w' !!! t) = true
      /\ Pool.is_finalize t ev = 1%nat).
Proof.
  unfold Pool.worker_step.
  destruct pos as [|job|job|job|job| |e]; try discriminate.
  - unfold worker_queue_get.
    destruct (worker_queue w) as [|[job|] q]; [discriminate| |];
      intros [= <- <- <-]; left; split; reflexivity.
  - pose proof (get_exception_keeps_done (transfer_id job) w t) as Hd.
    destruct (Monitor.get_exception (transfer_id job) w) as [[[e|]|e] w1];
      intros [= <- <- <-]; left; split; (exact Hd || reflexivity).
  - pose proof (run_get_object_job_keeps_done S3_RETRYABLE_DOWNLOAD_ERRORS
                  self job w t) as Hd.
    destruct (GetObjectWorker._run_get_object_job _ _ _ w) as [[[]|e] w1];
      intros [= <- <- <-]; left; split; (exact Hd || reflexivity).
  - pose proof (notify_job_complete_keeps_done (transfer_id job) w t) as Hd.
    destruct (Monitor.notify_job_complete (transfer_id job) w)
      as [[remaining|e] w1];
      intros [= <- <- <-]; left; split; (exact Hd || reflexivity).
  - pose proof (finalize_download_returns self (transfer_id job)
                  (temp_filename job) (filename job) w) as Hr.
    pose proof (finalize_download_sets_done self (transfer_id job)
                  (temp_filename job) (filename job) w) as Hd.
    pose proof (finalize_download_touches_only self (transfer_id job)
                  (temp_filename job) (filename job) w) as (_ & _ & _ & Hm).
    destruct (GetObjectWorker._finalize_download _ _ _ _ w) as [r w1].
    simpl in Hr, Hd, Hm. subst r. intros [= <- <- <-]. simpl.
    unfold Pool.of_transfer.
    destruct (decide (transfer_id job = t)) as [<-|Hne].
    + right. split; [exact Hd | reflexivity].
    + left. split; [|reflexivity]. rewrite Hm by congruence. reflexivity.
Qed.

Lemma step_done a s s' t :
  Pool.step S3_RETRYABLE_DOWNLOAD_ERRORS self a s = Some s' ->
  (TransferState.done (monitor (Pool.world s') !!! t)
   = TransferState.done (monitor (Pool.world s) !!! t)
   /\ Pool.count (Pool.is_finalize t) (Pool.trace s')
      = Pool.count (Pool.is_finalize t) (Pool.trace s))
  \/ (TransferState.done (monitor (Pool.world s') !!! t) = true
      /\ Pool.count (Pool.is_finalize t) (Pool.trace s')
         = S (Pool.count (Pool.is_finalize t) (Pool.trace s))).
Proof.
  destruct a as [i| |t0]; simpl.
  - destruct (Pool.workers s !! i) as [pos|]; [|discriminate].
    destruct (Pool.worker_step _ _ i pos (Pool.world s))
      as [[[pos' w'] ev]|] eqn:Hw; [|discriminate].
    intros [= <-]. simpl. rewrite count_snoc.
    destruct (worker_step_done _ _ _ _ _ _ t Hw) as [[Hd ->]|[Hd ->]];
      [left | right]; (split; [exact Hd | lia]).
  - destruct (Pool.to_put s) as [|job rest]; [discriminate|].
    intros [= <-]. simpl. rewrite count_snoc. simpl.
    left. split; [reflexivity | lia].
  - intros [= <-]. simpl. rewrite count_snoc. simpl.
    left. split; [|lia].
    rewrite notify_exception_lookup. case_decide; [subst|]; reflexivity.
Qed.

Lemma run_done schedule : forall s s' t,
  Pool.run S3_RETRYABLE_DOWNLOAD_ERRORS self schedule s = Some s' ->
  (Pool.count (Pool.is_finalize t) (Pool.trace s)
   <= Pool.count (Pool.is_finalize t) (Pool.trace s'))%nat
  /\ TransferState.done (monitor (Pool.world s') !!! t)
     = TransferState.done (monitor (Pool.world s) !!! t)
       || bool_decide (Pool.count (Pool.is_finalize t) (Pool.trace s)
                       < Pool.count (Pool.is_finalize t) (Pool.trace s'))%nat.
Proof.
  induction schedule as [|a schedule IH]; intros s s' t; simpl.
  - intros [= <-]. split; [lia|].
    rewrite bool_decide_eq_false_2 by lia. rewrite orb_false_r. reflexivity.
  - destruct (Pool.step _ _ a s) as [s1|] eqn:Hstep; [|discriminate].
    intros Hrun. destruct (IH s1 s' t Hrun) as [Hle Hd].
    destruct (step_done a s s1 t Hstep) as [[Hd1 Hc1]|[Hd1 Hc1]];
      rewrite Hc1 in Hle, Hd; (split; [lia|]); rewrite Hd, Hd1.
    + reflexivity.
    + simpl. rewrite bool_decide_eq_true_2 by lia. rewrite orb_true_r.
      reflexivity.
Qed.
End PoolDone.

(** X23: in the pool a transfer becomes done through finalize and in no
    other way: whatever the schedule, with cancels and failed downloads in
    it, a transfer is done at the end exactly if it was done at the start or
    a worker has run finalize for it since. *)
Theorem done_comes_with_finalize
    (S3_RETRYABLE_DOWNLOAD_ERRORS : exn -> bool) (self : GetObjectWorker.t)
    (schedule : list Pool.action) (s s' : Pool.state) (t : nat) :
  Pool.run S3_RETRYABLE_DOWNLOAD_ERRORS self schedule s = Some s' ->
  TransferState.done (monitor (Pool.world s') !!! t)
  = TransferState.done (monitor (Pool.world s) !!! t)
    || bool_decide (Pool.count (Pool.is_finalize t) (Pool.trace s)
                    < Pool.count (Pool.is_finalize t) (Pool.trace s'))%nat.
Proof. intros Hrun. apply (run_done _ _ _ _ _ _ Hrun). Qed.

Lemma done_comes_with_finalize_witness :
  exists s' : Pool.state,
    Pool.run Fixture.retryable Fixture.worker Fixture.schedule Fixture.pool
      = Some s'
    /\ TransferState.done (monitor (Pool.world s') !!! 0%nat)
       = TransferState.done (monitor (Pool.world Fixture.pool) !!! 0%nat)
         || bool_decide
              (Pool.count (Pool.is_finalize 0) (Pool.trace Fixture.pool)
               < Pool.count (Pool.is_finalize 0) (Pool.trace s'))%nat.
Proof.
  eexists. split; [vm_compute; reflexivity|].
  apply (done_comes_with_finalize Fixture.retryable Fixture.worker
           Fixture.schedule).
  vm_compute. reflexivity.
Defined.

(** ** Shutdown of the pool *)

Lemma count_all_exited (workers : list Pool.position) :
  Forall (fun pos => pos = Pool.Exited) workers ->
  Pool.count is_exited workers = length workers
  /\ forall t,
       Pool.count (Pool.before_decrement t) workers = 0%nat
       /\ Pool.count (Pool.about_to_finalize t) workers = 0%nat.
Proof.
  induction 1 as [|pos workers -> _ [IH1 IH2]]; [split; [reflexivity|auto]|].
  split; [rewrite count_cons, IH1; reflexivity|].
  intros t. rewrite !count_cons. destruct (IH2 t) as [-> ->]. auto.
Qed.

Lemma replicate_snoc {A} (n : nat) (x : A) :
  replicate n x ++ [x] = replicate (S n) x.
Proof. induction n as [|n IH]; simpl; [reflexivity|]. rewrite IH. reflexivity. Qed.

Section ShutdownSteps.
Variable S3_RETRYABLE_DOWNLOAD_ERRORS : exn -> bool.
Variable self : GetObjectWorker.t.

(** A step of a worker takes the front of the queue, at [get], or leaves
    the queue alone; the worker leaves its loop only by taking a signal. *)
Lemma worker_step_queue i pos w pos' w' ev :
  Pool.worker_step S3_RETRYABLE_DOWNLOAD_ERRORS self i pos w
    = Some (pos', w', ev) ->
  (is_exited pos = 0%nat
   /\ exists item,
        worker_queue w = item :: worker_queue w'
        /\ is_exited pos'
           = match item with SHUTDOWN_SIGNAL => 1%nat | Item _ => 0%nat end)
  \/ (is_exited pos = 0%nat /\ is_exited pos' = 0%nat
      /\ worker_queue w' = worker_queue w).
Proof.
  unfold Pool.worker_step.
  destruct pos as [|job|job|job|job| |e]; try discriminate.
  - unfold worker_queue_get.
    destruct (worker_queue w) as [|[job|] q]; [discriminate| |];
      intros [= <- <- <-]; left; (split; [reflexivity|]);
      eexists; split; reflexivity.
  - destruct (get_exception_world (transfer_id job) w) as (m & -> & _).
    destruct (TransferState.exception _); intros [= <- <- <-];
      right; repeat split.
  - pose proof (run_get_object_job_keeps_counts S3_RETRYABLE_DOWNLOAD_ERRORS
                  self job w) as [Hq _].
    destruct (GetObjectWorker._run_get_object_job _ _ _ w) as [[[]|e] w1];
      intros [= <- <- <-]; right; repeat split; exact Hq.
  - unfold Monitor.notify_job_complete.
    destruct (TransferMonitor.notify_job_complete _ _) as [remaining m].
    intros [= <- <- <-]. right.
    destruct (remaining =? 0); repeat split.
  - pose proof (finalize_download_keeps_counts self (transfer_id job)
                  (temp_filename job) (filename job) w) as [Hq _].
    destruct (GetObjectWorker._finalize_download _ _ _ _ w) as [[[]|e] w1];
      intros [= <- <- <-]; right; repeat split; exact Hq.
Qed.

(** Before shutdown: no signal is in the queue and no worker has left. *)
Lemma step_no_signal a s s' :
  Pool.step S3_RETRYABLE_DOWNLOAD_ERRORS self a s = Some s' ->
  Forall (fun item => item <> SHUTDOWN_SIGNAL) (worker_queue (Pool.world s)) ->
  Pool.count is_exited (Pool.workers s) = 0%nat ->
  Forall (fun item => item <> SHUTDOWN_SIGNAL) (worker_queue (Pool.world s'))
  /\ Pool.count is_exited (Pool.workers s') = 0%nat
  /\ length (Pool.workers s') = length (Pool.workers s).
Proof.
  intros Hstep Hq He. destruct a as [i| |t0]; simpl in Hstep.
  - destruct (Pool.workers s !! i) as [pos|] eqn:Hpos; [|discriminate].
    destruct (Pool.worker_step _ _ i pos (Pool.world s))
      as [[[pos' w'] ev]|] eqn:Hw; [|discriminate].
    injection Hstep as <-. simpl.
    pose proof (count_insert is_exited _ i pos pos' Hpos) as Hc.
    rewrite length_insert.
    destruct (worker_step_queue _ _ _ _ _ _ Hw)
      as [(Hp & item & Hitem & Hp')|(Hp & Hp' & Hsame)].
    + rewrite Hitem in Hq. apply Forall_cons in Hq as [Hi Hq].
      destruct item; [|congruence].
      split; [exact Hq|]. split; [lia | reflexivity].
    + rewrite Hsame. split; [exact Hq|]. split; [lia | reflexivity].
  - destruct (Pool.to_put s) as [|job rest]; [discriminate|].
    injection Hstep as <-. simpl.
    split; [|auto]. apply Forall_app. split; [exact Hq|].
    repeat constructor. discriminate.
  - injection Hstep as <-. simpl. auto.
Qed.

Lemma run_no_signal schedule : forall s s',
  Pool.run S3_RETRYABLE_DOWNLOAD_ERRORS self schedule s = Some s' ->
  Forall (fun item => item <> SHUTDOWN_SIGNAL) (worker_queue (Pool.world s)) ->
  Pool.count is_exited (Pool.workers s) = 0%nat ->
  Forall (fun item => item <> SHUTDOWN_SIGNAL) (worker_queue (Pool.world s'))
  /\ Pool.count is_exited (Pool.workers s') = 0%nat
  /\ length (Pool.workers s') = length (Pool.workers s).
Proof.
  induction schedule as [|a schedule IH]; intros s s'; simpl.
  - intros [= <-]. auto.
  - destruct (Pool.step _ _ a s) as [s1|] eqn:Hstep; [|discriminate].
    intros Hrun Hq He.
    destruct (step_no_signal a s s1 Hstep Hq He) as (Hq1 & He1 & Hl1).
    destruct (IH s1 s' Hrun Hq1 He1) as (Hq2 & He2 & Hl2).
    split; [exact Hq2|]. split; [exact He2 | congruence].
Qed.

Lemma shutdown_step_invariant a s s' :
  Shutdown.step S3_RETRYABLE_DOWNLOAD_ERRORS self a s = Some s' ->
  shutdown_invariant s -> shutdown_invariant s'.
Proof.
  intros Hstep (Hput & jobs & signals & Hq & Hn & Hjobs).
  destruct a as [[i| |t0]|]; simpl in Hstep.
  - (* a worker moves *)
    destruct (Pool.workers (Shutdown.pool s) !! i) as [pos|] eqn:Hpos;
      [|discriminate].
    destruct (Pool.worker_step _ _ i pos (Pool.world (Shutdown.pool s)))
      as [[[pos' w'] ev]|] eqn:Hw; [|discriminate].
    injection Hstep as <-. split; [exact Hput|]. simpl.
    pose proof (count_insert is_exited _ i pos pos' Hpos) as Hc.
    rewrite length_insert.
    destruct (worker_step_queue _ _ _ _ _ _ Hw)
      as [(Hp & item & Hitem & Hp')|(Hp & Hp' & Hsame)].
    + rewrite Hq in Hitem. destruct jobs as [|job jobs].
      * destruct signals as [|signals]; [discriminate|].
        simpl in Hitem. injection Hitem as <- Hq'.
        exists [], signals. split; [symmetry; exact Hq'|].
        split; [lia | congruence].
      * simpl in Hitem. injection Hitem as <- Hq'.
        exists jobs, signals. split; [symmetry; exact Hq'|].
        specialize (Hjobs ltac:(discriminate)). split; lia.
    + exists jobs, signals. rewrite Hsame. split; [exact Hq|].
      split; [lia|]. intros Hne. specialize (Hjobs Hne). lia.
  - (* the submitter has nothing left to put *)
    rewrite Hput in Hstep. discriminate.
  - (* a caller cancels *)
    injection Hstep as <-. split; [exact Hput|]. simpl.
    exists jobs, signals. auto.
  - (* a signal is put *)
    destruct (Shutdown.signals_to_put s) as [|n] eqn:Hs; [discriminate|].
    injection Hstep as <-. split; [exact Hput|]. simpl.
    exists jobs, (S signals). rewrite Hq, <- app_assoc, replicate_snoc.
    split; [reflexivity|]. split; [lia | exact Hjobs].
Qed.

Lemma shutdown_step_pool_invariant n a s s' :
  Shutdown.step S3_RETRYABLE_DOWNLOAD_ERRORS self a s = Some s' ->
  pool_invariant n (Shutdown.pool s) -> pool_invariant n (Shutdown.pool s').
Proof.
  intros Hstep Hinv. destruct a as [a|]; simpl in Hstep.
  - destruct (Pool.step _ _ a (Shutdown.pool s)) as [p|] eqn:Hp;
      [|discriminate].
    injection Hstep as <-. simpl. eapply step_invariant; eassumption.
  - destruct (Shutdown.signals_to_put s); [discriminate|].
    injection Hstep as <-. simpl. destruct Hinv as [Halive Hinv].
    split; [exact Halive|]. intros t. specialize (Hinv t).
    unfold Pool.jobs_remaining, Pool.outstanding in *. simpl.
    rewrite count_snoc. simpl. rewrite !Nat.add_0_r. exact Hinv.
Qed.

(** From the start of shutdown on: the pool's invariants go on, and a
    transfer for which finalize has run is done. *)
Lemma shutdown_run_invariant n t schedule : forall s s',
  Shutdown.run S3_RETRYABLE_DOWNLOAD_ERRORS self schedule s = Some s' ->
  shutdown_invariant s ->
  pool_invariant n (Shutdown.pool s) ->
  ((1 <= Pool.count (Pool.is_finalize t) (Pool.trace (Shutdown.pool s)))%nat
   -> TransferState.done (monitor (Pool.world (Shutdown.pool s)) !!! t)
      = true) ->
  shutdown_invariant s'
  /\ pool_invariant n (Shutdown.pool s')
  /\ ((1 <= Pool.count (Pool.is_finalize t)
              (Pool.trace (Shutdown.pool s')))%nat ->
      TransferState.done (monitor (Pool.world (Shutdown.pool s')) !!! t)
      = true).
Proof.
  induction schedule as [|a schedule IH]; intros s s'; simpl.
  - intros [= <-]. auto.
  - destruct (Shutdown.step _ _ a s) as [s1|] eqn:Hstep; [|discriminate].
    intros Hrun HJ HP HD. apply (IH s1 s' Hrun).
    + eapply shutdown_step_invariant; eassumption.
    + eapply shutdown_step_pool_invariant; eassumption.
    + intros Hc. destruct a as [a|]; simpl in Hstep.
      * destruct (Pool.step _ _ a (Shutdown.pool s)) as [p|] eqn:Hp;
          [|discriminate].
        injection Hstep as <-. simpl in *.
        destruct (step_done _ _ _ _ _ t Hp) as [[Hd1 Hc1]|[Hd1 _]];
          [|exact Hd1].
        rewrite Hd1. apply HD. lia.
      * destruct (Shutdown.signals_to_put s); [discriminate|].
        injection Hstep as <-. simpl in *. apply HD. exact Hc.
Qed.
End ShutdownSteps.

(** X24: [shutdown] does not return before the downloads are complete.
    Take a pool that started with its counts registered, no signal in the
    queue and at least one worker, at a moment when the submitter has put
    all its jobs, and let [_shutdown_get_object_workers] put one signal per
    worker while the workers go on in any order.  When every worker has left
    its loop, every signal was put and taken, the queue is empty, and each
    transfer that had jobs was counted down by all of them, finalized
    exactly once, and is done. *)
Theorem shutdown_waits_for_every_transfer
    (S3_RETRYABLE_DOWNLOAD_ERRORS : exn -> bool) (self : GetObjectWorker.t)
    (s0 pool : Pool.state) (s : Shutdown.state)
    (schedule : list Pool.action) (shutdown_schedule : list Shutdown.action)
    (t : nat) :
  Pool.initial s0 ->
  Forall (fun item => item <> SHUTDOWN_SIGNAL)
    (worker_queue (Pool.world s0)) ->
  Pool.workers s0 <> [] ->
  Pool.run S3_RETRYABLE_DOWNLOAD_ERRORS self schedule s0 = Some pool ->
  Pool.to_put pool = [] ->
  Shutdown.run S3_RETRYABLE_DOWNLOAD_ERRORS self shutdown_schedule
    (Shutdown.start pool) = Some s ->
  Shutdown.joined s ->
  Shutdown.signals_to_put s = 0%nat
  /\ worker_queue (Pool.world (Shutdown.pool s)) = []
  /\ ((1 <= Pool.outstanding t s0)%nat ->
      Pool.count (Pool.is_decrement t) (Pool.trace (Shutdown.pool s))
      = Pool.outstanding t s0
      /\ Pool.count (Pool.is_finalize t) (Pool.trace (Shutdown.pool s))
         = 1%nat
      /\ TransferState.done (monitor (Pool.world (Shutdown.pool s)) !!! t)
         = true).
Proof.
  intros Hinit Hq0 Hw0 Hrun Hput Hshut Hjoined.
  pose proof Hinit as (Hws0 & Htr0 & _).
  assert (He0 : Pool.count is_exited (Pool.workers s0) = 0%nat).
  { apply count_zero. eapply Forall_impl; [exact Hws0|].
    intros pos ->. reflexivity. }
  destruct (run_no_signal _ _ _ _ _ Hrun Hq0 He0) as (Hq & He & Hlen).
  pose proof (run_invariant _ _ _ _ _ _ (initial_invariant _ Hinit) Hrun)
    as Hinv.
  pose proof (run_done _ _ _ _ _ t Hrun) as [_ Hdone].
  rewrite Htr0 in Hdone.
  assert (HJ : shutdown_invariant (Shutdown.start pool)).
  { split; [exact Hput|]. simpl.
    assert (Hitems : exists jobs,
               worker_queue (Pool.world pool) = Item <$> jobs).
    { clear -Hq. induction (worker_queue (Pool.world pool)) as [|item q IH].
      - exists []. reflexivity.
      - apply Forall_cons in Hq as [Hi Hq]. destruct (IH Hq) as [jobs ->].
        destruct item as [job|]; [|congruence].
        exists (job :: jobs). reflexivity. }
    destruct Hitems as [jobs Hjobs]. exists jobs, 0%nat.
    rewrite Hjobs, app_nil_r. split; [reflexivity|]. split; [lia|auto]. }
  destruct (shutdown_run_invariant _ _ _ t _ _ _ Hshut HJ Hinv)
    as ((_ & jobs & signals & Hqs & Hn & Hjobs) & [_ Hinvs] & Hdones).
  { simpl. intros Hc. rewrite Hdone.
    rewrite bool_decide_eq_true_2 by (unfold Pool.count at 1; simpl; lia).
    apply orb_true_r. }
  destruct (count_all_exited _ Hjoined) as [Hall Hnone].
  assert (Hlens : length (Pool.workers (Shutdown.pool s)) <> 0%nat).
  { clear -Hshut Hlen Hw0.
    assert (Hl : forall schedule s s',
               Shutdown.run S3_RETRYABLE_DOWNLOAD_ERRORS self schedule s
                 = Some s' ->
               length (Pool.workers (Shutdown.pool s'))
               = length (Pool.workers (Shutdown.pool s))).
    { induction schedule as [|a schedule IH]; intros s1 s2; simpl.
      - intros [= <-]. reflexivity.
      - destruct (Shutdown.step _ _ a s1) as [s3|] eqn:Hstep; [|discriminate].
        intros Hr. rewrite (IH _ _ Hr). clear -Hstep.
        destruct a as [[i| |t0]|]; simpl in Hstep.
        + destruct (Pool.workers (Shutdown.pool s1) !! i); [|discriminate].
          destruct (Pool.worker_step _ _ _ _ _) as [[[? ?] ?]|];
            [|discriminate].
          injection Hstep as <-. simpl. apply length_insert.
        + destruct (Pool.to_put (Shutdown.pool s1)); [discriminate|].
          injection Hstep as <-. reflexivity.
        + injection Hstep as <-. reflexivity.
        + destruct (Shutdown.signals_to_put s1); [discriminate|].
          injection Hstep as <-. reflexivity. }
    rewrite (Hl _ _ _ Hshut). simpl. rewrite Hlen.
    destruct (Pool.workers s0); [congruence | discriminate]. }
  assert (Hnojobs : jobs = []).
  { destruct jobs as [|job jobs]; [reflexivity|].
    specialize (Hjobs ltac:(discriminate)). lia. }
  subst jobs. assert (signals = 0%nat) as -> by lia. simpl in Hqs.
  split; [lia|]. split; [exact Hqs|].
  intros Hsome.
  destruct (Hinvs t) as (_ & Hgot & Hdec & Hfin & Hzero).
  destruct (Hnone t) as [Hb Ha].
  assert (Hout : Pool.outstanding t (Shutdown.pool s) = 0%nat).
  { unfold Pool.outstanding.
    destruct (shutdown_run_invariant _ _ _ t _ _ _ Hshut HJ Hinv)
      as ((Hputs & _) & _ & _).
    { simpl. intros Hc. rewrite Hdone.
      rewrite bool_decide_eq_true_2 by (unfold Pool.count at 1; simpl; lia).
      apply orb_true_r. }
    rewrite Hputs, Hqs, Hb. reflexivity. }
  rewrite Hout in Hzero. rewrite decide_True in Hzero by auto.
  unfold Pool.outstanding in Hout.
  assert (Hfin1 : Pool.count (Pool.is_finalize t)
                    (Pool.trace (Shutdown.pool s)) = 1%nat) by lia.
  split; [lia|]. split; [exact Hfin1|]. apply Hdones. lia.
Qed.

Lemma shutdown_waits_for_every_transfer_witness :
  exists (pool : Pool.state) (s : Shutdown.state),
    Pool.run Fixture.retryable Fixture.worker Fixture.schedule Fixture.pool
      = Some pool
    /\ Shutdown.run Fixture.retryable Fixture.worker
         [Shutdown.Put_shutdown_signal;
          Shutdown.Pool_action (Pool.Worker_step 0);
          Shutdown.Put_shutdown_signal;
          Shutdown.Pool_action (Pool.Worker_step 1)]
         (Shutdown.start pool) = Some s
    /\ worker_queue (Pool.world (Shutdown.pool s)) = []
    /\ Pool.count (Pool.is_finalize 0) (Pool.trace (Shutdown.pool s)) = 1%nat
    /\ TransferState.done (monitor (Pool.world (Shutdown.pool s)) !!! 0%nat)
       = true.
Proof.
  eexists. eexists.
  split; [vm_compute; reflexivity|].
  match goal with
  | |- Shutdown.run _ _ _ (Shutdown.start ?p) = _ /\ _ => set (pool := p)
  end.
  split; [vm_compute; reflexivity|].
  match goal with
  | |- worker_queue (Pool.world (Shutdown.pool ?s)) = _ /\ _ =>
      destruct (shutdown_waits_for_every_transfer
                  Fixture.retryable Fixture.worker Fixture.pool pool s
                  Fixture.schedule
                  [Shutdown.Put_shutdown_signal;
                   Shutdown.Pool_action (Pool.Worker_step 0);
                   Shutdown.Put_shutdown_signal;
                   Shutdown.Pool_action (Pool.Worker_step 1)]
                  0 fixture_pool_initial)
        as (_ & Hq & Hdone)
  end.
  - constructor.
  - discriminate.
  - vm_compute. reflexivity.
  - reflexivity.
  - vm_compute. reflexivity.
  - repeat constructor.
  - destruct Hdone as (_ & Hf & Hd); [vm_compute; lia|].
    split; [exact Hq|]. split; [exact Hf | exact Hd].
Defined.
